(** * Problem-statement identifiers and bulk CSV import

    A shallow embedding of these pieces of the CMS backend:

    - the schema of [ProblemStatement] with its validation and its
      pre-save hook (models/Problem), which derives a domain-prefixed
      identifier such as AIM004 from the number of stored documents of the
      same domain;
    - the row loop of [bulkUploadProblems] and the static CSV of
      [downloadTemplate] (controllers/problemController.ts);
    - the handlers that change, delete, list and count stored documents
      (controllers/problemController.ts), the middleware that guards their
      routes (middleware/auth, routes/problems) and the script that
      migrates identifiers.

    Strings are sequences of code units; the development covers code units
    below 256, one [ascii] per unit. *)

From Stdlib Require Import Ascii.
From stdpp Require Import base numbers list strings gmap pretty sorting.

Local Open Scope stdpp_scope.

(** ** JavaScript string primitives used by the two source files *)

Module JS.

(** Code units removed by [String.prototype.trim]: the WhiteSpace and
    LineTerminator productions restricted to code units below 256
    (TAB, LF, VT, FF, CR, SP and NBSP). *)
Definition is_whitespace (c : ascii) : bool :=
  match c with
  | "009" | "010" | "011" | "012" | "013" | " " | "160" => true
  | _ => false
  end%char.

Fixpoint trimStart (s : string) : string :=
  match s with
  | EmptyString => EmptyString
  | String c r => if is_whitespace c then trimStart r else s
  end.

Fixpoint trimEnd (s : string) : string :=
  match s with
  | EmptyString => EmptyString
  | String c r =>
      match trimEnd r with
      | EmptyString => if is_whitespace c then EmptyString else String c EmptyString
      | r' => String c r'
      end
  end.

Definition trim (s : string) : string := trimEnd (trimStart s).

(** [s.split(sep)] for a one-unit separator: the pieces between
    occurrences, empty pieces kept, one piece for the empty string. *)
Fixpoint split (sep : ascii) (s : string) : list string :=
  match s with
  | EmptyString => [EmptyString]
  | String c r =>
      if Ascii.eqb c sep then EmptyString :: split sep r
      else match split sep r with
           | p :: ps => String c p :: ps
           | [] => [String c EmptyString]
           end
  end.

(** [xs.join(sep)]. *)
Fixpoint join (sep : string) (xs : list string) : string :=
  match xs with
  | [] => EmptyString
  | [x] => x
  | x :: rest => x +:+ sep +:+ join sep rest
  end.

(** [xs.includes(x)] on an array of strings. *)
Definition includes (xs : list string) (x : string) : bool :=
  existsb (String.eqb x) xs.

(** [toLowerCase] on code units below 256: A-Z and the accented capitals
    192-222 (except the multiplication sign 215) move up by 32. *)
Definition lower_unit (c : ascii) : ascii :=
  let n := nat_of_ascii c in
  if ((65 <=? n) && (n <=? 90)) || ((192 <=? n) && (n <=? 222) && negb (n =? 215))
  then ascii_of_nat (n + 32) else c.

Fixpoint toLowerCase (s : string) : string :=
  match s with
  | EmptyString => EmptyString
  | String c r => String (lower_unit c) (toLowerCase r)
  end.

(** Truthiness of an optional string: [undefined] and the empty string
    are falsy. *)
Definition truthy (v : option string) : bool :=
  match v with
  | Some (String _ _) => true
  | _ => false
  end.

(** [v || d] where [v] is a string or [undefined]. *)
Definition or_else (v : option string) (d : string) : string :=
  match v with
  | Some (String c r) => String c r
  | _ => d
  end.

(** The first [n] units of [fill] repeated for ever, starting inside a
    repetition at [cur]. *)
Fixpoint filler (fill cur : string) (n : nat) : string :=
  match n with
  | 0 => EmptyString
  | S n' =>
      match cur with
      | String c cur' => String c (filler fill cur' n')
      | EmptyString =>
          match fill with
          | String c cur' => String c (filler fill cur' n')
          | EmptyString => EmptyString
          end
      end
  end.

(** [s.padStart(targetLength, fill)]. *)
Definition padStart (targetLength : nat) (fill : string) (s : string) : string :=
  if targetLength <=? String.length s then s
  else match fill with
       | EmptyString => s
       | _ => filler fill fill (targetLength - String.length s) +:+ s
       end.

(** [String(n)] for a non-negative integer: its decimal numeral. *)
Definition String_ (n : nat) : string := pretty n.

End JS.

(** ** The ProblemStatement model (models/Problem) *)

(** The fields of [IProblemStatement] that the application writes.  A
    value of this type is a document as Mongoose holds it, after it has
    cast the input, filled in the defaults and run the setters of each
    path.  [id] is optional in the schema ([required: false]);
    [createdBy] is an object id, kept as its text.  The interface also
    declares [createdAt] and [updatedAt], which [timestamps: true] makes
    Mongoose maintain: every write of a document sets its [updatedAt].
    The record leaves the two out, so equality of records is equality of
    the sixteen fields below and says nothing about the timestamps. *)
Record IProblemStatement := {
  id : option string;
  title : string;
  abstract : string;
  technologies : list string;
  domain : string;
  category : string;
  difficulty : string;
  duration : string;
  deliverables : list string;
  prerequisites : list string;
  learningOutcomes : list string;
  status : string;
  featured : bool;
  tags : list string;
  createdBy : option string;
  viewCount : nat
}.

(** Assignment to [this.id]; every other field is copied. *)
Definition set_id (this : IProblemStatement) (v : string) : IProblemStatement :=
  {| id := Some v;
     title := title this;
     abstract := abstract this;
     technologies := technologies this;
     domain := domain this;
     category := category this;
     difficulty := difficulty this;
     duration := duration this;
     deliverables := deliverables this;
     prerequisites := prerequisites this;
     learningOutcomes := learningOutcomes this;
     status := status this;
     featured := featured this;
     tags := tags this;
     createdBy := createdBy this;
     viewCount := viewCount this |}.

Definition is_upper (c : ascii) : bool :=
  (nat_of_ascii "A"%char <=? nat_of_ascii c) && (nat_of_ascii c <=? nat_of_ascii "Z"%char).

Definition is_digit (c : ascii) : bool :=
  (nat_of_ascii "0"%char <=? nat_of_ascii c) && (nat_of_ascii c <=? nat_of_ascii "9"%char).

(** [/^[A-Z]{k}\d{3}$/.test(v)] for a fixed number [k] of letters. *)
Definition letters_then_digits (k : nat) (v : list ascii) : bool :=
  (length (take k v) =? k) && forallb is_upper (take k v)
  && (length (drop k v) =? 3) && forallb is_digit (drop k v).

(** [/^[A-Z]{2,3}\d{3}$/.test(v)]. *)
Definition id_format_test (v : string) : bool :=
  existsb (fun k => letters_then_digits k (String.list_ascii_of_string v)) [2; 3].

(** The [validate.validator] of the schema path [id]:
    [!v || /^[A-Z]{2,3}\d{3}$/.test(v)]. *)
Definition id_validator (v : option string) : bool :=
  negb (JS.truthy v) || id_format_test (default EmptyString v).

(** The eight domains: the [enum] of the schema path [domain], and the
    list [validDomains] of the controller. *)
Definition validDomains : list string :=
  [ "AI & Machine Learning";
    "IoT & Embedded Systems";
    "Cloud Computing";
    "Web & Mobile Applications";
    "Cybersecurity & Blockchain";
    "Data Science & Analytics";
    "Networking & Communication";
    "Mechanical / ECE Projects" ].

(** The object literal [domainPrefixMap], as the map of its own keys.  A
    lookup in the literal also finds the properties inherited from the
    object prototype (constructor, toString, valueOf, __proto__ and the
    like), which are truthy and so never give way to GEN; the map below
    does not have them.  The hook runs after validation, and the enum of
    the schema path [domain] only admits the eight keys, so a document
    that reaches the hook has its prefix in this map. *)
Definition domainPrefixMap : gmap string string :=
  list_to_map
    [ ("AI & Machine Learning", "AIM");
      ("IoT & Embedded Systems", "IOT");
      ("Cloud Computing", "CLD");
      ("Web & Mobile Applications", "WEB");
      ("Cybersecurity & Blockchain", "CYS");
      ("Data Science & Analytics", "DAT");
      ("Networking & Communication", "NET");
      ("Mechanical / ECE Projects", "MEC") ].

(** [ProblemStatement.countDocuments({ domain })] over the collection. *)
Definition countDocuments (d : string) (collection : list IProblemStatement) : nat :=
  length (filter (fun p => domain p = d) collection).

(** The condition of the hook: [!this.id || !regex.test(this.id)]. *)
Definition needs_id (this : IProblemStatement) : bool :=
  negb (JS.truthy (id this)) || negb (id_format_test (default EmptyString (id this))).

(** The identifier the hook builds:
    [`${domainPrefix}${String(count + 1).padStart(3, '0')}`]. *)
Definition generated_id (d : string) (count : nat) : string :=
  let domainPrefix := JS.or_else (domainPrefixMap !! d) "GEN" in
  domainPrefix +:+ JS.padStart 3 "0" (JS.String_ (count + 1)).

(** [ProblemStatementSchema.pre('save', ...)]. *)
Definition pre_save (this : IProblemStatement) (collection : list IProblemStatement)
  : IProblemStatement :=
  if needs_id this then
    let count := countDocuments (domain this) collection in
    set_id this (generated_id (domain this) count)
  else this.

(** ** Schema validation

    Mongoose validates a document before the pre-save hooks run, and
    refuses the save when a path fails: a [required] string is not empty,
    [maxlength] bounds the number of code units, [enum] lists the allowed
    values, the validator of [id] is the one above, and the elements of
    [technologies] and [deliverables] are [required] as well.  [viewCount]
    is a natural number, so [min: 0] holds; a [createdBy] that is present
    is taken as a well-formed object id. *)

Definition required_string (v : string) : bool := negb (String.eqb v EmptyString).

Definition maxlength (n : nat) (v : string) : bool := String.length v <=? n.

Definition schema_valid (this : IProblemStatement) : bool :=
  id_validator (id this)
  && required_string (title this) && maxlength 200 (title this)
  && required_string (abstract this) && maxlength 5000 (abstract this)
  && forallb required_string (technologies this)
  && JS.includes validDomains (domain this)
  && JS.includes ["Major"; "Minor"; "Capstone"] (category this)
  && JS.includes ["Beginner"; "Intermediate"; "Advanced"] (difficulty this)
  && required_string (duration this) && maxlength 50 (duration this)
  && forallb required_string (deliverables this)
  && JS.includes ["Active"; "Draft"; "Archived"] (status this)
  && bool_decide (is_Some (createdBy this)).

(** ** The collection behind the model

    The collection is the list of stored documents in insertion order.  The
    storage key [_id] and the timestamps that Mongoose maintains are not
    part of the model. *)

(** A rejected promise or thrown value, seen through its [message]
    property ([None] when the property is missing). *)
Record Exception := { exn_message : option string }.

(** The unique index declared by [unique: true] on the path [id]. *)
Definition id_taken (v : option string) (collection : list IProblemStatement) : bool :=
  existsb (fun p => bool_decide (id p = v)) collection.

(** The error of a refused validation.  Mongoose appends the failing
    paths and their messages to this text. *)
Definition validation_failed : Exception :=
  {| exn_message := Some "ProblemStatement validation failed" |}.

(** [document.save()] for a new document: the document is validated, then
    the hook runs, then the insert is refused when the identifier is
    already stored.  The text of the driver error is representative, the
    repository does not fix it. *)
Definition save (this : IProblemStatement) (collection : list IProblemStatement)
  : Exception + list IProblemStatement :=
  if negb (schema_valid this) then inl validation_failed
  else
    let doc := pre_save this collection in
    if id_taken (id doc) collection
    then inl {| exn_message := Some "E11000 duplicate key error" |}
    else inr (collection ++ [doc]).

(** Documents saved one after the other; the first failure stops the
    sequence. *)
Fixpoint save_all (docs : list IProblemStatement) (collection : list IProblemStatement)
  : Exception + list IProblemStatement :=
  match docs with
  | [] => inr collection
  | this :: rest =>
      match save this collection with
      | inl e => inl e
      | inr collection' => save_all rest collection'
      end
  end.

(** ** The bulk upload (controllers/problemController.ts) *)

(** A parsed CSV row: an object from column name to raw cell. *)
Abbreviation Row := (gmap string string).

(** The entries of [errors] and the [results] object. *)
Record ErrorEntry := { row : nat; field : string; message : string }.

Record Results := { imported : nat; failed : nat; errors : list ErrorEntry }.

(** The object literal [problemData]. *)
Module ProblemData.
Record t := {
  title : string;
  abstract : string;
  domain : string;
  category : string;
  difficulty : string;
  duration : string;
  technologies : list string;
  deliverables : list string;
  prerequisites : list string;
  learningOutcomes : list string;
  tags : list string;
  status : string;
  featured : bool;
  createdBy : option string
}.
End ProblemData.

Definition validCategories : list string := ["Major"; "Minor"; "Capstone"].

Definition validDifficulties : list string := ["Beginner"; "Intermediate"; "Advanced"].

(** [!v || v.trim() === ''] for a cell [v = row.k]. *)
Definition blank (v : option string) : bool :=
  negb (JS.truthy v) || String.eqb (JS.trim (default EmptyString v)) EmptyString.

(** [v && !valid.includes(v.trim())]. *)
Definition not_among (valid : list string) (v : option string) : bool :=
  JS.truthy v && negb (JS.includes valid (JS.trim (default EmptyString v))).

(** [if (cond) validationErrors.push(msg)]. *)
Definition push_if (cond : bool) (msg : string) (validationErrors : list string)
  : list string :=
  if cond then validationErrors ++ [msg] else validationErrors.

Definition must_be_one_of (what : string) (valid : list string) : string :=
  "Invalid " +:+ what +:+ ". Must be one of: " +:+ JS.join ", " valid.

(** The array [validationErrors] at the end of the validation block. *)
Definition validate (r : Row) : list string :=
  let validationErrors := [] in
  let validationErrors := push_if (blank (r !! "title")) "Title is required" validationErrors in
  let validationErrors := push_if (blank (r !! "abstract")) "Abstract is required" validationErrors in
  let validationErrors := push_if (blank (r !! "domain")) "Domain is required" validationErrors in
  let validationErrors := push_if (blank (r !! "category")) "Category is required" validationErrors in
  let validationErrors := push_if (blank (r !! "difficulty")) "Difficulty is required" validationErrors in
  let validationErrors := push_if (blank (r !! "duration")) "Duration is required" validationErrors in
  let validationErrors :=
    push_if (not_among validDomains (r !! "domain"))
            (must_be_one_of "domain" validDomains) validationErrors in
  let validationErrors :=
    push_if (not_among validCategories (r !! "category"))
            (must_be_one_of "category" validCategories) validationErrors in
  let validationErrors :=
    push_if (not_among validDifficulties (r !! "difficulty"))
            (must_be_one_of "difficulty" validDifficulties) validationErrors in
  validationErrors.

(** [parseArrayField]. *)
Definition parseArrayField (field : string) : list string :=
  if negb (JS.truthy (Some field)) || String.eqb (JS.trim field) EmptyString then []
  else filter (fun item => item ≠ EmptyString) (JS.trim <$> JS.split ";"%char field).

(** [row.k.trim()] for a required cell.  The object is built only after
    validation, where the six required cells are present, so the call
    cannot hit [undefined]. *)
Definition trimmed (r : Row) (k : string) : string :=
  JS.trim (default EmptyString (r !! k)).

(** [problemData] for a row that passed validation; [user] is
    [req.user?.id]. *)
Definition problemData (user : option string) (r : Row) : ProblemData.t :=
  {| ProblemData.title := trimmed r "title";
     ProblemData.abstract := trimmed r "abstract";
     ProblemData.domain := trimmed r "domain";
     ProblemData.category := trimmed r "category";
     ProblemData.difficulty := trimmed r "difficulty";
     ProblemData.duration := trimmed r "duration";
     ProblemData.technologies := parseArrayField (JS.or_else (r !! "technologies") EmptyString);
     ProblemData.deliverables := parseArrayField (JS.or_else (r !! "deliverables") EmptyString);
     ProblemData.prerequisites := parseArrayField (JS.or_else (r !! "prerequisites") EmptyString);
     ProblemData.learningOutcomes :=
       parseArrayField (JS.or_else (r !! "learningOutcomes") EmptyString);
     ProblemData.tags := parseArrayField (JS.or_else (r !! "tags") EmptyString);
     ProblemData.status := JS.or_else (JS.trim <$> r !! "status") "Draft";
     ProblemData.featured :=
       match r !! "featured" with
       | Some v => String.eqb (JS.toLowerCase v) "true"
       | None => false
       end;
     ProblemData.createdBy := user |}.

(** The HTTP response: status code and JSON body. *)
Record Response := {
  res_status : nat;
  res_success : bool;
  res_message : string;
  res_data : option Results
}.

Section BulkUpload.

(** The persistence layer and the CSV decoder are collaborators of the
    controller.  [create data db] is [await ProblemStatement.create(data)]
    run against the store [db]: it resolves ([None]) or rejects
    ([Some e]) and leaves a store behind.  [csv] is the list of rows the
    decoder emits for the text of the uploaded buffer. *)
Context {DB : Type}.
Variable create : ProblemData.t → DB → option Exception * DB.
Variable csv : string → list Row.

(** What the loop has written so far: the counters of [results], the
    array [errors] and the store. *)
Record Loop := { l_imported : nat; l_failed : nat; l_errors : list ErrorEntry; l_db : DB }.

(** One iteration of [for (let i = 0; i < problems.length; i++)]. *)
Definition process_row (user : option string) (i : nat) (r : Row) (st : Loop) : Loop :=
  let rowNumber := i + 2 in
  let validationErrors := validate r in
  if 0 <? length validationErrors then
    {| l_imported := l_imported st;
       l_failed := l_failed st + 1;
       l_errors := l_errors st ++
         ((fun error => {| row := rowNumber; field := "validation"; message := error |})
            <$> validationErrors);
       l_db := l_db st |}
  else
    match create (problemData user r) (l_db st) with
    | (None, db') =>
        {| l_imported := l_imported st + 1;
           l_failed := l_failed st;
           l_errors := l_errors st;
           l_db := db' |}
    | (Some error, db') =>
        {| l_imported := l_imported st;
           l_failed := l_failed st + 1;
           l_errors := l_errors st ++
             [ {| row := rowNumber;
                  field := "database";
                  message := JS.or_else (exn_message error)
                               "Failed to create problem statement" |} ];
           l_db := db' |}
    end.

Fixpoint for_rows (user : option string) (i : nat) (problems : list Row) (st : Loop) : Loop :=
  match problems with
  | [] => st
  | r :: rest => for_rows user (S i) rest (process_row user i r st)
  end.

Definition start (db0 : DB) : Loop :=
  {| l_imported := 0; l_failed := 0; l_errors := []; l_db := db0 |}.

(** The loop over the decoded rows followed by [results.errors = errors]. *)
Definition upload_rows (user : option string) (problems : list Row) (db0 : DB)
  : Results * DB :=
  let st := for_rows user 0 problems (start db0) in
  ({| imported := l_imported st; failed := l_failed st; errors := l_errors st |}, l_db st).

(** [bulkUploadProblems]; [file] is [req.file] as the text of its buffer. *)
Definition bulkUploadProblems (file : option string) (user : option string) (db0 : DB)
  : Response * DB :=
  match file with
  | None =>
      ({| res_status := 400; res_success := false;
          res_message := "No CSV file uploaded"; res_data := None |}, db0)
  | Some buffer =>
      let problems := csv buffer in
      let '(results, db') := upload_rows user problems db0 in
      ({| res_status := 200; res_success := true;
          res_message := "Bulk upload completed. " +:+ pretty (imported results)
                         +:+ " imported, " +:+ pretty (failed results) +:+ " failed.";
          res_data := Some results |}, db')
  end.

(** Whether, in the run over [problems] from store [db0], every call of
    [create] resolves. *)
Fixpoint all_persisted (user : option string) (problems : list Row) (db0 : DB) : bool :=
  match problems with
  | [] => true
  | r :: rest =>
      if 0 <? length (validate r) then all_persisted user rest db0
      else match create (problemData user r) db0 with
           | (None, db') => all_persisted user rest db'
           | (Some _, _) => false
           end
  end.

End BulkUpload.

(** The rows of [problems] that fail validation. *)
Definition rejected (problems : list Row) : list Row :=
  filter (fun r => validate r ≠ []) problems.

(** [ProblemStatement.create(problemData)] on the list-backed collection:
    a new document with the schema defaults ([id] unset, [viewCount] 0)
    is saved, which validates it first.  The setters of the schema
    ([trim]) find nothing to change in what [problemData] holds. *)
Definition new_document (data : ProblemData.t) : IProblemStatement :=
  {| id := None;
     title := ProblemData.title data;
     abstract := ProblemData.abstract data;
     technologies := ProblemData.technologies data;
     domain := ProblemData.domain data;
     category := ProblemData.category data;
     difficulty := ProblemData.difficulty data;
     duration := ProblemData.duration data;
     deliverables := ProblemData.deliverables data;
     prerequisites := ProblemData.prerequisites data;
     learningOutcomes := ProblemData.learningOutcomes data;
     status := ProblemData.status data;
     featured := ProblemData.featured data;
     tags := ProblemData.tags data;
     createdBy := ProblemData.createdBy data;
     viewCount := 0 |}.

Definition ProblemStatement_create (data : ProblemData.t)
    (collection : list IProblemStatement) : option Exception * list IProblemStatement :=
  match save (new_document data) collection with
  | inl e => (Some e, collection)
  | inr collection' => (None, collection')
  end.

(** ** The CSV decoder

    [csv()] is the csv-parser package with its default options
    (separator comma, quote and escape the double quote, first line as
    header, no strict mode), a dependency and not code of the repository.
    The model follows its scanner for input that arrives as one chunk, which
    is how [Readable.from(text)] delivers it: lines end at a line feed
    outside quotes and lose one carriage return before it.  A header line
    holding a carriage return that no line feed follows makes the package
    split at carriage returns instead; that mode is not modelled. *)

Module CsvParser.

Definition is_quote (c : ascii) : bool := Ascii.eqb c "034"%char.
Definition is_comma (c : ascii) : bool := Ascii.eqb c ","%char.
Definition is_nl (c : ascii) : bool := Ascii.eqb c "010"%char.
Definition is_cr (c : ascii) : bool := Ascii.eqb c "013"%char.

Definition next_is (p : ascii → bool) (rest : list ascii) : bool :=
  match rest with
  | c :: _ => p c
  | [] => false
  end.

(** The loop of [_transform]: [escaped] and [quoted] are the flags of
    [this.state], [line] holds the units since the last line end in
    reverse.  The result is the finished lines, the units after the last
    line end and the final [escaped]. *)
Fixpoint scan (at_start escaped quoted : bool) (line buffer : list ascii)
  : list (list ascii) * list ascii * bool :=
  match buffer with
  | [] => ([], rev line, escaped)
  | chr :: rest =>
      if negb escaped && is_quote chr && next_is is_quote rest && negb at_start then
        scan false true quoted (chr :: line) rest
      else if is_quote chr then
        scan false false (if escaped then quoted else negb quoted) (chr :: line) rest
      else if negb quoted && is_nl chr then
        let '(lines, remainder, e) := scan false escaped quoted [] rest in
        (rev line :: lines, remainder, e)
      else scan false escaped quoted (chr :: line) rest
  end.

(** The copy loop of [parseCell]: an escape before a quote is dropped. *)
Fixpoint unescape (cell : list ascii) : list ascii :=
  match cell with
  | [] => []
  | c :: rest =>
      match rest with
      | d :: rest' =>
          if is_quote c && is_quote d then d :: unescape rest' else c :: unescape rest
      | [] => [c]
      end
  end.

(** [parseCell]: a cell that starts and ends with a quote loses both. *)
Definition parseCell (cell : list ascii) : string :=
  let inner :=
    match cell with
    | c :: rest =>
        if is_quote c && next_is is_quote (rev cell) then removelast rest else cell
    | [] => []
    end in
  String.string_of_list_ascii (unescape inner).

(** The cell loop of [parseLine].  [skip] is set after an escape, whose
    next unit is passed over; [cell] holds the units since the last
    separator in reverse. *)
Fixpoint cells_of (skip isQuoted : bool) (cell line : list ascii) : list string :=
  match line with
  | [] =>
      match cell with
      | [] => []
      | _ => [parseCell (rev cell)]
      end
  | c :: rest =>
      if skip then cells_of false isQuoted (c :: cell) rest
      else if is_quote c && (negb isQuoted || next_is is_comma rest) then
        cells_of false (negb isQuoted) (c :: cell) rest
      else if isQuoted && is_quote c && next_is is_quote rest then
        cells_of true isQuoted (c :: cell) rest
      else if is_comma c && negb isQuoted then
        parseCell (rev cell) :: cells_of false isQuoted [] rest
      else cells_of false isQuoted (c :: cell) rest
  end.

(** [parseLine] up to the cells: the carriage return before the line
    end is trimmed, and a line that ends in a comma gets one more, empty
    cell. *)
Definition parseLine (line : list ascii) : list string :=
  let line := if next_is is_cr (rev line) then removelast line else line in
  cells_of false false [] line
  ++ (if next_is is_comma (rev line) then [EmptyString] else []).

(** [writeRow]: cell [index] is stored under header [index], or under
    the key made of an underscore and [index] when the header line is
    shorter. *)
Definition writeRow (headers cells : list string) : Row :=
  foldl (fun o '(index, cell) =>
           match headers !! index with
           | Some header => <[header := cell]> o
           | None => <["_" +:+ pretty index := cell]> o
           end) ∅ (imap pair cells).

(** All rows pushed for [buffer]: the first line gives the headers, and
    [_flush] parses what follows the last line end. *)
Definition csv (buffer : string) : list Row :=
  let '(lines, remainder, escaped) :=
    scan true false false [] (String.list_ascii_of_string buffer) in
  let lines :=
    lines ++ (match remainder with
              | [] => []
              | _ => if escaped then [] else [remainder]
              end) in
  match lines with
  | [] => []
  | first :: data =>
      let headers := parseLine first in
      (fun line => writeRow headers (parseLine line)) <$> data
  end.

End CsvParser.

(** ** The template of [downloadTemplate] *)

Definition dquote : string := String "034"%char EmptyString.

Definition line_feed : string := String "010"%char EmptyString.

(** A line of the template: every cell in double quotes, commas between. *)
Definition quoted_line (cells : list string) : string :=
  JS.join "," ((fun cell => dquote +:+ cell +:+ dquote) <$> cells).

Definition template_header : string :=
  "title,abstract,domain,category,difficulty,duration,technologies,deliverables,prerequisites,learningOutcomes,tags,status,featured".

(** The cells of the five example lines, without their quotes. *)
Definition template_examples : list (list string) :=
  [ [ "AI-Powered Personal Finance Manager";
      "Develop an intelligent personal finance management system that uses machine learning algorithms to analyze user spending patterns and provide personalized financial advice. The system will include features like budget tracking, expense categorization, investment recommendations, and financial goal setting.";
      "AI & Machine Learning";
      "Major";
      "Advanced";
      "12-16 weeks";
      "Python;TensorFlow;React;Node.js;MongoDB";
      "Complete source code;User interface;Documentation;Deployment guide";
      "Strong programming skills;Basic ML knowledge;Web development experience";
      "Implement ML algorithms;Design responsive web applications;Work with financial APIs";
      "Machine Learning;Finance;Web Development;Data Analysis";
      "Draft";
      "false" ];
    [ "IoT Smart Home System";
      "Create a comprehensive IoT-based smart home automation system that allows users to control various home appliances and monitor environmental conditions remotely. The system will include sensors for temperature, humidity, motion detection, and smart switches for controlling lights and fans.";
      "IoT & Embedded Systems";
      "Major";
      "Intermediate";
      "10-14 weeks";
      "Arduino;Raspberry Pi;Python;MQTT;React Native";
      "Hardware prototype;Mobile app;Documentation;Circuit diagrams";
      "Electronics basics;Programming skills;IoT concepts";
      "Work with IoT devices;Develop mobile applications;Understand sensor integration";
      "IoT;Smart Home;Automation;Mobile Development";
      "Draft";
      "false" ];
    [ "Blockchain-Based Supply Chain Tracking";
      "Implement a blockchain solution for tracking products throughout the supply chain, ensuring transparency and authenticity. The system will allow consumers to verify product origins and track the journey from manufacturer to retailer.";
      "Cybersecurity & Blockchain";
      "Major";
      "Advanced";
      "14-18 weeks";
      "Solidity;Web3.js;React;Node.js;IPFS";
      "Smart contracts;Web application;Documentation;Test cases";
      "Blockchain fundamentals;Smart contract development;Web3 technologies";
      "Develop smart contracts;Build decentralized applications;Understand supply chain processes";
      "Blockchain;Supply Chain;Web3;Smart Contracts";
      "Draft";
      "false" ];
    [ "Cloud-Based E-Learning Platform";
      "Build a scalable e-learning platform using cloud technologies that supports video streaming, real-time collaboration, and progress tracking. The platform will include features like course creation, student enrollment, assignment submission, and performance analytics.";
      "Cloud Computing";
      "Major";
      "Intermediate";
      "12-16 weeks";
      "AWS;React;Node.js;MongoDB;Docker";
      "Cloud deployment;Web application;API documentation;Database schema";
      "Cloud computing basics;Web development;Database design";
      "Deploy applications to cloud;Implement real-time features;Design scalable architectures";
      "Cloud Computing;E-Learning;Real-time Applications;Scalability";
      "Draft";
      "false" ];
    [ "Cybersecurity Threat Detection System";
      "Develop an AI-powered cybersecurity system that monitors network traffic and detects potential threats in real-time. The system will use machine learning algorithms to identify suspicious patterns and alert administrators about potential security breaches.";
      "Cybersecurity & Blockchain";
      "Major";
      "Advanced";
      "16-20 weeks";
      "Python;TensorFlow;Kafka;Elasticsearch;React";
      "Threat detection engine;Dashboard;Documentation;Test datasets";
      "Cybersecurity knowledge;Machine learning;Network protocols";
      "Implement ML-based threat detection;Build monitoring dashboards;Understand network security";
      "Cybersecurity;Machine Learning;Network Security;Real-time Processing";
      "Draft";
      "false" ] ].

(** The template literal [csvContent]: the header line and the five
    example lines, separated by line feeds, with no line feed at the end. *)
Definition csvContent : string :=
  JS.join line_feed (template_header :: (quoted_line <$> template_examples)).

(** [downloadTemplate]: the body handed to [res.send]. *)
Definition downloadTemplate : string := csvContent.

(** ** Sample data *)

(** A document of the given domain and identifier for the examples. *)
Definition example_document (d : string) (v : option string) : IProblemStatement :=
  {| id := v;
     title := "Smart Campus Energy Monitor";
     abstract := "Measure and report the energy use of campus buildings.";
     technologies := ["Python"; "MQTT"];
     domain := d;
     category := "Major";
     difficulty := "Intermediate";
     duration := "8-10 weeks";
     deliverables := ["Source Code"; "Documentation"];
     prerequisites := [];
     learningOutcomes := [];
     status := "Draft";
     featured := false;
     tags := [];
     createdBy := Some "64f0c2a9e1b2c3d4e5f60718";
     viewCount := 0 |}.

(** Three documents of one domain that need an identifier (two without
    one, one with an empty one), a collection without documents of that
    domain, and a collection holding 999 of them. *)
Definition example_batch : list IProblemStatement :=
  [ example_document "Cloud Computing" None;
    example_document "Cloud Computing" (Some EmptyString);
    example_document "Cloud Computing" None ].

Definition example_collection : list IProblemStatement :=
  [ example_document "AI & Machine Learning" (Some "AIM001") ].

Definition example_full_domain : list IProblemStatement :=
  replicate 999 (example_document "Cloud Computing" (Some "CLD001")).

(** The entries the loop records for rows that fail validation, for the
    rows [problems] starting at index [i]. *)
Fixpoint validation_entries (i : nat) (problems : list Row) : list ErrorEntry :=
  match problems with
  | [] => []
  | r :: rest =>
      ((fun error => {| row := i + 2; field := "validation"; message := error |})
         <$> validate r)
      ++ validation_entries (S i) rest
  end.

(** The six required columns and the word that names each in its message. *)
Definition required_fields : list (string * string) :=
  [ ("title", "Title"); ("abstract", "Abstract"); ("domain", "Domain");
    ("category", "Category"); ("difficulty", "Difficulty"); ("duration", "Duration") ].

(** The five list-typed columns and the field of [problemData] each fills. *)
Definition list_columns : list (string * (ProblemData.t → list string)) :=
  [ ("technologies", ProblemData.technologies);
    ("deliverables", ProblemData.deliverables);
    ("prerequisites", ProblemData.prerequisites);
    ("learningOutcomes", ProblemData.learningOutcomes);
    ("tags", ProblemData.tags) ].

(** A row that passes validation, and the same row without its title and
    with a category outside the allowed set. *)
Definition example_row : Row :=
  list_to_map
    [ ("title", "Smart Campus Energy Monitor");
      ("abstract", "Measure and report the energy use of campus buildings.");
      ("domain", "IoT & Embedded Systems");
      ("category", "Major");
      ("difficulty", "Intermediate");
      ("duration", "8-10 weeks");
      ("technologies", "Python;TensorFlow; React ") ].

Definition example_bad_row : Row :=
  <["category" := "Huge"]> (delete "title" example_row).

(** A store that refuses every write, with the given [message]. *)
Definition failing_create (text : option string) (data : ProblemData.t) (db : unit)
  : option Exception * unit :=
  (Some {| exn_message := text |}, db).

(** A small upload: a header and three data lines, the second without a
    title and with a category outside the allowed set. *)
Definition example_upload : string :=
  JS.join line_feed
    [ "title,abstract,domain,category,difficulty,duration,technologies";
      "Energy Monitor,Measure energy use,IoT & Embedded Systems,Major,Intermediate,8 weeks,Python;MQTT";
      ",No title here,Cloud Computing,Huge,Beginner,4 weeks,";
      "Chat Relay,Relay messages,Networking & Communication,Minor,Beginner,6 weeks,Go" ].

(** ** Notions used in the statements *)

(** The prefix the hook picks for a domain. *)
Definition domainPrefix (d : string) : string :=
  JS.or_else (domainPrefixMap !! d) "GEN".

(** The eight prefixes of the table and the fallback. *)
Definition prefixes : list string :=
  ["AIM"; "IOT"; "CLD"; "WEB"; "CYS"; "DAT"; "NET"; "MEC"; "GEN"].

Definition all_digits (s : string) : bool :=
  forallb is_digit (String.list_ascii_of_string s).

(** The value a string of digits denotes. *)
Definition digit_value (c : ascii) : nat := nat_of_ascii c - 48.

Definition numeral_value (s : string) : nat :=
  foldl (fun acc c => 10 * acc + digit_value c) 0 (String.list_ascii_of_string s).

Definition pad3 (n : nat) : string := JS.padStart 3 "0" (JS.String_ n).

(** The identifiers handed out to [docs], all of domain [d], saved one
    after the other on top of [n] stored documents of that domain. *)
Definition run_of_ids (d : string) (n : nat) (docs : list IProblemStatement)
  : list (option string) :=
  (fun k => Some (domainPrefix d +:+ pad3 (n + k))) <$> seq 1 (length docs).

Definition all_whitespace (s : string) : bool :=
  forallb JS.is_whitespace (String.list_ascii_of_string s).

(** ** Further notions used in the statements *)

(** A string without semicolon. *)
Definition no_semicolon (s : string) : bool :=
  forallb (fun c => negb (Ascii.eqb c ";"%char)) (String.list_ascii_of_string s).

(** An item as [parseArrayField] returns it: not empty, no white space at
    either end, no semicolon. *)
Definition item_normal (item : string) : Prop :=
  item ≠ EmptyString ∧ JS.trim item = item ∧ no_semicolon item = true.

(** The sixteen ways to write the word true in upper and lower case. *)
Definition true_spellings : list string :=
  c1 ← ["t"; "T"]; c2 ← ["r"; "R"]; c3 ← ["u"; "U"]; c4 ← ["e"; "E"];
  [c1 +:+ c2 +:+ c3 +:+ c4].

(** Whether the first unit, if any, is white space. *)
Definition starts_blank (s : string) : bool :=
  match s with
  | String c _ => JS.is_whitespace c
  | EmptyString => false
  end.

(** ** Handlers on stored documents (controllers/problemController.ts)

    A stored document carries its storage key [_id]; keys are taken as
    numbers.  [req.params.id] is taken as a well-formed key: text that
    Mongoose cannot cast to a key makes it throw before any of the code
    below runs.  The collection may hold documents that the schema would
    refuse today (written before a rule existed, or by code that does not
    validate). *)

Abbreviation Store := (list (nat * IProblemStatement)).

(** The documents of the collection, without their keys. *)
Definition documents (store : Store) : list IProblemStatement := snd <$> store.

(** [ProblemStatement.findById(key)]: the first document stored under
    [key], [null] when there is none. *)
Fixpoint findById (key : nat) (store : Store) : option IProblemStatement :=
  match store with
  | [] => None
  | (k, doc) :: rest => if decide (k = key) then Some doc else findById key rest
  end.

(** The write of an update: the first document stored under [key] is
    replaced. *)
Fixpoint replace_first (key : nat) (doc : IProblemStatement) (store : Store) : Store :=
  match store with
  | [] => []
  | (k, old) :: rest =>
      if decide (k = key) then (k, doc) :: rest else (k, old) :: replace_first key doc rest
  end.

(** [ProblemStatement.findByIdAndDelete(key)]: the first document stored
    under [key] is removed. *)
Fixpoint remove_first (key : nat) (store : Store) : Store :=
  match store with
  | [] => []
  | (k, old) :: rest =>
      if decide (k = key) then rest else (k, old) :: remove_first key rest
  end.

(** [problem.save()] for a document fetched under [key] and changed in
    memory.  Mongoose validates the document, the paths it has loaded
    included, and refuses the save when one fails.  Then the hook runs
    against the collection, which still holds the stored version; when the
    hook has changed the identifier, the unique index refuses a value that
    is already stored.  On success the result is the document as the hook
    left it and the collection with the write.  The write also sets
    [updatedAt], which the record does not carry. *)
Definition save_existing (key : nat) (this : IProblemStatement) (store : Store)
  : Exception + IProblemStatement * Store :=
  if negb (schema_valid this) then inl validation_failed
  else
    let doc := pre_save this (documents store) in
    if bool_decide (id doc ≠ id this) && id_taken (id doc) (documents store)
    then inl {| exn_message := Some "E11000 duplicate key error" |}
    else inr (doc, replace_first key doc store).

(** Assignments to [problem.status] and [problem.featured]. *)
Definition set_status (this : IProblemStatement) (v : string) : IProblemStatement :=
  {| id := id this;
     title := title this;
     abstract := abstract this;
     technologies := technologies this;
     domain := domain this;
     category := category this;
     difficulty := difficulty this;
     duration := duration this;
     deliverables := deliverables this;
     prerequisites := prerequisites this;
     learningOutcomes := learningOutcomes this;
     status := v;
     featured := featured this;
     tags := tags this;
     createdBy := createdBy this;
     viewCount := viewCount this |}.

Definition set_featured (this : IProblemStatement) (v : bool) : IProblemStatement :=
  {| id := id this;
     title := title this;
     abstract := abstract this;
     technologies := technologies this;
     domain := domain this;
     category := category this;
     difficulty := difficulty this;
     duration := duration this;
     deliverables := deliverables this;
     prerequisites := prerequisites this;
     learningOutcomes := learningOutcomes this;
     status := status this;
     featured := v;
     tags := tags this;
     createdBy := createdBy this;
     viewCount := viewCount this |}.

(** [req.user] as the handlers read it: [id] and [role]. *)
Record AuthUser := { user_id : string; user_role : string }.

(** What a handler does with the request: a JSON reply with its status
    code, or [next(error)].  [reply_data] is the document of the reply,
    before [res.json] serialises it. *)
Record Reply := {
  reply_status : nat;
  reply_success : bool;
  reply_message : string;
  reply_data : option IProblemStatement
}.

Inductive Handled :=
  | Sent (reply : Reply)
  | Passed (error : Exception).

(** The request was answered with status 200. *)
Definition is_ok (out : Handled) : bool :=
  match out with
  | Sent reply => reply_status reply =? 200
  | Passed _ => false
  end.

Definition not_found : Reply :=
  {| reply_status := 404; reply_success := false;
     reply_message := "Problem not found"; reply_data := None |}.

(** The check shared by [updateProblem] and [updateProblemStatus]:
    [owner !== req.user?.id && req.user?.role !== 'admin']. *)
Definition not_owner_nor_admin (owner : string) (user : option AuthUser) : bool :=
  bool_decide (Some owner ≠ user_id <$> user)
  && bool_decide (user_role <$> user ≠ Some "admin").

(** [updateProblemStatus]; [new_status] is [req.body.status], [None] when
    it is no string.  A stored document without [createdBy] makes
    [problem.createdBy.toString()] throw; the text of that error is the
    engine's, not the repository's. *)
Definition updateProblemStatus (key : nat) (new_status : option string)
    (user : option AuthUser) (store : Store) : Handled * Store :=
  match new_status with
  | Some v =>
      if negb (JS.includes ["Active"; "Draft"; "Archived"] v) then
        (Sent {| reply_status := 400; reply_success := false;
                 reply_message := "Invalid status. Must be Active, Draft, or Archived";
                 reply_data := None |}, store)
      else
        match findById key store with
        | None => (Sent not_found, store)
        | Some problem =>
            match createdBy problem with
            | None =>
                (Passed {| exn_message :=
                             Some "Cannot read properties of undefined (reading 'toString')" |},
                 store)
            | Some owner =>
                if not_owner_nor_admin owner user then
                  (Sent {| reply_status := 403; reply_success := false;
                           reply_message := "Not authorized to update this problem";
                           reply_data := None |}, store)
                else
                  match save_existing key (set_status problem v) store with
                  | inl error => (Passed error, store)
                  | inr (problem, store') =>
                      (Sent {| reply_status := 200; reply_success := true;
                               reply_message := "Problem status updated to " +:+ v;
                               reply_data := Some problem |}, store')
                  end
            end
        end
  | None =>
      (Sent {| reply_status := 400; reply_success := false;
               reply_message := "Invalid status. Must be Active, Draft, or Archived";
               reply_data := None |}, store)
  end.

(** [toggleFeatured]. *)
Definition toggleFeatured (key : nat) (store : Store) : Handled * Store :=
  match findById key store with
  | None => (Sent not_found, store)
  | Some problem =>
      let problem := set_featured problem (negb (featured problem)) in
      match save_existing key problem store with
      | inl error => (Passed error, store)
      | inr (problem, store') =>
          (Sent {| reply_status := 200; reply_success := true;
                   reply_message :=
                     "Problem " +:+ (if featured problem then "featured" else "unfeatured")
                     +:+ " successfully";
                   reply_data := Some problem |}, store')
      end
  end.

(** [deleteProblem]. *)
Definition deleteProblem (key : nat) (store : Store) : Handled * Store :=
  match findById key store with
  | None => (Sent not_found, store)
  | Some _ =>
      (Sent {| reply_status := 200; reply_success := true;
               reply_message := "Problem deleted successfully"; reply_data := None |},
       remove_first key store)
  end.

(** A store of three documents of one domain, numbered in sequence. *)
Definition example_store : Store :=
  [ (11, example_document "Cloud Computing" (Some "CLD001"));
    (12, example_document "Cloud Computing" (Some "CLD002"));
    (13, example_document "Cloud Computing" (Some "CLD003")) ].

(** A store with a single document that has no identifier. *)
Definition example_legacy_store : Store :=
  [ (21, example_document "Cloud Computing" None) ].

(** The creator of the sample documents as a faculty member, an
    administrator, and a student. *)
Definition example_owner : AuthUser :=
  {| user_id := "64f0c2a9e1b2c3d4e5f60718"; user_role := "faculty" |}.

Definition example_admin : AuthUser :=
  {| user_id := "64f0c2a9e1b2c3d4e5f60701"; user_role := "admin" |}.

Definition example_student : AuthUser :=
  {| user_id := "64f0c2a9e1b2c3d4e5f60799"; user_role := "student" |}.

(** The fields of a document that the application sets are the same in
    [p] and [q]; the timestamps are not among them. *)
Definition same_fields (p q : IProblemStatement) : Prop :=
  id p = id q
  ∧ title p = title q
  ∧ abstract p = abstract q
  ∧ technologies p = technologies q
  ∧ domain p = domain q
  ∧ category p = category q
  ∧ difficulty p = difficulty q
  ∧ duration p = duration q
  ∧ deliverables p = deliverables q
  ∧ prerequisites p = prerequisites q
  ∧ learningOutcomes p = learningOutcomes q
  ∧ status p = status q
  ∧ featured p = featured q
  ∧ tags p = tags q
  ∧ createdBy p = createdBy q
  ∧ viewCount p = viewCount q.

(** A store with one document whose identifier was generated when 999
    documents of its domain were stored. *)
Definition example_crowded_store : Store :=
  [ (51, example_document "Cloud Computing" (Some "CLD1000")) ].

(** ** Authentication and roles (middleware/auth.ts) and the guarded
       routes (routes/problems.ts)

    [createError] is imported from middleware/errorHandler; it is taken as
    given, together with the value it builds.  [jwt.verify] with the
    configured secret and [User.findById] are taken as given as well: each
    either throws or returns, [jwt.verify] the [id] of the payload
    ([None] when the payload has none) and [User.findById] the user
    ([None] for [null]). *)

Section Middleware.
Context {Error : Type}.
Variable createError : string → nat → Error.
Variable jwt_verify : string → Exception + option string.
Variable User_findById : option string → Exception + option AuthUser.

(** The token [protect] reads from the [authorization] header:
    [authorization.split(' ')[1]] when the header is there and starts
    with [Bearer], [undefined] otherwise. *)
Definition bearer_token (authorization : option string) : option string :=
  if JS.truthy authorization
     && String.prefix "Bearer" (default EmptyString authorization)
  then JS.split " "%char (default EmptyString authorization) !! 1
  else None.

(** The inner [try] block of [protect]: what it throws, or the user it
    puts on the request. *)
Definition protect_inner (token : string) : (Exception + Error) + AuthUser :=
  match jwt_verify token with
  | inl thrown => inl (inl thrown)
  | inr decoded_id =>
      match User_findById decoded_id with
      | inl thrown => inl (inl thrown)
      | inr None => inl (inr (createError "No user found with this token" 401))
      | inr (Some user) => inr user
      end
  end.

(** [protect]: [inl e] for [next(e)], [inr user] for [req.user = user]
    followed by [next()]. *)
Definition protect (authorization : option string) : Error + AuthUser :=
  let token := bearer_token authorization in
  if negb (JS.truthy token) then
    inl (createError "Not authorized to access this route" 401)
  else
    match protect_inner (default EmptyString token) with
    | inl _ => inl (createError "Not authorized to access this route" 401)
    | inr user => inr user
    end.

(** [authorize(...roles)]: [Some e] for [next(e)], [None] for [next()]. *)
Definition authorize (roles : list string) (user : option AuthUser) : option Error :=
  match user with
  | None => Some (createError "Not authorized to access this route" 401)
  | Some u =>
      if negb (JS.includes roles (user_role u)) then
        Some (createError
                ("User role " +:+ user_role u +:+ " is not authorized to access this route")
                403)
      else None
  end.

(** A request on a guarded route ends in the error handler or reaches
    the handler of the route. *)
Inductive Routed :=
  | Refused (error : Error)
  | Reached (out : Handled).

(** [router.METHOD(path, protect, authorize(...roles), handler)]: each
    middleware hands over to the next one with [next()] and to the error
    handler with [next(error)]. *)
Definition guarded (roles : list string) (handler : AuthUser → Store → Handled * Store)
    (authorization : option string) (store : Store) : Routed * Store :=
  match protect authorization with
  | inl error => (Refused error, store)
  | inr user =>
      match authorize roles (Some user) with
      | Some error => (Refused error, store)
      | None => let (out, store') := handler user store in (Reached out, store')
      end
  end.

(** [PUT /:id/status].  The [body('status')] check between [authorize]
    and the handler only records its finding on the request, and
    [updateProblemStatus] does not read it. *)
Definition route_status (authorization : option string) (key : nat)
    (new_status : option string) (store : Store) : Routed * Store :=
  guarded ["admin"; "faculty"]
    (fun user => updateProblemStatus key new_status (Some user)) authorization store.

(** [PUT /:id/featured]. *)
Definition route_featured (authorization : option string) (key : nat) (store : Store)
  : Routed * Store :=
  guarded ["admin"] (fun _ => toggleFeatured key) authorization store.

(** [DELETE /:id]. *)
Definition route_delete (authorization : option string) (key : nat) (store : Store)
  : Routed * Store :=
  guarded ["admin"] (fun _ => deleteProblem key) authorization store.
End Middleware.

(** A string without space. *)
Definition no_space (s : string) : bool :=
  forallb (fun c => negb (Ascii.eqb c " "%char)) (String.list_ascii_of_string s).

(** Sample oracles: an error is its message and status code; three tokens
    are valid, one for each sample user, and a fourth one names a user
    that no longer exists. *)
Definition example_createError (text : string) (code : nat) : string * nat := (text, code).

Definition example_jwt_verify (token : string) : Exception + option string :=
  if String.eqb token "token-of-owner" then inr (Some (user_id example_owner))
  else if String.eqb token "token-of-admin" then inr (Some (user_id example_admin))
  else if String.eqb token "token-of-student" then inr (Some (user_id example_student))
  else if String.eqb token "token-of-nobody" then inr (Some "64f0c2a9e1b2c3d4e5f60000")
  else inl {| exn_message := Some "jwt malformed" |}.

Definition example_User_findById (key : option string) : Exception + option AuthUser :=
  inr (List.find (fun u => bool_decide (key = Some (user_id u)))
         [example_owner; example_admin; example_student]).

(** A store with one document that the sample student created. *)
Definition example_student_store : Store :=
  [ (31, {| id := Some "WEB001";
            title := "Campus Ride Sharing";
            abstract := "Match students who travel the same way.";
            technologies := ["React"];
            domain := "Web & Mobile Applications";
            category := "Minor";
            difficulty := "Beginner";
            duration := "6 weeks";
            deliverables := ["Source Code"];
            prerequisites := [];
            learningOutcomes := [];
            status := "Draft";
            featured := false;
            tags := [];
            createdBy := Some (user_id example_student);
            viewCount := 0 |}) ].

(** ** The identifier migration (the [migrateIds] script)

    The script reads the collection the application writes.  Its own
    schema declares no index, so whether the unique index on [id] exists
    depends on the database; [unique_index] says whether it does.  The
    script builds the identifier with the same expression as the hook, and
    the model uses the hook's [generated_id] for it, the lookup among the
    eight own keys of the table included.  The schema of the script has no
    [enum] on [domain]: for a domain named like a property that objects
    inherit (constructor, toString, ...) the script finds that property
    instead of GEN, which the model does not follow.  The update of a
    document also sets its [updatedAt], which the record does not
    carry. *)

(** [countDocuments({ domain: d, _id: { $lt: key } })]. *)
Definition count_before (d : string) (key : nat) (store : Store) : nat :=
  length (filter (fun entry => domain entry.2 = d ∧ entry.1 < key) store).

(** [findByIdAndUpdate(key, { id: v })]: the first document stored under
    [key] gets the identifier [v]; no hook runs. *)
Fixpoint update_id (key : nat) (v : string) (store : Store) : Store :=
  match store with
  | [] => []
  | (k, old) :: rest =>
      if decide (k = key) then (k, set_id old v) :: rest
      else (k, old) :: update_id key v rest
  end.

(** A document stored under another key holds the identifier [v]. *)
Definition id_held_by_other (key : nat) (v : string) (store : Store) : bool :=
  existsb (fun entry => bool_decide (entry.1 ≠ key) && bool_decide (id entry.2 = Some v))
    store.

(** The loop of [migrateIds] over [problems], the documents [find({})]
    returned.  An update that the index refuses throws; the [catch]
    around the loop logs the error, and the loop is over. *)
Fixpoint migrate_loop (unique_index : bool) (problems : Store) (store : Store)
  : Store * option Exception :=
  match problems with
  | [] => (store, None)
  | (key, problem) :: rest =>
      if needs_id problem then
        let count := count_before (domain problem) key store in
        let newId := generated_id (domain problem) count in
        if unique_index && id_held_by_other key newId store then
          (store, Some {| exn_message := Some "E11000 duplicate key error" |})
        else migrate_loop unique_index rest (update_id key newId store)
      else migrate_loop unique_index rest store
  end.

(** [migrateIds]: the collection it leaves, and the error it logged. *)
Definition migrateIds (unique_index : bool) (store : Store) : Store * option Exception :=
  migrate_loop unique_index store store.

(** Each document of [rest] as the save hook leaves it when the documents
    before it are the collection. *)
Fixpoint saved_in_turn (before : list IProblemStatement) (rest : Store) : Store :=
  match rest with
  | [] => []
  | (key, problem) :: rest' =>
      (key, pre_save problem before) :: saved_in_turn (before ++ [problem]) rest'
  end.

(** A collection from before the hook: no document has an identifier. *)
Definition example_old_store : Store :=
  [ (41, example_document "Cloud Computing" None);
    (42, example_document "AI & Machine Learning" (Some EmptyString));
    (43, example_document "Cloud Computing" None);
    (44, example_document "Cloud Computing" (Some "legacy-7")) ].

(** Every field the application sets except [id] is the same in [p] and
    [q]. *)
Definition same_fields_but_id (p q : IProblemStatement) : Prop :=
  title p = title q
  ∧ abstract p = abstract q
  ∧ technologies p = technologies q
  ∧ domain p = domain q
  ∧ category p = category q
  ∧ difficulty p = difficulty q
  ∧ duration p = duration q
  ∧ deliverables p = deliverables q
  ∧ prerequisites p = prerequisites q
  ∧ learningOutcomes p = learningOutcomes q
  ∧ status p = status q
  ∧ featured p = featured q
  ∧ tags p = tags q
  ∧ createdBy p = createdBy q
  ∧ viewCount p = viewCount q.

(** ** Listing with pages ([getProblems])

    The query values are taken as the handler sees them after [Number]:
    [page] and [limit] are whole numbers, [None] when the parameter is
    absent.  The documents have distinct creation times that grow along
    the collection, so that [sort({ createdAt: -1 })] is the collection
    read backwards.  [populate] only changes how [createdBy] is rendered
    and is left out. *)

Record Query := {
  q_domain : option string;
  q_difficulty : option string;
  q_status : option string
}.

(** The filter object built from the query: a condition for each value
    that is truthy. *)
Definition matches (q : Query) (p : IProblemStatement) : bool :=
  (negb (JS.truthy (q_domain q)) || bool_decide (Some (domain p) = q_domain q))
  && (negb (JS.truthy (q_difficulty q)) || bool_decide (Some (difficulty p) = q_difficulty q))
  && (negb (JS.truthy (q_status q)) || bool_decide (Some (status p) = q_status q)).

(** The body of the reply; [pages] is [None] when [Math.ceil] does not
    yield a number that JSON can carry. *)
Record Listing := {
  listing_count : nat;
  listing_total : nat;
  listing_page : nat;
  listing_pages : option nat;
  listing_data : list IProblemStatement
}.

(** [Math.ceil(total / limit)] for a positive [limit]. *)
Definition ceil_div (total limit : nat) : nat :=
  total / limit + (if total mod limit =? 0 then 0 else 1).

(** [getProblems].  A negative [skip] is refused by the database, with
    an error text of its own; a [limit] of 0 means no limit. *)
Definition getProblems (q : Query) (page limit : option nat)
    (collection : list IProblemStatement) : Exception + Listing :=
  let page := default 1 page in
  let limit := default 10 limit in
  let found := reverse (filter (fun p => matches q p = true) collection) in
  if (page =? 0) && negb (limit =? 0) then
    inl {| exn_message := Some "BSON field 'skip' value must be >= 0" |}
  else
    let skip := (page - 1) * limit in
    let problems :=
      if limit =? 0 then drop skip found else take limit (drop skip found) in
    inr {| listing_count := length problems;
           listing_total := length found;
           listing_page := page;
           listing_pages := if limit =? 0 then None else Some (ceil_div (length found) limit);
           listing_data := problems |}.

(** The documents on page [page], none when the request fails. *)
Definition page_data (q : Query) (page limit : nat) (collection : list IProblemStatement)
  : list IProblemStatement :=
  match getProblems q (Some page) (Some limit) collection with
  | inl _ => []
  | inr listing => listing_data listing
  end.

Definition example_query : Query :=
  {| q_domain := Some "Cloud Computing"; q_difficulty := None; q_status := Some EmptyString |}.

(** ** Statistics ([getProblemStats], [getPublicProblemStats]) *)

(** [{ $sum: { $cond: [c, 1, 0] } }] over the documents of a group. *)
Definition sum_cond (c : IProblemStatement → bool) (docs : list IProblemStatement) : nat :=
  sum_list_with (fun p => if c p then 1 else 0) docs.

Record Overview := {
  stat_total : nat;
  stat_active : nat;
  stat_draft : nat;
  stat_archived : nat;
  stat_featured : nat;
  stat_totalViews : nat
}.

Record PublicOverview := {
  pub_total : nat;
  pub_featured : nat;
  pub_totalViews : nat
}.

(** A [$group] stage with [_id: null]: one group when documents come in,
    none otherwise. *)
Definition group_all {A : Type} (summary : list IProblemStatement → A)
    (docs : list IProblemStatement) : list A :=
  match docs with
  | [] => []
  | _ :: _ => [summary docs]
  end.

(** [{ $match: { status: 'Active' } }]. *)
Definition match_active (docs : list IProblemStatement) : list IProblemStatement :=
  filter (fun p => status p = "Active") docs.

(** One more document for the group [k]. *)
Fixpoint bump (k : string) (groups : list (string * nat)) : list (string * nat) :=
  match groups with
  | [] => [(k, 1)]
  | (k', n) :: rest =>
      if decide (k' = k) then (k', S n) :: rest else (k', n) :: bump k rest
  end.

(** [{ $group: { _id: key, count: { $sum: 1 } } }].  The database does not
    fix the order of the groups; the model lists them by first document. *)
Definition group_count (key : IProblemStatement → string) (docs : list IProblemStatement)
  : list (string * nat) :=
  foldl (fun groups p => bump (key p) groups) [] docs.

(** [{ $sort: { count: -1 } }].  The order among groups of equal count is
    not fixed by the database; the model has the one of a merge sort. *)
Definition count_descending (a b : string * nat) : Prop := b.2 ≤ a.2.

#[global] Instance count_descending_dec (a b : string * nat) :
  Decision (count_descending a b) := decide (b.2 ≤ a.2).

Definition sort_by_count (groups : list (string * nat)) : list (string * nat) :=
  merge_sort count_descending groups.

(** The pipeline of [domainStats] and [difficultyStats]. *)
Definition distribution (key : IProblemStatement → string) (docs : list IProblemStatement)
  : list (string * nat) :=
  sort_by_count (group_count key (match_active docs)).

Record Stats (A : Type) := {
  overview : A;
  domainDistribution : list (string * nat);
  difficultyDistribution : list (string * nat)
}.
Arguments overview {A} _.
Arguments domainDistribution {A} _.
Arguments difficultyDistribution {A} _.

(** [getProblemStats]: the [data] of the reply. *)
Definition getProblemStats (docs : list IProblemStatement) : Stats Overview :=
  let stats :=
    group_all (fun group =>
      {| stat_total := length group;
         stat_active := sum_cond (fun p => bool_decide (status p = "Active")) group;
         stat_draft := sum_cond (fun p => bool_decide (status p = "Draft")) group;
         stat_archived := sum_cond (fun p => bool_decide (status p = "Archived")) group;
         stat_featured := sum_cond featured group;
         stat_totalViews := sum_list_with viewCount group |}) docs in
  {| overview :=
       default {| stat_total := 0; stat_active := 0; stat_draft := 0; stat_archived := 0;
                  stat_featured := 0; stat_totalViews := 0 |} (head stats);
     domainDistribution := distribution domain docs;
     difficultyDistribution := distribution difficulty docs |}.

(** [getPublicProblemStats]: the [data] of the reply. *)
Definition getPublicProblemStats (docs : list IProblemStatement) : Stats PublicOverview :=
  let stats :=
    group_all (fun group =>
      {| pub_total := length group;
         pub_featured := sum_cond featured group;
         pub_totalViews := sum_list_with viewCount group |}) (match_active docs) in
  {| overview :=
       default {| pub_total := 0; pub_featured := 0; pub_totalViews := 0 |} (head stats);
     domainDistribution := distribution domain docs;
     difficultyDistribution := distribution difficulty docs |}.

(** The documents a group of the key [k] counts, through the groups. *)
Definition tally (groups : list (string * nat)) (k : string) : nat :=
  sum_list_with (fun g => if decide (g.1 = k) then g.2 else 0) groups.

(** Four problems, three of them active. *)
Definition example_catalogue : list IProblemStatement :=
  [ set_status (example_document "Cloud Computing" (Some "CLD001")) "Active";
    set_status (example_document "AI & Machine Learning" (Some "AIM001")) "Active";
    set_status (example_document "Cloud Computing" (Some "CLD002")) "Active";
    example_document "Cloud Computing" (Some "CLD003") ].

(** * Properties *)

(** ** Strings *)

Lemma string_length_app (a b : string) :
  String.length (a +:+ b) = String.length a + String.length b.
Proof. induction a as [|c a IH]; simpl; [done | by rewrite IH]. Qed.

Lemma list_ascii_app (a b : string) :
  String.list_ascii_of_string (a +:+ b)
  = String.list_ascii_of_string a ++ String.list_ascii_of_string b.
Proof. induction a as [|c a IH]; simpl; [done | by rewrite IH]. Qed.

Lemma length_list_ascii (s : string) :
  length (String.list_ascii_of_string s) = String.length s.
Proof. induction s as [|c s IH]; simpl; [done | by rewrite IH]. Qed.

(** ** Decimal numerals *)

Lemma pretty_N_char_digit (x : N) : is_digit (pretty_N_char x) = true.
Proof. destruct x as [|p]; [done|]. by do 4 (try destruct p as [p|p|]). Qed.

Lemma pretty_N_go_digits (x : N) (s : string) :
  all_digits s = true → all_digits (pretty_N_go x s) = true.
Proof.
  revert s. induction (N.lt_wf_0 x) as [x _ IH]; intros s Hs.
  destruct (decide (x = 0%N)) as [->|Hx]; [by rewrite pretty_N_go_0|].
  rewrite pretty_N_go_step by lia. apply IH.
  - apply N.div_lt; lia.
  - unfold all_digits in *. simpl. by rewrite pretty_N_char_digit, Hs.
Qed.

Lemma pretty_N_go_length (x : N) (s : string) :
  String.length s ≤ String.length (pretty_N_go x s).
Proof.
  revert s. induction (N.lt_wf_0 x) as [x _ IH]; intros s.
  destruct (decide (x = 0%N)) as [->|Hx]; [by rewrite pretty_N_go_0|].
  rewrite pretty_N_go_step by lia.
  etrans; [|apply IH; apply N.div_lt; lia]. simpl. lia.
Qed.

Lemma String_digits (n : nat) : all_digits (JS.String_ n) = true.
Proof.
  unfold JS.String_, pretty, pretty_nat, pretty, pretty_N.
  case_decide; [done|]. by apply pretty_N_go_digits.
Qed.

(** A numeral of four digits or more for every number from 1000 on. *)
Lemma String_long (n : nat) : 1000 ≤ n → 4 ≤ String.length (JS.String_ n).
Proof.
  intros Hn. unfold JS.String_, pretty, pretty_nat, pretty, pretty_N.
  case_decide; [lia|].
  set (x := N.of_nat n). assert (1000 ≤ x)%N as Hx by lia.
  assert (100 ≤ x `div` 10)%N by (apply N.div_le_lower_bound; lia).
  assert (10 ≤ (x `div` 10) `div` 10)%N by (apply N.div_le_lower_bound; lia).
  assert (1 ≤ ((x `div` 10) `div` 10) `div` 10)%N by (apply N.div_le_lower_bound; lia).
  do 4 (rewrite pretty_N_go_step by lia).
  etrans; [|apply pretty_N_go_length]. simpl. lia.
Qed.

(** Below 1000 the padded numeral has exactly three digits and denotes
    the number; checked on each of the thousand numbers. *)
Lemma pad3_small (n : nat) :
  n < 1000 →
  String.length (pad3 n) = 3 ∧ all_digits (pad3 n) = true ∧ numeral_value (pad3 n) = n.
Proof.
  intros Hn.
  assert (forallb (fun n => (String.length (pad3 n) =? 3) && all_digits (pad3 n)
                            && (numeral_value (pad3 n) =? n)) (seq 0 1000) = true) as Hall
    by (vm_compute; reflexivity).
  rewrite forallb_forall in Hall.
  specialize (Hall n). rewrite in_seq in Hall.
  apply andb_prop in Hall as [[H1 H2]%andb_prop H3]; [|lia].
  apply Nat.eqb_eq in H1. apply Nat.eqb_eq in H3. done.
Qed.

Lemma pad3_large (n : nat) : 1000 ≤ n → pad3 n = JS.String_ n.
Proof.
  intros Hn. pose proof (String_long n Hn) as Hlen.
  unfold pad3, JS.padStart.
  destruct (3 <=? String.length (JS.String_ n)) eqn:E; [done|].
  apply Nat.leb_gt in E. lia.
Qed.

Lemma pad3_digits (n : nat) : all_digits (pad3 n) = true.
Proof.
  destruct (decide (n < 1000)) as [Hn|Hn].
  - by apply pad3_small.
  - rewrite pad3_large by lia. apply String_digits.
Qed.

Lemma pad3_length (n : nat) : String.length (pad3 n) = 3 ↔ n < 1000.
Proof.
  split.
  - intros Hlen. destruct (decide (n < 1000)) as [|Hn]; [done|].
    rewrite pad3_large in Hlen by lia.
    pose proof (String_long n). lia.
  - intros Hn. by apply pad3_small.
Qed.

Lemma pad3_inj : Inj (=) (=) pad3.
Proof.
  intros m n Heq.
  destruct (decide (m < 1000)) as [Hm|Hm], (decide (n < 1000)) as [Hn|Hn].
  - destruct (pad3_small m Hm) as (_ & _ & <-).
    destruct (pad3_small n Hn) as (_ & _ & <-). by rewrite Heq.
  - apply pad3_length in Hm. rewrite Heq, pad3_length in Hm. lia.
  - apply pad3_length in Hn. rewrite <-Heq, pad3_length in Hn. lia.
  - rewrite !pad3_large in Heq by lia.
    unfold JS.String_ in Heq. by apply (inj pretty) in Heq.
Qed.

(** ** The prefix table *)

Lemma domainPrefix_cases (d : string) : domainPrefix d ∈ prefixes.
Proof.
  unfold domainPrefix. destruct (domainPrefixMap !! d) as [p|] eqn:E.
  - apply elem_of_list_to_map_2 in E.
    repeat (apply elem_of_cons in E as [E|E];
            [injection E as -> ->; simpl; unfold prefixes; set_solver|]).
    by apply elem_of_nil in E.
  - simpl. unfold prefixes. set_solver.
Qed.

Lemma generated_id_eq (d : string) (count : nat) :
  generated_id d count = domainPrefix d +:+ pad3 (count + 1).
Proof. done. Qed.

(** With a prefix of the table in front, the format test only depends on
    the number of digits that follow. *)
Lemma id_format_prefixed (p s : string) :
  p ∈ prefixes → all_digits s = true →
  id_format_test (p +:+ s) = (String.length s =? 3).
Proof.
  intros Hp Hs. unfold id_format_test, letters_then_digits.
  unfold all_digits in Hs. rewrite list_ascii_app, <-length_list_ascii.
  unfold prefixes in Hp.
  repeat (apply elem_of_cons in Hp as [->|Hp];
          [simpl; rewrite drop_0, Hs, andb_false_r, orb_false_r, andb_true_r; done|]).
  by apply elem_of_nil in Hp.
Qed.

Lemma generated_id_truthy (d : string) (count : nat) :
  JS.truthy (Some (generated_id d count)) = true.
Proof.
  rewrite generated_id_eq. pose proof (domainPrefix_cases d) as Hp.
  unfold prefixes in Hp.
  repeat (apply elem_of_cons in Hp as [->|Hp]; [done|]).
  by apply elem_of_nil in Hp.
Qed.

Lemma generated_id_format (d : string) (count : nat) :
  id_format_test (generated_id d count) = true ↔ count ≤ 998.
Proof.
  rewrite generated_id_eq, id_format_prefixed
    by (apply domainPrefix_cases || apply pad3_digits).
  rewrite Nat.eqb_eq, pad3_length. lia.
Qed.

Lemma generated_id_inj (d : string) : Inj (=) (=) (generated_id d).
Proof.
  intros m n Heq. rewrite !generated_id_eq in Heq.
  apply (inj (String.app _)), pad3_inj in Heq. lia.
Qed.

(** ** The identifier allocator *)

Lemma pad3_unfold (n : nat) : JS.padStart 3 "0" (JS.String_ n) = pad3 n.
Proof. done. Qed.

(** The values of the table are non-empty, so [||] only replaces a missing
    entry. *)
Lemma domainPrefix_default (d : string) :
  domainPrefix d = default "GEN" (domainPrefixMap !! d).
Proof.
  unfold domainPrefix. destruct (domainPrefixMap !! d) as [p|] eqn:E; [|done].
  apply elem_of_list_to_map_2 in E.
  repeat (apply elem_of_cons in E as [E|E]; [by injection E as -> ->|]).
  by apply elem_of_nil in E.
Qed.

Lemma countDocuments_app (d : string) (c1 c2 : list IProblemStatement) :
  countDocuments d (c1 ++ c2) = countDocuments d c1 + countDocuments d c2.
Proof. unfold countDocuments. by rewrite filter_app, length_app. Qed.

Lemma countDocuments_one (d : string) (p : IProblemStatement) :
  domain p = d → countDocuments d [p] = 1.
Proof.
  intros Hd. unfold countDocuments. rewrite filter_cons, filter_nil.
  by case_decide.
Qed.

Lemma pre_save_allocates (this : IProblemStatement) (collection : list IProblemStatement) :
  needs_id this = true →
  pre_save this collection
  = set_id this (generated_id (domain this) (countDocuments (domain this) collection)).
Proof. intros H. unfold pre_save. by rewrite H. Qed.

Lemma pre_save_keeps (this : IProblemStatement) (collection : list IProblemStatement) :
  needs_id this = false → pre_save this collection = this.
Proof. intros H. unfold pre_save. by rewrite H. Qed.

Lemma pre_save_domain (this : IProblemStatement) (collection : list IProblemStatement) :
  domain (pre_save this collection) = domain this.
Proof. unfold pre_save. by destruct (needs_id this). Qed.

Lemma id_taken_app (v : option string) (c1 c2 : list IProblemStatement) :
  id_taken v (c1 ++ c2) = id_taken v c1 || id_taken v c2.
Proof. unfold id_taken. apply existsb_app. Qed.

Lemma save_inr (this : IProblemStatement) (collection collection' : list IProblemStatement) :
  save this collection = inr collection' →
  collection' = collection ++ [pre_save this collection].
Proof.
  unfold save. destruct (negb _); [done|].
  destruct (id_taken _ _); [done|]. by intros [= <-].
Qed.

Lemma save_validated (this : IProblemStatement) (collection collection' : list IProblemStatement) :
  save this collection = inr collection' → schema_valid this = true.
Proof. unfold save. by destruct (schema_valid this). Qed.

Lemma includes_elem (valid : list string) (x : string) :
  JS.includes valid x = true → x ∈ valid.
Proof.
  unfold JS.includes. rewrite existsb_exists. intros (y & Hy & Heq).
  apply String.eqb_eq in Heq as ->. by apply list_elem_of_In.
Qed.

Lemma schema_valid_parts (this : IProblemStatement) :
  schema_valid this = true →
  id_validator (id this) = true
  ∧ domain this ∈ validDomains
  ∧ is_Some (createdBy this).
Proof.
  unfold schema_valid. rewrite !andb_true_iff.
  intros [[[[[[[[[[[[[Hid _] _] _] _] _] Hdomain] _] _] _] _] _] _] Hby].
  split; [done|]. split; [by apply includes_elem|by apply bool_decide_eq_true in Hby].
Qed.

(** What validation leaves of the condition of the hook: the identifier
    is absent or empty. *)
Lemma needs_id_validated (this : IProblemStatement) :
  schema_valid this = true → needs_id this = true ↔ JS.truthy (id this) = false.
Proof.
  intros (Hid & _ & _)%schema_valid_parts.
  unfold id_validator in Hid. unfold needs_id.
  destruct (JS.truthy (id this)); cbn [negb orb] in *; [|done].
  by rewrite Hid.
Qed.

Lemma schema_valid_domain (this : IProblemStatement) :
  schema_valid this = true → domain this ∈ validDomains.
Proof. by intros (_ & Hdomain & _)%schema_valid_parts. Qed.

Lemma domainPrefixMap_valid (d : string) :
  d ∈ validDomains → is_Some (domainPrefixMap !! d).
Proof.
  unfold validDomains. intros Hd.
  repeat (apply elem_of_cons in Hd as [->|Hd]; [by eexists|]).
  by apply elem_of_nil in Hd.
Qed.

Lemma run_of_ids_cons (d : string) (n : nat) (this : IProblemStatement)
    (docs : list IProblemStatement) :
  run_of_ids d n (this :: docs)
  = Some (generated_id d n) :: run_of_ids d (n + 1) docs.
Proof.
  unfold run_of_ids. rewrite generated_id_eq. cbn [length seq fmap list_fmap].
  f_equal. change (list_fmap nat (option string)) with (@fmap list _ nat (option string)).
  rewrite <-fmap_S_seq, <-list_fmap_compose. apply list_fmap_ext.
  intros _ k _. simpl. do 3 f_equal. lia.
Qed.

Lemma save_all_ids (d : string) (docs collection collection' : list IProblemStatement) :
  Forall (fun this => domain this = d ∧ needs_id this = true) docs →
  save_all docs collection = inr collection' →
  ∃ stored, collection' = collection ++ stored
            ∧ id <$> stored = run_of_ids d (countDocuments d collection) docs.
Proof.
  intros Hdocs. revert collection.
  induction Hdocs as [|this docs [Hd Hneeds] _ IH]; intros collection Hsave.
  - injection Hsave as <-. exists []. by rewrite app_nil_r.
  - simpl in Hsave. destruct (save this collection) as [e|c1] eqn:Hs; [done|].
    apply save_inr in Hs as ->.
    destruct (IH _ Hsave) as (stored & -> & Hids).
    exists (pre_save this collection :: stored). split; [by rewrite <-app_assoc|].
    rewrite run_of_ids_cons, fmap_cons. f_equal.
    + rewrite pre_save_allocates by done. by rewrite Hd.
    + rewrite Hids, countDocuments_app, countDocuments_one; [done|].
      by rewrite pre_save_domain.
Qed.

Lemma save_all_succeeds (d : string) (docs collection : list IProblemStatement) :
  Forall (fun this => schema_valid this = true ∧ domain this = d ∧ needs_id this = true)
    docs →
  (∀ v, v ∈ run_of_ids d (countDocuments d collection) docs → id_taken v collection = false) →
  ∃ collection', save_all docs collection = inr collection'.
Proof.
  intros Hdocs. revert collection.
  induction Hdocs as [|this docs (Hvalid & Hd & Hneeds) _ IH]; intros collection Hfree.
  - by exists collection.
  - simpl. unfold save. rewrite Hvalid. cbn [negb].
    rewrite pre_save_allocates, Hd by done. simpl.
    rewrite run_of_ids_cons in Hfree.
    rewrite Hfree by apply list_elem_of_here.
    apply IH. intros v Hv.
    rewrite countDocuments_app, countDocuments_one in Hv by done.
    rewrite id_taken_app, Hfree by by apply list_elem_of_further. simpl.
    rewrite orb_false_r. apply bool_decide_eq_false. simpl. intros <-.
    unfold run_of_ids in Hv. apply list_elem_of_fmap in Hv as (k & [= Hk] & Hin).
    apply elem_of_seq in Hin. rewrite generated_id_eq in Hk.
    apply (inj (String.app _)), pad3_inj in Hk. lia.
Qed.

Lemma run_of_ids_NoDup (d : string) (n : nat) (docs : list IProblemStatement) :
  NoDup (run_of_ids d n docs).
Proof.
  unfold run_of_ids. apply NoDup_fmap_2; [|apply NoDup_seq].
  intros j k [= H]. apply (inj (String.app _)), pad3_inj in H. lia.
Qed.

Lemma id_format_nonempty (v : string) :
  id_format_test v = true → JS.truthy (Some v) = true.
Proof. by destruct v. Qed.

Lemma valid_id_kept (this : IProblemStatement) (v : string) :
  id this = Some v → id_format_test v = true → needs_id this = false.
Proof.
  intros Hid Hv. unfold needs_id.
  rewrite Hid, (id_format_nonempty v Hv). simpl. by rewrite Hv.
Qed.

(** The hook allocates exactly when the identifier is absent or does not
    match the format (the empty identifier does not match). *)
Lemma needs_id_spec (this : IProblemStatement) :
  needs_id this = true
  ↔ id this = None ∨ ∃ v, id this = Some v ∧ id_format_test v = false.
Proof.
  unfold needs_id. destruct (id this) as [v|]; simpl.
  - destruct v as [|c v]; simpl.
    + split; [intros _; right; by exists EmptyString|done].
    + rewrite negb_true_iff. split.
      * intros H. right. by exists (String c v).
      * by intros [|(v' & [= <-] & H)].
  - split; [by left|done].
Qed.

(** C1, as amended.  A record that passes the validation of the schema has
    a domain [d] of the table of eight entries, and the hook gives it an
    identifier exactly when its own is absent or empty.  Such a record gets
    the prefix of [d] followed by the 3-wide zero-padded value of n + 1,
    where n counts the stored records of domain [d]: that is the
    identifier the hook gives it, and a save that goes through stores the
    record with it.  Hence, from a collection without records of domain
    [d], saving N such records one after the other hands out the prefix
    followed by 001, 002, ... up to N, without gaps or repeats; and the
    saves all go through when none of these identifiers is already
    stored. *)
Theorem allocator_assigns_sequence (d : string) (docs collection : list IProblemStatement) :
  size domainPrefixMap = 8
  ∧ (∀ this : IProblemStatement,
       schema_valid this = true → domain this = d →
       is_Some (domainPrefixMap !! d)
       ∧ (needs_id this = true ↔ JS.truthy (id this) = false))
  ∧ ∀ prefix : string,
      domainPrefixMap !! d = Some prefix →
      (∀ (this : IProblemStatement) (stored : list IProblemStatement),
         schema_valid this = true → domain this = d → JS.truthy (id this) = false →
         id (pre_save this stored)
         = Some (prefix +:+ JS.padStart 3 "0" (JS.String_ (countDocuments d stored + 1)))
         ∧ ∀ stored', save this stored = inr stored' →
             stored'
             = stored
               ++ [set_id this
                     (prefix
                      +:+ JS.padStart 3 "0" (JS.String_ (countDocuments d stored + 1)))])
      ∧ (Forall (fun this => schema_valid this = true ∧ domain this = d
                             ∧ JS.truthy (id this) = false) docs →
         countDocuments d collection = 0 →
         (∀ collection', save_all docs collection = inr collection' →
            ∃ new, collection' = collection ++ new
                   ∧ id <$> new
                     = (fun k => Some (prefix +:+ JS.padStart 3 "0" (JS.String_ k)))
                         <$> seq 1 (length docs)
                   ∧ NoDup (id <$> new))
         ∧ ((∀ k, 1 ≤ k ≤ length docs →
               id_taken (Some (prefix +:+ JS.padStart 3 "0" (JS.String_ k))) collection
               = false) →
            ∃ collection', save_all docs collection = inr collection')).
Proof.
  split; [by vm_compute|]. split.
  { intros this Hvalid Hd. split; [|by apply needs_id_validated].
    apply domainPrefixMap_valid. rewrite <-Hd. by apply schema_valid_domain. }
  intros prefix Hprefix.
  assert (∀ k, prefix +:+ JS.padStart 3 "0" (JS.String_ k) = domainPrefix d +:+ pad3 k)
    as Hpadded.
  { assert (domainPrefix d = prefix) as <-.
    { pose proof Hprefix as Hpair. unfold domainPrefixMap in Hpair.
      apply elem_of_list_to_map_2 in Hpair.
      repeat (apply elem_of_cons in Hpair as [[= -> ->]|Hpair]; [reflexivity|]).
      by apply elem_of_nil in Hpair. }
    done. }
  assert (run_of_ids d 0 docs
          = (fun k => Some (prefix +:+ JS.padStart 3 "0" (JS.String_ k)))
              <$> seq 1 (length docs)) as Hrun
    by (unfold run_of_ids; apply list_fmap_ext; intros _ k _; by rewrite Hpadded).
  split.
  - intros this stored Hvalid Hd Hfalsy.
    assert (needs_id this = true) as Hneeds by (by apply needs_id_validated).
    assert (pre_save this stored
            = set_id this
                (prefix +:+ JS.padStart 3 "0" (JS.String_ (countDocuments d stored + 1))))
      as Hhook.
    { rewrite pre_save_allocates, Hd, Hpadded by done. by rewrite generated_id_eq. }
    split; [by rewrite Hhook|].
    intros stored' Hsave. apply save_inr in Hsave. by rewrite Hhook in Hsave.
  - intros Hdocs Hzero.
    assert (Forall (fun this => domain this = d ∧ needs_id this = true) docs) as Hhook.
    { eapply Forall_impl; [exact Hdocs|]. intros this (Hvalid & Hd & Hfalsy).
      split; [done|]. by apply needs_id_validated. }
    split.
    + intros collection' Hsave.
      destruct (save_all_ids d docs collection collection' Hhook Hsave) as (new & -> & Hids).
      rewrite Hzero in Hids. exists new. split_and!; [done|by rewrite Hids|].
      rewrite Hids. apply run_of_ids_NoDup.
    + intros Hfree. apply (save_all_succeeds d).
      * eapply Forall_impl; [exact Hdocs|]. intros this (Hvalid & Hd & Hfalsy).
        split; [done|]. split; [done|]. by apply needs_id_validated.
      * rewrite Hzero, Hrun. intros v (k & -> & Hk%elem_of_seq)%list_elem_of_fmap.
        apply Hfree. lia.
Qed.

Lemma allocator_assigns_sequence_witness :
  domainPrefixMap !! "Cloud Computing" = Some "CLD"
  ∧ Forall (fun this => schema_valid this = true ∧ domain this = "Cloud Computing"
                        ∧ JS.truthy (id this) = false) example_batch
  ∧ countDocuments "Cloud Computing" example_collection = 0
  ∧ ∃ new, save_all example_batch example_collection = inr (example_collection ++ new)
           ∧ id <$> new = [Some "CLD001"; Some "CLD002"; Some "CLD003"].
Proof.
  assert (domainPrefixMap !! "Cloud Computing" = Some "CLD") as Hprefix by reflexivity.
  assert (Forall (fun this => schema_valid this = true ∧ domain this = "Cloud Computing"
                              ∧ JS.truthy (id this) = false) example_batch) as Hdocs
    by (repeat constructor).
  assert (countDocuments "Cloud Computing" example_collection = 0) as Hzero by reflexivity.
  split; [exact Hprefix|]. split; [exact Hdocs|]. split; [exact Hzero|].
  destruct (allocator_assigns_sequence "Cloud Computing" example_batch example_collection)
    as (_ & _ & Hseq).
  destruct (Hseq "CLD" Hprefix) as [_ Hrun].
  destruct (Hrun Hdocs Hzero) as [Hids Hok].
  destruct Hok as [collection' Hsave].
  { intros k Hk. simpl in Hk.
    assert (k = 1 ∨ k = 2 ∨ k = 3) as [->|[->| ->]] by lia; reflexivity. }
  destruct (Hids collection' Hsave) as (new & -> & Hnew & _).
  exists new. split; [exact Hsave | exact Hnew].
Defined.

(** C1 as stated fails on a record whose identifier is not empty and does
    not match the format, and on a record whose domain is outside the
    table: validation refuses both before the hook runs, so the first is
    not given CLD001 and the second is not given GEN001; nothing is
    stored. *)
Lemma allocator_refusal_counterexample :
  id_format_test "LEGACY-7" = false
  ∧ needs_id (example_document "Cloud Computing" (Some "LEGACY-7")) = true
  ∧ save (example_document "Cloud Computing" (Some "LEGACY-7")) [] = inl validation_failed
  ∧ domainPrefixMap !! "Robotics" = None
  ∧ needs_id (example_document "Robotics" None) = true
  ∧ save (example_document "Robotics" None) [] = inl validation_failed
  ∧ ¬ (∃ stored, save (example_document "Cloud Computing" (Some "LEGACY-7")) []
                 = inr stored)
  ∧ ¬ (∃ stored, save (example_document "Robotics" None) [] = inr stored).
Proof.
  assert (save (example_document "Cloud Computing" (Some "LEGACY-7")) []
          = inl validation_failed) as Hfirst by (vm_compute; reflexivity).
  assert (save (example_document "Robotics" None) [] = inl validation_failed) as Hsecond
    by (vm_compute; reflexivity).
  split; [vm_compute; reflexivity|]. split; [vm_compute; reflexivity|].
  split; [exact Hfirst|]. split; [vm_compute; reflexivity|].
  split; [vm_compute; reflexivity|]. split; [exact Hsecond|]. split.
  - intros [stored Hs]. rewrite Hfirst in Hs. discriminate Hs.
  - intros [stored Hs]. rewrite Hsecond in Hs. discriminate Hs.
Qed.

(** C2. A record whose identifier is present and matches the format is
    saved without allocation, whatever its domain and the number of stored
    records: the hook returns it as it is, and a save that goes through
    stores the record itself.  In every case the hook changes no field other than the
    identifier. *)
Theorem valid_id_preserved (this : IProblemStatement) (collection : list IProblemStatement) :
  (∀ v, id this = Some v → id_format_test v = true →
     pre_save this collection = this
     ∧ ∀ collection', save this collection = inr collection' →
                      collection' = collection ++ [this])
  ∧ title (pre_save this collection) = title this
  ∧ abstract (pre_save this collection) = abstract this
  ∧ technologies (pre_save this collection) = technologies this
  ∧ domain (pre_save this collection) = domain this
  ∧ category (pre_save this collection) = category this
  ∧ difficulty (pre_save this collection) = difficulty this
  ∧ duration (pre_save this collection) = duration this
  ∧ deliverables (pre_save this collection) = deliverables this
  ∧ prerequisites (pre_save this collection) = prerequisites this
  ∧ learningOutcomes (pre_save this collection) = learningOutcomes this
  ∧ status (pre_save this collection) = status this
  ∧ featured (pre_save this collection) = featured this
  ∧ tags (pre_save this collection) = tags this
  ∧ createdBy (pre_save this collection) = createdBy this
  ∧ viewCount (pre_save this collection) = viewCount this.
Proof.
  split.
  - intros v Hid Hv.
    pose proof (pre_save_keeps this collection (valid_id_kept this v Hid Hv)) as Hkeep.
    split; [done|]. intros collection' Hsave.
    apply save_inr in Hsave. by rewrite Hkeep in Hsave.
  - unfold pre_save. by destruct (needs_id this).
Qed.

Lemma valid_id_preserved_witness :
  id (example_document "Cloud Computing" (Some "AI042")) = Some "AI042"
  ∧ id_format_test "AI042" = true
  ∧ pre_save (example_document "Cloud Computing" (Some "AI042")) example_collection
    = example_document "Cloud Computing" (Some "AI042")
  ∧ save (example_document "Cloud Computing" (Some "AI042")) example_collection
    = inr (example_collection ++ [example_document "Cloud Computing" (Some "AI042")]).
Proof.
  destruct (valid_id_preserved (example_document "Cloud Computing" (Some "AI042"))
              example_collection) as [Hkeep _].
  destruct (Hkeep "AI042" eq_refl eq_refl) as [Hsame Hstored].
  split; [reflexivity|]. split; [reflexivity|]. split; [exact Hsame|].
  reflexivity.
Defined.

(** C10. The identifier the hook generates matches the format, and so
    passes the validator of the schema path, exactly when at most 998
    records of the same domain are already stored; from 999 stored records
    on the padded suffix has four digits or more and the validator rejects
    the identifier. *)
Theorem generated_id_valid_iff (this : IProblemStatement) (collection : list IProblemStatement) :
  needs_id this = true →
  let count := countDocuments (domain this) collection in
  ∃ v, id (pre_save this collection) = Some v
       ∧ (id_format_test v = true ↔ count ≤ 998)
       ∧ (id_validator (Some v) = true ↔ count ≤ 998)
       ∧ (1000 ≤ count + 1 →
            4 ≤ String.length (JS.padStart 3 "0" (JS.String_ (count + 1)))
            ∧ id_validator (Some v) = false).
Proof.
  intros Hneeds count. exists (generated_id (domain this) count).
  assert (id_validator (Some (generated_id (domain this) count))
          = id_format_test (generated_id (domain this) count)) as Hval
    by (unfold id_validator; by rewrite generated_id_truthy).
  split_and!.
  - by rewrite pre_save_allocates.
  - apply generated_id_format.
  - rewrite Hval. apply generated_id_format.
  - intros Hcount. split.
    { rewrite pad3_unfold, pad3_large by done. by apply String_long. }
    rewrite Hval. apply not_true_is_false.
    rewrite generated_id_format. lia.
Qed.

Lemma generated_id_valid_iff_witness :
  needs_id (example_document "Cloud Computing" None) = true
  ∧ id (pre_save (example_document "Cloud Computing" None) example_full_domain)
    = Some "CLD1000"
  ∧ id_validator (id (pre_save (example_document "Cloud Computing" None) example_full_domain))
    = false.
Proof.
  destruct (generated_id_valid_iff (example_document "Cloud Computing" None)
              example_full_domain eq_refl) as (v & Hid & _ & _ & Hlong).
  assert (id (pre_save (example_document "Cloud Computing" None) example_full_domain)
          = Some "CLD1000") as Hgen by (vm_compute; reflexivity).
  split; [reflexivity|]. split; [exact Hgen|].
  rewrite Hid. apply Hlong. vm_compute. lia.
Defined.

(** ** Row validation *)

Lemma push_if_app (cond : bool) (msg : string) (acc : list string) :
  push_if cond msg acc = acc ++ (if cond then [msg] else []).
Proof. unfold push_if. destruct cond; [done|by rewrite app_nil_r]. Qed.

Lemma failing_checks_cons (b : bool) (msg : string) (checks : list (bool * string)) :
  snd <$> filter (fun c => c.1 = true) ((b, msg) :: checks)
  = (if b then [msg] else []) ++ (snd <$> filter (fun c => c.1 = true) checks).
Proof. rewrite filter_cons. simpl. by destruct b. Qed.

Lemma validate_checks (r : Row) :
  validate r
  = (snd <$> filter (fun c => c.1 = true)
       [ (blank (r !! "title"), "Title is required");
         (blank (r !! "abstract"), "Abstract is required");
         (blank (r !! "domain"), "Domain is required");
         (blank (r !! "category"), "Category is required");
         (blank (r !! "difficulty"), "Difficulty is required");
         (blank (r !! "duration"), "Duration is required");
         (not_among validDomains (r !! "domain"), must_be_one_of "domain" validDomains);
         (not_among validCategories (r !! "category"),
          must_be_one_of "category" validCategories);
         (not_among validDifficulties (r !! "difficulty"),
          must_be_one_of "difficulty" validDifficulties) ]).
Proof.
  unfold validate. rewrite !push_if_app, !failing_checks_cons.
  rewrite filter_nil, fmap_nil, app_nil_r. simpl. by rewrite <-!app_assoc.
Qed.

Lemma push_if_keeps (cond : bool) (msg x : string) (acc : list string) :
  x ∈ acc → x ∈ push_if cond msg acc.
Proof. unfold push_if. destruct cond; set_solver. Qed.

Lemma push_if_adds (msg : string) (acc : list string) : msg ∈ push_if true msg acc.
Proof. unfold push_if. set_solver. Qed.

Lemma push_if_length (cond : bool) (msg : string) (acc : list string) :
  length (push_if cond msg acc) = length acc + (if cond then 1 else 0).
Proof. unfold push_if. destruct cond; rewrite ?length_app; simpl; lia. Qed.

Lemma validate_length (r : Row) :
  length (validate r)
  = (if blank (r !! "title") then 1 else 0) + (if blank (r !! "abstract") then 1 else 0)
    + (if blank (r !! "domain") then 1 else 0) + (if blank (r !! "category") then 1 else 0)
    + (if blank (r !! "difficulty") then 1 else 0) + (if blank (r !! "duration") then 1 else 0)
    + (if not_among validDomains (r !! "domain") then 1 else 0)
    + (if not_among validCategories (r !! "category") then 1 else 0)
    + (if not_among validDifficulties (r !! "difficulty") then 1 else 0).
Proof. unfold validate. rewrite !push_if_length. simpl. lia. Qed.

Lemma required_message (r : Row) (f label : string) :
  (f, label) ∈ required_fields → blank (r !! f) = true →
  label +:+ " is required" ∈ validate r.
Proof.
  intros Hf Hblank. unfold required_fields in Hf. unfold validate.
  repeat (apply elem_of_cons in Hf as [[= -> ->]|Hf];
          [rewrite Hblank;
           repeat first [exact (push_if_adds _ _) | apply push_if_keeps]|]).
  by apply elem_of_nil in Hf.
Qed.

Lemma category_message (r : Row) :
  not_among validCategories (r !! "category") = true →
  must_be_one_of "category" validCategories ∈ validate r.
Proof.
  intros H. unfold validate. rewrite H.
  repeat first [exact (push_if_adds _ _) | apply push_if_keeps].
Qed.

Lemma includes_spec (valid : list string) (x : string) :
  JS.includes valid x = true ↔ x ∈ valid.
Proof.
  unfold JS.includes. rewrite existsb_exists, list_elem_of_In. split.
  - by intros (y & Hy & ->%String.eqb_eq).
  - intros Hx. exists x. by rewrite String.eqb_refl.
Qed.

Lemma not_among_Some (valid : list string) (c : string) :
  c ≠ EmptyString → JS.trim c ∉ valid → not_among valid (Some c) = true.
Proof.
  intros Hc Hnot. unfold not_among.
  assert (JS.truthy (Some c) = true) as -> by (by destruct c).
  apply negb_true_iff, not_true_is_false. by rewrite includes_spec.
Qed.

Lemma rejected_test (r : Row) : (0 <? length (validate r)) = bool_decide (validate r ≠ []).
Proof. by destruct (validate r). Qed.

(** ** The row loop *)

Section BulkUploadFacts.

Context {DB : Type}.
Variable create : ProblemData.t → DB → option Exception * DB.

Abbreviation process_row := (process_row create).
Abbreviation for_rows := (for_rows create).
Abbreviation upload_rows := (upload_rows create).
Abbreviation all_persisted := (all_persisted create).

Lemma process_row_rejected (user : option string) (i : nat) (r : Row) (st : Loop) :
  validate r ≠ [] →
  process_row user i r st
  = {| l_imported := l_imported st;
       l_failed := l_failed st + 1;
       l_errors := l_errors st ++
         ((fun error => {| row := i + 2; field := "validation"; message := error |})
            <$> validate r);
       l_db := l_db st |}.
Proof.
  intros H. unfold process_row. rewrite rejected_test.
  by rewrite bool_decide_eq_true_2.
Qed.

Lemma process_row_created (user : option string) (i : nat) (r : Row) (st : Loop) (db' : DB) :
  validate r = [] → create (problemData user r) (l_db st) = (None, db') →
  process_row user i r st
  = {| l_imported := l_imported st + 1; l_failed := l_failed st;
       l_errors := l_errors st; l_db := db' |}.
Proof. intros H Hc. unfold process_row. by rewrite H, Hc. Qed.

Lemma process_row_threw (user : option string) (i : nat) (r : Row) (st : Loop)
    (e : Exception) (db' : DB) :
  validate r = [] → create (problemData user r) (l_db st) = (Some e, db') →
  process_row user i r st
  = {| l_imported := l_imported st;
       l_failed := l_failed st + 1;
       l_errors := l_errors st ++
         [ {| row := i + 2; field := "database";
              message := JS.or_else (exn_message e) "Failed to create problem statement" |} ];
       l_db := db' |}.
Proof. intros H Hc. unfold process_row. by rewrite H, Hc. Qed.

(** Each iteration decides its row: one of the two counters goes up by
    one, and the entries it adds carry the number of that row. *)
Lemma process_row_step (user : option string) (i : nat) (r : Row) (st : Loop) :
  l_imported (process_row user i r st) + l_failed (process_row user i r st)
  = l_imported st + l_failed st + 1
  ∧ ∃ new, l_errors (process_row user i r st) = l_errors st ++ new
           ∧ Forall (fun e => row e = i + 2) new.
Proof.
  destruct (decide (validate r = [])) as [Hv|Hv].
  - destruct (create (problemData user r) (l_db st)) as [[e|] db'] eqn:Hc.
    + rewrite (process_row_threw _ _ _ _ _ _ Hv Hc). simpl. split; [lia|].
      eexists. split; [done|]. by repeat constructor.
    + rewrite (process_row_created _ _ _ _ _ Hv Hc). simpl. split; [lia|].
      exists []. by rewrite app_nil_r.
  - rewrite (process_row_rejected _ _ _ _ Hv). simpl. split; [lia|].
    eexists. split; [done|]. apply Forall_fmap, Forall_true. done.
Qed.

Lemma for_rows_app (user : option string) (i : nat) (before after : list Row) (st : Loop) :
  for_rows user i (before ++ after) st
  = for_rows user (i + length before) after (for_rows user i before st).
Proof.
  revert i st. induction before as [|r before IH]; intros i st; simpl.
  - by rewrite Nat.add_0_r.
  - rewrite IH. f_equal. lia.
Qed.

(** No row is skipped and none is counted twice, whatever the store does. *)
Lemma for_rows_total (user : option string) (i : nat) (problems : list Row) (st : Loop) :
  l_imported (for_rows user i problems st) + l_failed (for_rows user i problems st)
  = l_imported st + l_failed st + length problems.
Proof.
  revert i st. induction problems as [|r rest IH]; intros i st; simpl; [lia|].
  rewrite IH. destruct (process_row_step user i r st) as [-> _]. lia.
Qed.

Lemma for_rows_row_numbers (user : option string) (i : nat) (problems : list Row) (st : Loop) :
  ∃ new, l_errors (for_rows user i problems st) = l_errors st ++ new
         ∧ Forall (fun e => i + 2 ≤ row e < i + 2 + length problems) new.
Proof.
  revert i st. induction problems as [|r rest IH]; intros i st; simpl.
  - exists []. by rewrite app_nil_r.
  - destruct (IH (S i) (process_row user i r st)) as (new2 & -> & H2).
    destruct (process_row_step user i r st) as (_ & new1 & -> & H1).
    exists (new1 ++ new2). split; [by rewrite app_assoc|].
    apply Forall_app. split.
    + eapply Forall_impl; [exact H1|]. simpl. intros e ->. lia.
    + eapply Forall_impl; [exact H2|]. simpl. intros e ?. lia.
Qed.

(** When every write goes through, the rows that fail validation are the
    failed ones and their entries are all there is in [errors]. *)
Lemma for_rows_persisted (user : option string) (i : nat) (problems : list Row) (st : Loop) :
  all_persisted user problems (l_db st) = true →
  l_imported (for_rows user i problems st)
  = l_imported st + (length problems - length (rejected problems))
  ∧ l_failed (for_rows user i problems st) = l_failed st + length (rejected problems)
  ∧ l_errors (for_rows user i problems st) = l_errors st ++ validation_entries i problems.
Proof.
  revert i st. induction problems as [|r rest IH]; intros i st Hall; simpl.
  - rewrite app_nil_r. split_and!; [lia|lia|done].
  - simpl in Hall. rewrite rejected_test in Hall.
    pose proof (length_filter (fun r => validate r ≠ []) rest) as Hle.
    unfold rejected in *. rewrite filter_cons.
    destruct (decide (validate r ≠ [])) as [Hv|Hv].
    + rewrite bool_decide_eq_true_2 in Hall by done.
      rewrite (process_row_rejected _ _ _ _ Hv).
      match goal with |- context [for_rows user (S i) rest ?st'] =>
        destruct (IH (S i) st' Hall) as (-> & -> & ->) end. simpl.
      split_and!; [lia|lia|by rewrite app_assoc].
    + rewrite bool_decide_eq_false_2 in Hall by done.
      assert (validate r = []) as Hnil by (by apply dec_stable).
      destruct (create (problemData user r) (l_db st)) as [[e|] db'] eqn:Hc; [done|].
      rewrite (process_row_created _ _ _ _ _ Hnil Hc).
      match goal with |- context [for_rows user (S i) rest ?st'] =>
        destruct (IH (S i) st' Hall) as (-> & -> & ->) end. simpl.
      rewrite Hnil. simpl. split_and!; [lia|lia|done].
Qed.

Lemma validation_entries_length (i : nat) (problems : list Row) :
  length (rejected problems) ≤ length (validation_entries i problems).
Proof.
  revert i. induction problems as [|r rest IH]; intros i; simpl; [done|].
  unfold rejected in *. rewrite filter_cons, length_app, length_fmap.
  specialize (IH (S i)).
  destruct (decide (validate r ≠ [])) as [Hv|Hv]; simpl; [|lia].
  destruct (validate r); [done|simpl; lia].
Qed.

End BulkUploadFacts.

(** ** The claims on the row loop *)

Section BulkUploadClaims.

Context {DB : Type}.
Variable create : ProblemData.t → DB → option Exception * DB.

Abbreviation process_row := (process_row create).
Abbreviation for_rows := (for_rows create).
Abbreviation upload_rows := (upload_rows create).

(** C4. The validation failures of a row accumulate: the row yields one
    message per failing check, in the order of the checks, each becomes
    one error entry, the row is counted once as failed and nothing is
    stored for it.  A row whose title is missing or blank and whose
    category is non-empty and not allowed yields at least two entries,
    among them the one for the title and the one for the category. *)
Theorem validation_accumulates (user : option string) (i : nat) (r : Row) (st : Loop) :
  validate r
  = (snd <$> filter (fun c => c.1 = true)
       [ (blank (r !! "title"), "Title is required");
         (blank (r !! "abstract"), "Abstract is required");
         (blank (r !! "domain"), "Domain is required");
         (blank (r !! "category"), "Category is required");
         (blank (r !! "difficulty"), "Difficulty is required");
         (blank (r !! "duration"), "Duration is required");
         (not_among validDomains (r !! "domain"), must_be_one_of "domain" validDomains);
         (not_among validCategories (r !! "category"),
          must_be_one_of "category" validCategories);
         (not_among validDifficulties (r !! "difficulty"),
          must_be_one_of "difficulty" validDifficulties) ])
  ∧ (validate r ≠ [] →
       l_errors (process_row user i r st)
       = l_errors st ++
           ((fun error => {| row := i + 2; field := "validation"; message := error |})
              <$> validate r)
       ∧ l_failed (process_row user i r st) = l_failed st + 1
       ∧ l_imported (process_row user i r st) = l_imported st
       ∧ l_db (process_row user i r st) = l_db st)
  ∧ (∀ c, blank (r !! "title") = true → r !! "category" = Some c →
          c ≠ EmptyString → JS.trim c ∉ validCategories →
       2 ≤ length (validate r)
       ∧ "Title is required" ∈ validate r
       ∧ must_be_one_of "category" validCategories ∈ validate r
       ∧ l_failed (process_row user i r st) = l_failed st + 1
       ∧ l_imported (process_row user i r st) = l_imported st
       ∧ l_db (process_row user i r st) = l_db st).
Proof.
  split_and!.
  - apply validate_checks.
  - intros Hv. by rewrite (process_row_rejected create _ _ _ _ Hv).
  - intros c Hblank Hcat Hc Hnot.
    assert (not_among validCategories (r !! "category") = true) as Hamong
      by (rewrite Hcat; by apply not_among_Some).
    assert (2 ≤ length (validate r)) as Hlen.
    { rewrite validate_length, Hblank, Hamong.
      repeat match goal with |- context [if ?b then _ else _] => destruct b end; lia. }
    assert (validate r ≠ []) as Hv by (intros Hnil; rewrite Hnil in Hlen; simpl in Hlen; lia).
    rewrite (process_row_rejected create _ _ _ _ Hv). simpl.
    split_and!; [done| |by apply category_message|done..].
    apply (required_message r "title" "Title"); [|done].
    unfold required_fields. set_solver.
Qed.

(** C5, as amended.  When the store rejects the write of a row that passed
    validation, the loop records exactly one entry for the row, with
    field database; its message is the text of the failure when that
    text is non-empty and the fixed text otherwise.  The row is counted
    once as failed, and the loop goes on with the rows that follow:
    every row ends up counted exactly once. *)
Theorem persistence_failure_recorded (user : option string) (i : nat) (r : Row)
    (rest : list Row) (st : Loop) (e : Exception) (db' : DB) :
  validate r = [] →
  create (problemData user r) (l_db st) = (Some e, db') →
  let st' := process_row user i r st in
  l_errors st'
  = l_errors st ++
      [ {| row := i + 2; field := "database";
           message := JS.or_else (exn_message e) "Failed to create problem statement" |} ]
  ∧ (∀ text, exn_message e = Some text → text ≠ EmptyString →
       JS.or_else (exn_message e) "Failed to create problem statement" = text)
  ∧ (exn_message e = None ∨ exn_message e = Some EmptyString →
       JS.or_else (exn_message e) "Failed to create problem statement"
       = "Failed to create problem statement")
  ∧ l_failed st' = l_failed st + 1
  ∧ l_imported st' = l_imported st
  ∧ l_db st' = db'
  ∧ for_rows user i (r :: rest) st = for_rows user (S i) rest st'
  ∧ l_imported (for_rows user i (r :: rest) st) + l_failed (for_rows user i (r :: rest) st)
    = l_imported st + l_failed st + S (length rest).
Proof.
  intros Hv Hc st'. unfold st'.
  rewrite (for_rows_total create user i (r :: rest) st).
  simpl for_rows.
  rewrite (process_row_threw create _ _ _ _ _ _ Hv Hc). simpl.
  split_and!; try done.
  - intros text -> Htext. by destruct text.
  - by intros [-> | ->].
Qed.

(** C6, as amended.  For a row whose required field is missing or blank,
    the entry recorded for that failure has the constant field
    validation, and its message names the failing field. *)
Theorem required_field_entry (user : option string) (i : nat) (r : Row) (st : Loop)
    (f label : string) :
  (f, label) ∈ required_fields →
  blank (r !! f) = true →
  {| row := i + 2; field := "validation"; message := label +:+ " is required" |}
  ∈ l_errors (process_row user i r st).
Proof.
  intros Hf Hblank. pose proof (required_message r f label Hf Hblank) as Hin.
  assert (validate r ≠ []) as Hv by (intros Hnil; rewrite Hnil in Hin; by apply elem_of_nil in Hin).
  rewrite (process_row_rejected create _ _ _ _ Hv). simpl.
  apply elem_of_app. right.
  by apply (list_elem_of_fmap_2
              (fun error => {| row := i + 2; field := "validation"; message := error |})).
Qed.

(** C7, as amended.  The data row at 1-indexed position k is handled by
    iteration k - 1 of the loop, and every entry recorded for it carries
    the row number k + 1, the line of the row in a file whose line 1 is
    the header; every recorded row number is at least 2. *)
Theorem row_numbers (user : option string) (before : list Row) (r : Row)
    (after : list Row) (db0 : DB) :
  let k := length before + 1 in
  let st := for_rows user 0 before (start db0) in
  for_rows user 0 (before ++ r :: after) (start db0)
  = for_rows user k after (process_row user (k - 1) r st)
  ∧ (∃ new, l_errors (process_row user (k - 1) r st) = l_errors st ++ new
            ∧ Forall (fun e => row e = k + 1) new)
  ∧ Forall (fun e => 2 ≤ row e) (errors (upload_rows user (before ++ r :: after) db0).1).
Proof.
  intros k st. split_and!.
  - rewrite for_rows_app. simpl. unfold k, st.
    by replace (length before + 1 - 1) with (length before) by lia;
      replace (length before + 1) with (S (length before)) by lia.
  - destruct (process_row_step create user (k - 1) r st) as (_ & new & Hnew & Hrows).
    exists new. split; [done|].
    eapply Forall_impl; [exact Hrows|]. simpl. intros e ->. unfold k. lia.
  - simpl.
    destruct (for_rows_row_numbers create user 0 (before ++ r :: after) (start db0))
      as (new & -> & Hrows). simpl.
    eapply Forall_impl; [exact Hrows|]. simpl. intros e ?. lia.
Qed.

End BulkUploadClaims.

Section ImportAccounting.

Context {DB : Type}.
Variable create : ProblemData.t → DB → option Exception * DB.
Variable csv : string → list Row.

Abbreviation all_persisted := (all_persisted create).
Abbreviation bulkUploadProblems := (bulkUploadProblems create csv).

(** C3. When the uploaded text decodes into K data rows of which exactly
    J fail validation, and every row that passes validation is stored
    without error, the outcome has imported = K - J, failed = J and at
    least J error entries. *)
Theorem import_accounting (buffer : string) (user : option string) (db0 : DB) (K J : nat) :
  length (csv buffer) = K →
  length (rejected (csv buffer)) = J →
  all_persisted user (csv buffer) db0 = true →
  ∃ results,
    res_data (bulkUploadProblems (Some buffer) user db0).1 = Some results
    ∧ imported results = K - J
    ∧ failed results = J
    ∧ J ≤ length (errors results).
Proof.
  intros HK HJ Hall. eexists. split; [reflexivity|]. simpl.
  destruct (for_rows_persisted create user 0 (csv buffer) (start db0) Hall)
    as (-> & -> & ->). simpl.
  rewrite HK, HJ. split_and!; [done..|].
  rewrite <-HJ. apply validation_entries_length.
Qed.

End ImportAccounting.

(** ** List-typed columns *)

Lemma trimEnd_empty (s : string) : JS.trimEnd s = EmptyString → all_whitespace s = true.
Proof.
  induction s as [|c s IH]; [done|]. unfold all_whitespace in *. simpl.
  destruct (JS.trimEnd s); [|done].
  destruct (JS.is_whitespace c); [|done]. intros _. by rewrite IH.
Qed.

Lemma trimStart_whitespace (s : string) :
  all_whitespace (JS.trimStart s) = true → all_whitespace s = true.
Proof.
  induction s as [|c s IH]; [done|]. unfold all_whitespace in *. simpl.
  destruct (JS.is_whitespace c) eqn:Hc; simpl; [done|]. by rewrite Hc.
Qed.

Lemma trim_empty (s : string) : JS.trim s = EmptyString → all_whitespace s = true.
Proof. intros H. by apply trimStart_whitespace, trimEnd_empty. Qed.

(** A string of white space holds no semicolon, so it is a single part. *)
Lemma split_whitespace (s : string) :
  all_whitespace s = true → JS.split ";"%char s = [s].
Proof.
  induction s as [|c s IH]; [done|]. unfold all_whitespace in *. simpl.
  intros [Hc Hs]%andb_prop. rewrite (IH Hs).
  destruct (Ascii.eqb_spec c ";"%char) as [->|]; [by vm_compute in Hc|done].
Qed.

Lemma parseArrayField_parts (field : string) :
  parseArrayField field
  = filter (fun item => item ≠ EmptyString) (JS.trim <$> JS.split ";"%char field).
Proof.
  unfold parseArrayField.
  destruct (String.eqb_spec (JS.trim field) EmptyString) as [Hblank|Hfull].
  - rewrite orb_true_r, (split_whitespace field (trim_empty field Hblank)).
    rewrite fmap_cons, fmap_nil, filter_cons, filter_nil, Hblank.
    by rewrite decide_False by congruence.
  - rewrite orb_false_r. destruct field as [|c field]; [done|done].
Qed.

(** C9. Each of the five list-typed columns is parsed from its raw cell by
    splitting on the semicolon, trimming every part and dropping the empty
    parts; an absent column and an empty cell give the empty sequence. *)
Theorem list_columns_parsed (user : option string) (r : Row) (k : string)
    (get : ProblemData.t → list string) :
  (k, get) ∈ list_columns →
  (∀ cell, r !! k = Some cell →
     get (problemData user r)
     = filter (fun item => item ≠ EmptyString) (JS.trim <$> JS.split ";"%char cell))
  ∧ (r !! k = None ∨ r !! k = Some EmptyString → get (problemData user r) = [])
  ∧ parseArrayField "Python;TensorFlow; React " = ["Python"; "TensorFlow"; "React"].
Proof.
  intros Hk.
  assert (get (problemData user r) = parseArrayField (JS.or_else (r !! k) EmptyString)) as ->.
  { unfold list_columns in Hk.
    repeat (apply elem_of_cons in Hk as [[= -> ->]|Hk]; [done|]).
    by apply elem_of_nil in Hk. }
  split_and!.
  - intros cell ->. rewrite parseArrayField_parts. by destruct cell.
  - by intros [-> | ->].
  - by vm_compute.
Qed.

Lemma list_columns_parsed_witness :
  ("technologies", ProblemData.technologies) ∈ list_columns
  ∧ ProblemData.technologies (problemData None example_row)
    = ["Python"; "TensorFlow"; "React"]
  ∧ ProblemData.tags (problemData None example_row) = [].
Proof.
  assert (("technologies", ProblemData.technologies) ∈ list_columns) as Htech
    by apply list_elem_of_here.
  assert (("tags", ProblemData.tags) ∈ list_columns) as Htags
    by (do 4 apply list_elem_of_further; apply list_elem_of_here).
  split; [exact Htech|]. split.
  - destruct (list_columns_parsed None example_row _ _ Htech) as (Hcell & _ & _).
    rewrite (Hcell "Python;TensorFlow; React " eq_refl). reflexivity.
  - destruct (list_columns_parsed None example_row _ _ Htags) as (_ & Habsent & _).
    apply Habsent. left. reflexivity.
Defined.

(** ** The template *)

(** The template literal has 3631 code units. *)
Example csvContent_length : String.length csvContent = 3631.
Proof. by vm_compute. Qed.

(** C8. The text of the template, uploaded again, decodes into five data
    rows that all pass validation; when each of them is stored without
    error the outcome is imported = 5, failed = 0 and no error entry. *)
Theorem template_round_trip {DB : Type} (create : ProblemData.t → DB → option Exception * DB)
    (user : option string) (db0 : DB) :
  all_persisted create user (CsvParser.csv downloadTemplate) db0 = true →
  length (CsvParser.csv downloadTemplate) = 5
  ∧ Forall (fun r => validate r = []) (CsvParser.csv downloadTemplate)
  ∧ res_data (bulkUploadProblems create CsvParser.csv (Some downloadTemplate) user db0).1
    = Some {| imported := 5; failed := 0; errors := [] |}.
Proof.
  assert (validate <$> CsvParser.csv downloadTemplate = replicate 5 []) as Hvalid
    by (vm_compute; reflexivity).
  assert (rejected (CsvParser.csv downloadTemplate) = []) as Hnone
    by (vm_compute; reflexivity).
  assert (validation_entries 0 (CsvParser.csv downloadTemplate) = []) as Hentries
    by (vm_compute; reflexivity).
  unfold bulkUploadProblems, upload_rows.
  revert Hvalid Hnone Hentries. generalize (CsvParser.csv downloadTemplate) as rows.
  intros rows Hvalid Hnone Hentries Hall.
  assert (length rows = 5) as Hlen
    by (rewrite <-(length_fmap validate), Hvalid; reflexivity).
  split_and!.
  - exact Hlen.
  - apply (Forall_fmap validate (fun v => v = [])). rewrite Hvalid. by repeat constructor.
  - destruct (for_rows_persisted create user 0 rows (start db0) Hall) as (Hi & Hf & He).
    cbn [fst res_data]. rewrite Hi, Hf, He, Hlen, Hnone, Hentries. reflexivity.
Qed.

Lemma template_round_trip_witness :
  all_persisted ProblemStatement_create (Some "64f0c2a9e1b2c3d4e5f60718")
    (CsvParser.csv downloadTemplate) [] = true
  ∧ res_data (bulkUploadProblems ProblemStatement_create CsvParser.csv
                (Some downloadTemplate) (Some "64f0c2a9e1b2c3d4e5f60718") []).1
    = Some {| imported := 5; failed := 0; errors := [] |}.
Proof.
  assert (all_persisted ProblemStatement_create (Some "64f0c2a9e1b2c3d4e5f60718")
            (CsvParser.csv downloadTemplate) [] = true) as Hall
    by (vm_compute; reflexivity).
  split; [exact Hall|].
  exact (proj2 (proj2 (template_round_trip ProblemStatement_create _ [] Hall))).
Defined.

(** The identifiers the hook hands out when the template is imported into
    an empty collection. *)
Example template_import_ids :
  id <$> (bulkUploadProblems ProblemStatement_create CsvParser.csv
            (Some downloadTemplate) (Some "64f0c2a9e1b2c3d4e5f60718") []).2
  = [Some "AIM001"; Some "IOT001"; Some "CYS001"; Some "CLD001"; Some "CYS002"].
Proof. by vm_compute. Qed.

(** ** Concrete runs *)

Lemma import_accounting_witness :
  length (CsvParser.csv example_upload) = 3
  ∧ length (rejected (CsvParser.csv example_upload)) = 1
  ∧ all_persisted ProblemStatement_create (Some "64f0c2a9e1b2c3d4e5f60718")
      (CsvParser.csv example_upload) [] = true
  ∧ ∃ results,
      res_data (bulkUploadProblems ProblemStatement_create CsvParser.csv
                  (Some example_upload) (Some "64f0c2a9e1b2c3d4e5f60718") []).1
      = Some results
      ∧ imported results = 3 - 1
      ∧ failed results = 1
      ∧ 1 ≤ length (errors results).
Proof.
  assert (length (CsvParser.csv example_upload) = 3) as HK by (vm_compute; reflexivity).
  assert (length (rejected (CsvParser.csv example_upload)) = 1) as HJ
    by (vm_compute; reflexivity).
  assert (all_persisted ProblemStatement_create (Some "64f0c2a9e1b2c3d4e5f60718")
            (CsvParser.csv example_upload) [] = true)
    as Hall by (vm_compute; reflexivity).
  exact (conj HK (conj HJ (conj Hall
           (import_accounting ProblemStatement_create CsvParser.csv
              example_upload (Some "64f0c2a9e1b2c3d4e5f60718") [] 3 1 HK HJ Hall)))).
Defined.

Lemma validation_accumulates_witness :
  blank (example_bad_row !! "title") = true
  ∧ example_bad_row !! "category" = Some "Huge"
  ∧ (JS.trim "Huge" ∉ validCategories)
  ∧ 2 ≤ length (validate example_bad_row)
  ∧ l_failed (process_row (failing_create None) None 0 example_bad_row (start tt)) = 0 + 1
  ∧ l_imported (process_row (failing_create None) None 0 example_bad_row (start tt)) = 0.
Proof.
  assert (blank (example_bad_row !! "title") = true) as Htitle by (vm_compute; reflexivity).
  assert (example_bad_row !! "category" = Some "Huge") as Hcat by (vm_compute; reflexivity).
  assert ("Huge" ≠ EmptyString) as Hne by discriminate.
  assert (JS.trim "Huge" ∉ validCategories) as Hnot.
  { intros Hin. apply includes_spec in Hin. vm_compute in Hin. discriminate Hin. }
  destruct (validation_accumulates (failing_create None) None 0 example_bad_row (start tt))
    as (_ & _ & Hrow).
  destruct (Hrow "Huge" Htitle Hcat Hne Hnot) as (Hlen & _ & _ & Hfailed & Himported & _).
  exact (conj Htitle (conj Hcat (conj Hnot (conj Hlen (conj Hfailed Himported))))).
Defined.

(** C5 as stated fails when the failure carries no text: the store rejects
    the write with an empty message, and the entry holds the fixed text
    instead of that empty text. *)
Lemma persistence_message_counterexample :
  validate example_row = []
  ∧ failing_create (Some EmptyString) (problemData None example_row) tt
    = (Some {| exn_message := Some EmptyString |}, tt)
  ∧ l_errors (process_row (failing_create (Some EmptyString)) None 0 example_row (start tt))
    = [ {| row := 2; field := "database"; message := "Failed to create problem statement" |} ]
  ∧ l_errors (process_row (failing_create (Some EmptyString)) None 0 example_row (start tt))
    ≠ [ {| row := 2; field := "database"; message := EmptyString |} ].
Proof.
  assert (l_errors (process_row (failing_create (Some EmptyString)) None 0 example_row
                      (start tt))
          = [ {| row := 2; field := "database";
                 message := "Failed to create problem statement" |} ]) as Hrun
    by (vm_compute; reflexivity).
  split_and!; [by vm_compute|reflexivity|exact Hrun|].
  rewrite Hrun. discriminate.
Qed.

Lemma persistence_failure_recorded_witness :
  validate example_row = []
  ∧ failing_create (Some "E11000 duplicate key error") (problemData None example_row) tt
    = (Some {| exn_message := Some "E11000 duplicate key error" |}, tt)
  ∧ l_errors (process_row (failing_create (Some "E11000 duplicate key error")) None 0
                example_row (start tt))
    = [] ++ [ {| row := 0 + 2; field := "database";
                 message := JS.or_else (Some "E11000 duplicate key error")
                              "Failed to create problem statement" |} ].
Proof.
  assert (validate example_row = []) as Hv by (vm_compute; reflexivity).
  assert (failing_create (Some "E11000 duplicate key error") (problemData None example_row) tt
          = (Some {| exn_message := Some "E11000 duplicate key error" |}, tt)) as Hc
    by reflexivity.
  exact (conj Hv (conj Hc
           (proj1 (persistence_failure_recorded
                     (failing_create (Some "E11000 duplicate key error"))
                     None 0 example_row [] (start tt) _ tt Hv Hc)))).
Defined.

(** C6 as stated fails on a row without title: both entries recorded for it
    have the field validation, none has the field title. *)
Lemma required_field_name_counterexample :
  blank (example_bad_row !! "title") = true
  ∧ field <$> l_errors (process_row (failing_create None) None 0 example_bad_row (start tt))
    = ["validation"; "validation"]
  ∧ ¬ ∃ e, e ∈ l_errors (process_row (failing_create None) None 0 example_bad_row (start tt))
           ∧ field e = "title".
Proof.
  assert (field <$> l_errors (process_row (failing_create None) None 0 example_bad_row
                                (start tt))
          = ["validation"; "validation"]) as Hfields by (vm_compute; reflexivity).
  split_and!; [by vm_compute|exact Hfields|].
  intros (e & He & Hf).
  apply (list_elem_of_fmap_2 field) in He. rewrite Hfields, Hf in He.
  repeat (apply elem_of_cons in He as [He|He]; [discriminate He|]).
  by apply elem_of_nil in He.
Qed.

Lemma required_field_entry_witness :
  ("title", "Title") ∈ required_fields
  ∧ blank (example_bad_row !! "title") = true
  ∧ {| row := 0 + 2; field := "validation"; message := "Title" +:+ " is required" |}
    ∈ l_errors (process_row (failing_create None) None 0 example_bad_row (start tt)).
Proof.
  assert (("title", "Title") ∈ required_fields) as Hf by apply list_elem_of_here.
  assert (blank (example_bad_row !! "title") = true) as Hblank by (vm_compute; reflexivity).
  exact (conj Hf (conj Hblank
           (required_field_entry (failing_create None) None 0 example_bad_row (start tt)
              "title" "Title" Hf Hblank))).
Defined.

(** C7 as stated fails on the first data row: it is at position 1, and its
    entries carry the row number 2, not 1 + 2. *)
Lemma row_number_counterexample :
  row <$> errors (upload_rows (failing_create None) None [example_bad_row] tt).1 = [2; 2]
  ∧ ¬ ∃ e, e ∈ errors (upload_rows (failing_create None) None [example_bad_row] tt).1
           ∧ row e = 1 + 2.
Proof.
  assert (row <$> errors (upload_rows (failing_create None) None [example_bad_row] tt).1
          = [2; 2]) as Hrows by (vm_compute; reflexivity).
  split; [exact Hrows|].
  intros (e & He & Hr).
  apply (list_elem_of_fmap_2 row) in He. rewrite Hrows, Hr in He.
  repeat (apply elem_of_cons in He as [He|He]; [discriminate He|]).
  by apply elem_of_nil in He.
Qed.

(** * Further properties *)

(** ** Trimming and splitting *)

Lemma trimEnd_idem (s : string) : JS.trimEnd (JS.trimEnd s) = JS.trimEnd s.
Proof.
  induction s as [|c s IH]; [done|]. simpl.
  destruct (JS.trimEnd s) as [|d r] eqn:E.
  - destruct (JS.is_whitespace c) eqn:Hc; [done|]. simpl. by rewrite Hc.
  - simpl in *. by rewrite IH.
Qed.

Lemma trimStart_head (s : string) : starts_blank (JS.trimStart s) = false.
Proof.
  induction s as [|c s IH]; [done|]. simpl.
  destruct (JS.is_whitespace c) eqn:Hc; [done|]. simpl. by rewrite Hc.
Qed.

Lemma trimEnd_head (s : string) :
  starts_blank s = false → starts_blank (JS.trimEnd s) = false.
Proof.
  destruct s as [|c s]; [done|]. simpl. intros Hc.
  destruct (JS.trimEnd s); [by rewrite Hc|done].
Qed.

Lemma trimStart_id (s : string) : starts_blank s = false → JS.trimStart s = s.
Proof. destruct s as [|c s]; [done|]. simpl. by intros ->. Qed.

Lemma trim_idem (s : string) : JS.trim (JS.trim s) = JS.trim s.
Proof.
  unfold JS.trim.
  rewrite (trimStart_id (JS.trimEnd _)) by apply trimEnd_head, trimStart_head.
  apply trimEnd_idem.
Qed.

Lemma trimStart_no_semicolon (s : string) :
  no_semicolon s = true → no_semicolon (JS.trimStart s) = true.
Proof.
  induction s as [|c s IH]; [done|]. unfold no_semicolon in *. simpl.
  intros [Hc Hs]%andb_prop. destruct (JS.is_whitespace c); [by apply IH|].
  simpl. by rewrite Hc, Hs.
Qed.

Lemma trimEnd_no_semicolon (s : string) :
  no_semicolon s = true → no_semicolon (JS.trimEnd s) = true.
Proof.
  induction s as [|c s IH]; [done|]. unfold no_semicolon in *. simpl.
  intros [Hc Hs]%andb_prop. specialize (IH Hs).
  destruct (JS.trimEnd s) as [|d r].
  - destruct (JS.is_whitespace c); [done|]. simpl. by rewrite Hc.
  - simpl in *. by rewrite Hc, IH.
Qed.

Lemma trim_no_semicolon (s : string) :
  no_semicolon s = true → no_semicolon (JS.trim s) = true.
Proof. intros H. by apply trimEnd_no_semicolon, trimStart_no_semicolon. Qed.

Lemma split_nonempty (s : string) : JS.split ";"%char s ≠ [].
Proof.
  induction s as [|c s IH]; [done|]. simpl.
  destruct (Ascii.eqb c ";"%char); [done|]. by destruct (JS.split ";"%char s).
Qed.

Lemma split_no_semicolon (s : string) :
  Forall (fun part => no_semicolon part = true) (JS.split ";"%char s).
Proof.
  induction s as [|c s IH]; [by repeat constructor|]. simpl.
  destruct (Ascii.eqb c ";"%char) eqn:Hc; [by constructor|].
  destruct (JS.split ";"%char s) as [|p ps].
  - constructor; [|constructor]. unfold no_semicolon. simpl. by rewrite Hc.
  - inversion_clear IH as [|?? Hp Hps]. constructor; [|done].
    unfold no_semicolon in *. simpl. by rewrite Hc, Hp.
Qed.

Lemma split_plain (s : string) : no_semicolon s = true → JS.split ";"%char s = [s].
Proof.
  induction s as [|c s IH]; [done|]. unfold no_semicolon in *. simpl.
  intros [Hc Hs]%andb_prop. apply negb_true_iff in Hc. by rewrite Hc, (IH Hs).
Qed.

Lemma split_app (x s : string) :
  no_semicolon x = true →
  JS.split ";"%char (x +:+ String ";"%char s) = x :: JS.split ";"%char s.
Proof.
  induction x as [|c x IH]; [done|]. unfold no_semicolon in *.
  cbn [String.list_ascii_of_string forallb].
  intros [Hc Hx]%andb_prop. apply negb_true_iff in Hc.
  change (String c x +:+ String ";"%char s) with (String c (x +:+ String ";"%char s)).
  cbn [JS.split]. by rewrite Hc, (IH Hx).
Qed.

Lemma split_join (items : list string) :
  Forall (fun item => no_semicolon item = true) items → items ≠ [] →
  JS.split ";"%char (JS.join ";" items) = items.
Proof.
  induction 1 as [|x items Hx Hitems IH]; [done|]. intros _.
  destruct items as [|y items].
  - by apply split_plain.
  - change (JS.join ";" (x :: y :: items)) with (x +:+ String ";"%char (JS.join ";" (y :: items))).
    rewrite split_app by done. by rewrite IH.
Qed.

(** ** List-typed columns, continued *)

Lemma item_normal_filter (parts : list string) :
  Forall (fun part => no_semicolon part = true) parts →
  Forall item_normal (filter (fun item => item ≠ EmptyString) (JS.trim <$> parts)).
Proof.
  induction 1 as [|p parts Hp _ IH]; [constructor|].
  rewrite fmap_cons, filter_cons. case_decide; [|done].
  constructor; [|done]. split_and!; [done|apply trim_idem|by apply trim_no_semicolon].
Qed.

Lemma filter_normal (items : list string) :
  Forall item_normal items →
  filter (fun item => item ≠ EmptyString) (JS.trim <$> items) = items.
Proof.
  induction 1 as [|x items (Hne & Htrim & _) _ IH]; [done|].
  rewrite fmap_cons, filter_cons, Htrim, IH. by rewrite decide_True.
Qed.

(** X1.  The items [parseArrayField] returns are never empty, carry no white
    space at either end and hold no semicolon; joined with semicolons they
    parse back to themselves, as does every list of such items. *)
Theorem parseArrayField_round_trip (field : string) (items : list string) :
  Forall item_normal (parseArrayField field)
  ∧ parseArrayField (JS.join ";" (parseArrayField field)) = parseArrayField field
  ∧ (Forall item_normal items → parseArrayField (JS.join ";" items) = items).
Proof.
  assert (∀ f, Forall item_normal (parseArrayField f)) as Hnormal
    by (intros f; rewrite parseArrayField_parts; apply item_normal_filter, split_no_semicolon).
  assert (∀ l, Forall item_normal l → parseArrayField (JS.join ";" l) = l) as Hback.
  { intros l Hl. destruct l as [|x l]; [done|].
    rewrite parseArrayField_parts, split_join; [by apply filter_normal| |done].
    eapply Forall_impl; [exact Hl|]. by intros item (_ & _ & ?). }
  split_and!; [apply Hnormal|apply Hback, Hnormal|apply Hback].
Qed.

Lemma parseArrayField_round_trip_witness :
  Forall item_normal ["Node.js"; "React Native"]
  ∧ parseArrayField (JS.join ";" ["Node.js"; "React Native"]) = ["Node.js"; "React Native"].
Proof.
  assert (Forall item_normal ["Node.js"; "React Native"]) as Hitems
    by (repeat constructor; discriminate).
  exact (conj Hitems
           (proj2 (proj2 (parseArrayField_round_trip EmptyString _)) Hitems)).
Defined.

(** ** Rows that pass validation *)

Lemma validate_nil_checks (r : Row) :
  validate r = [] →
  blank (r !! "title") = false ∧ blank (r !! "abstract") = false
  ∧ blank (r !! "domain") = false ∧ blank (r !! "category") = false
  ∧ blank (r !! "difficulty") = false ∧ blank (r !! "duration") = false
  ∧ not_among validDomains (r !! "domain") = false
  ∧ not_among validCategories (r !! "category") = false
  ∧ not_among validDifficulties (r !! "difficulty") = false.
Proof.
  intros Hnil. pose proof (validate_length r) as Hlen. rewrite Hnil in Hlen. simpl in Hlen.
  repeat match type of Hlen with context [if ?b then _ else _] =>
    destruct b; [lia|] end.
  done.
Qed.

Lemma not_blank_trimmed (r : Row) (k : string) :
  blank (r !! k) = false → trimmed r k ≠ EmptyString ∧ JS.truthy (r !! k) = true.
Proof.
  unfold blank, trimmed. intros [Ht Hne]%orb_false_elim.
  apply negb_false_iff in Ht. split; [|done]. by apply String.eqb_neq.
Qed.

Lemma among_trimmed (valid : list string) (r : Row) (k : string) :
  blank (r !! k) = false → not_among valid (r !! k) = false → trimmed r k ∈ valid.
Proof.
  intros [_ Ht]%not_blank_trimmed. unfold not_among, trimmed. rewrite Ht. simpl.
  intros Hin%negb_false_iff. by apply includes_spec.
Qed.

(** X2.  A row that passes validation yields a [problemData] whose domain,
    category and difficulty are among the allowed values and whose title,
    abstract and duration are not empty; these six fields carry no white
    space at either end. *)
Theorem validated_row_well_formed (user : option string) (r : Row) :
  validate r = [] →
  ProblemData.domain (problemData user r) ∈ validDomains
  ∧ ProblemData.category (problemData user r) ∈ validCategories
  ∧ ProblemData.difficulty (problemData user r) ∈ validDifficulties
  ∧ ProblemData.title (problemData user r) ≠ EmptyString
  ∧ ProblemData.abstract (problemData user r) ≠ EmptyString
  ∧ ProblemData.duration (problemData user r) ≠ EmptyString
  ∧ Forall (fun field => JS.trim field = field)
      [ ProblemData.title (problemData user r); ProblemData.abstract (problemData user r);
        ProblemData.domain (problemData user r); ProblemData.category (problemData user r);
        ProblemData.difficulty (problemData user r); ProblemData.duration (problemData user r) ].
Proof.
  intros (Ht & Ha & Hd & Hc & Hf & Hu & Hd' & Hc' & Hf')%validate_nil_checks. simpl.
  split_and!; try (by apply among_trimmed); try (by apply not_blank_trimmed).
  repeat constructor; apply trim_idem.
Qed.

Lemma validated_row_well_formed_witness :
  validate example_row = []
  ∧ ProblemData.domain (problemData None example_row) ∈ validDomains.
Proof.
  assert (validate example_row = []) as Hv by (vm_compute; reflexivity).
  exact (conj Hv (proj1 (validated_row_well_formed None example_row Hv))).
Defined.

(** ** The featured column *)

Ltac lower_unit_by_cases c :=
  destruct c as [[] [] [] [] [] [] [] []]; vm_compute;
  (split; [intros [=]; auto|intros [[=]|[=]]; reflexivity]).

Lemma lower_unit_t (c : ascii) : JS.lower_unit c = "t"%char ↔ c = "t"%char ∨ c = "T"%char.
Proof. lower_unit_by_cases c. Qed.

Lemma lower_unit_r (c : ascii) : JS.lower_unit c = "r"%char ↔ c = "r"%char ∨ c = "R"%char.
Proof. lower_unit_by_cases c. Qed.

Lemma lower_unit_u (c : ascii) : JS.lower_unit c = "u"%char ↔ c = "u"%char ∨ c = "U"%char.
Proof. lower_unit_by_cases c. Qed.

Lemma lower_unit_e (c : ascii) : JS.lower_unit c = "e"%char ↔ c = "e"%char ∨ c = "E"%char.
Proof. lower_unit_by_cases c. Qed.

(** X3.  [featured] is true exactly for the cells that spell true in any mix of
    upper and lower case; every other cell, the absent and the empty one
    included, gives false. *)
Theorem featured_spellings (user : option string) (r : Row) :
  ProblemData.featured (problemData user r) = true
  ↔ ∃ cell, r !! "featured" = Some cell ∧ cell ∈ true_spellings.
Proof.
  simpl. destruct (r !! "featured") as [cell|]; [|split; [done|by intros (? & [=] & _)]].
  rewrite String.eqb_eq. split.
  - intros Hlow. exists cell. split; [done|].
    destruct cell as [|c1 [|c2 [|c3 [|c4 rest]]]]; try discriminate Hlow.
    simpl in Hlow. injection Hlow as H1 H2 H3 H4 Hrest.
    apply lower_unit_t in H1. apply lower_unit_r in H2.
    apply lower_unit_u in H3. apply lower_unit_e in H4.
    destruct rest; [|discriminate Hrest].
    destruct H1 as [-> | ->], H2 as [-> | ->], H3 as [-> | ->], H4 as [-> | ->];
      vm_compute; repeat first [apply list_elem_of_here | apply list_elem_of_further].
  - intros (v & [= <-] & Hin). vm_compute in Hin.
    repeat (apply elem_of_cons in Hin as [->|Hin]; [reflexivity|]).
    by apply elem_of_nil in Hin.
Qed.

Lemma featured_spellings_witness :
  ProblemData.featured (problemData None (<["featured" := "TrUe"]> example_row)) = true
  ∧ ProblemData.featured (problemData None (<["featured" := " true"]> example_row)) = false.
Proof.
  split.
  - apply (featured_spellings None (<["featured" := "TrUe"]> example_row)).
    exists "TrUe". split; [vm_compute; reflexivity|].
    vm_compute. repeat first [apply list_elem_of_here | apply list_elem_of_further].
  - vm_compute. reflexivity.
Defined.

(** ** The outcome for any store *)

Lemma constant_rows_sorted (n : nat) (entries : list ErrorEntry) :
  Forall (fun e => row e = n) entries → StronglySorted le (row <$> entries).
Proof.
  induction 1 as [|e entries He Hall IH]; [constructor|].
  rewrite fmap_cons. constructor; [done|].
  apply Forall_fmap. eapply Forall_impl; [exact Hall|]. simpl. intros e' ->. lia.
Qed.

Section AnyStore.

Context {DB : Type}.
Variable create : ProblemData.t → DB → option Exception * DB.

Abbreviation process_row := (process_row create).
Abbreviation for_rows := (for_rows create).
Abbreviation upload_rows := (upload_rows create).

Lemma process_row_outcome (user : option string) (i : nat) (r : Row) (st : Loop) :
  (l_imported (process_row user i r st) = l_imported st + 1
   ∧ l_failed (process_row user i r st) = l_failed st
   ∧ l_errors (process_row user i r st) = l_errors st)
  ∨ (l_imported (process_row user i r st) = l_imported st
     ∧ l_failed (process_row user i r st) = l_failed st + 1
     ∧ ∃ e new, l_errors (process_row user i r st) = l_errors st ++ e :: new).
Proof.
  destruct (decide (validate r = [])) as [Hv|Hv].
  - destruct (create (problemData user r) (l_db st)) as [[e|] db'] eqn:Hc.
    + rewrite (process_row_threw create _ _ _ _ _ _ Hv Hc). simpl. right. eauto.
    + rewrite (process_row_created create _ _ _ _ _ Hv Hc). simpl. by left.
  - rewrite (process_row_rejected create _ _ _ _ Hv). simpl. right.
    destruct (validate r) as [|m ms]; [done|]. rewrite fmap_cons. eauto.
Qed.

Lemma for_rows_failed (user : option string) (i : nat) (problems : list Row) (st : Loop) :
  ∃ new, l_errors (for_rows user i problems st) = l_errors st ++ new
         ∧ l_failed st ≤ l_failed (for_rows user i problems st)
         ∧ l_failed (for_rows user i problems st) - l_failed st ≤ length new
         ∧ (new = [] ↔ l_failed (for_rows user i problems st) = l_failed st).
Proof.
  revert i st. induction problems as [|r rest IH]; intros i st; simpl.
  - exists []. rewrite app_nil_r. split_and!; [done|lia|simpl; lia|done].
  - destruct (IH (S i) (process_row user i r st)) as (new2 & -> & Hle & Hlen & Hnil).
    destruct (process_row_outcome user i r st) as [(_ & Hf & He)|(_ & Hf & e & new1 & He)];
      rewrite He; rewrite Hf in *.
    + exists new2. split_and!; [done|lia|lia|done].
    + exists (e :: new1 ++ new2). rewrite <-app_assoc. simpl.
      split_and!; [done|lia|rewrite length_app; lia|split; [done|lia]].
Qed.

Lemma for_rows_sorted (user : option string) (i : nat) (problems : list Row) (st : Loop) :
  ∃ new, l_errors (for_rows user i problems st) = l_errors st ++ new
         ∧ StronglySorted le (row <$> new)
         ∧ Forall (fun e => i + 2 ≤ row e) new.
Proof.
  revert i st. induction problems as [|r rest IH]; intros i st; simpl.
  - exists []. rewrite app_nil_r. split_and!; [done|constructor|constructor].
  - destruct (IH (S i) (process_row user i r st)) as (new2 & -> & Hsorted & Hlow).
    destruct (process_row_step create user i r st) as (_ & new1 & -> & Hrows).
    exists (new1 ++ new2). split_and!; [by rewrite app_assoc| |].
    + rewrite fmap_app. apply StronglySorted_app_2; [|by eapply constant_rows_sorted|done].
      intros x1 x2 (e1 & -> & He1)%list_elem_of_fmap (e2 & -> & He2)%list_elem_of_fmap.
      rewrite Forall_forall in Hrows, Hlow.
      rewrite (Hrows e1 He1). specialize (Hlow e2 He2). lia.
    + apply Forall_app. split.
      * eapply Forall_impl; [exact Hrows|]. simpl. intros e ->. lia.
      * eapply Forall_impl; [exact Hlow|]. simpl. intros e ?. lia.
Qed.

(** X4.  Whatever the store does, every row is counted once, as imported or
    as failed; every failed row leaves at least one entry, so the list of
    errors is empty exactly when no row failed. *)
Theorem every_row_accounted (user : option string) (problems : list Row) (db0 : DB) :
  imported (upload_rows user problems db0).1 + failed (upload_rows user problems db0).1
  = length problems
  ∧ failed (upload_rows user problems db0).1
    ≤ length (errors (upload_rows user problems db0).1)
  ∧ (errors (upload_rows user problems db0).1 = []
     ↔ failed (upload_rows user problems db0).1 = 0).
Proof.
  simpl. pose proof (for_rows_total create user 0 problems (start db0)) as Htotal.
  destruct (for_rows_failed user 0 problems (start db0)) as (new & He & _ & Hlen & Hnil).
  simpl in *. rewrite He. split_and!; [lia|lia|].
  rewrite Hnil. lia.
Qed.

(** X5.  The entries of [errors] come in row order: their row numbers never
    decrease, whatever the store does. *)
Theorem errors_in_row_order (user : option string) (problems : list Row) (db0 : DB) :
  StronglySorted le (row <$> errors (upload_rows user problems db0).1).
Proof.
  simpl. destruct (for_rows_sorted user 0 problems (start db0)) as (new & -> & Hsorted & _).
  done.
Qed.

End AnyStore.

Lemma every_row_accounted_witness :
  failed (upload_rows ProblemStatement_create (Some "64f0c2a9e1b2c3d4e5f60718")
            (CsvParser.csv example_upload) []).1 = 1
  ∧ errors (upload_rows ProblemStatement_create (Some "64f0c2a9e1b2c3d4e5f60718")
              (CsvParser.csv example_upload) []).1 ≠ [].
Proof.
  assert (failed (upload_rows ProblemStatement_create (Some "64f0c2a9e1b2c3d4e5f60718")
                    (CsvParser.csv example_upload) []).1 = 1) as Hfailed
    by (vm_compute; reflexivity).
  split; [exact Hfailed|].
  intros Hnil.
  apply (every_row_accounted ProblemStatement_create (Some "64f0c2a9e1b2c3d4e5f60718")
           (CsvParser.csv example_upload) [])
    in Hnil.
  rewrite Hfailed in Hnil. discriminate Hnil.
Defined.

(** ** The unique index *)

Lemma id_taken_spec (v : option string) (collection : list IProblemStatement) :
  id_taken v collection = true ↔ v ∈ id <$> collection.
Proof.
  unfold id_taken. rewrite existsb_exists, list_elem_of_fmap. split.
  - intros (p & Hp%list_elem_of_In & Hv%bool_decide_eq_true). by exists p.
  - intros (p & -> & Hp%list_elem_of_In). exists p. by rewrite bool_decide_eq_true.
Qed.

Lemma save_cases (this : IProblemStatement) (collection : list IProblemStatement) :
  (schema_valid this = false ∧ save this collection = inl validation_failed)
  ∨ (schema_valid this = true
     ∧ id (pre_save this collection) ∈ id <$> collection
     ∧ ∃ e, save this collection = inl e)
  ∨ (schema_valid this = true
     ∧ (id (pre_save this collection) ∉ (id <$> collection))
     ∧ save this collection = inr (collection ++ [pre_save this collection])).
Proof.
  unfold save. destruct (schema_valid this); cbn [negb]; [|by left]. right.
  destruct (id_taken _ _) eqn:Htaken.
  - left. split; [done|]. split; [by apply id_taken_spec|eauto].
  - right. split; [done|]. split; [|done]. rewrite <-id_taken_spec. by rewrite Htaken.
Qed.

Lemma pre_save_truthy (this : IProblemStatement) (collection : list IProblemStatement) :
  JS.truthy (id (pre_save this collection)) = true.
Proof.
  unfold pre_save. destruct (needs_id this) eqn:Hneeds.
  - apply generated_id_truthy.
  - unfold needs_id in Hneeds. apply orb_false_iff in Hneeds as [Hneeds _].
    by apply negb_false_iff in Hneeds.
Qed.

Lemma pre_save_createdBy (this : IProblemStatement) (collection : list IProblemStatement) :
  createdBy (pre_save this collection) = createdBy this.
Proof. unfold pre_save. by destruct (needs_id this). Qed.

(** X6.  A run of saves that all go through only appends: what was stored
    stays in place, each save adds one document, every added document has
    a non-empty identifier, a domain of the schema and a creator, and
    identifiers that were pairwise distinct stay so. *)
Theorem save_keeps_ids_distinct (docs collection collection' : list IProblemStatement) :
  save_all docs collection = inr collection' →
  ∃ new,
    collection' = collection ++ new
    ∧ length new = length docs
    ∧ Forall (fun doc => JS.truthy (id doc) = true ∧ domain doc ∈ validDomains
                         ∧ is_Some (createdBy doc)) new
    ∧ (NoDup (id <$> collection) → NoDup (id <$> collection')).
Proof.
  revert collection. induction docs as [|this docs IH]; intros collection Hsave.
  - injection Hsave as <-. exists []. rewrite app_nil_r. by repeat split.
  - cbn [save_all] in Hsave.
    destruct (save_cases this collection)
      as [[_ Hs]|[(_ & _ & e & Hs)|(Hvalid & Hfresh & Hs)]];
      rewrite Hs in Hsave; [done..|].
    destruct (IH _ Hsave) as (new & -> & Hlen & Hdocs & Hdistinct).
    exists (pre_save this collection :: new). rewrite <-app_assoc. cbn [app length].
    split; [done|]. split; [by rewrite Hlen|]. split.
    + constructor; [|done].
      destruct (schema_valid_parts this Hvalid) as (_ & Hdomain & Hby).
      split; [apply pre_save_truthy|]. split; [by rewrite pre_save_domain|].
      by rewrite pre_save_createdBy.
    + intros Hbefore. rewrite <-app_assoc in Hdistinct. apply Hdistinct.
      rewrite fmap_app. apply NoDup_app.
      split_and!; [done| |apply NoDup_singleton].
      intros v Hv ->%list_elem_of_singleton. done.
Qed.

Lemma save_keeps_ids_distinct_witness :
  save_all example_batch example_collection
  = inr (example_collection
         ++ [ example_document "Cloud Computing" (Some "CLD001");
              example_document "Cloud Computing" (Some "CLD002");
              example_document "Cloud Computing" (Some "CLD003") ])
  ∧ NoDup (id <$> example_collection)
  ∧ NoDup (id <$> (example_collection
                   ++ [ example_document "Cloud Computing" (Some "CLD001");
                        example_document "Cloud Computing" (Some "CLD002");
                        example_document "Cloud Computing" (Some "CLD003") ])).
Proof.
  assert (save_all example_batch example_collection
          = inr (example_collection
                 ++ [ example_document "Cloud Computing" (Some "CLD001");
                      example_document "Cloud Computing" (Some "CLD002");
                      example_document "Cloud Computing" (Some "CLD003") ]))
    as Hsave by (vm_compute; reflexivity).
  assert (NoDup (id <$> example_collection)) as Hdistinct by (apply NoDup_singleton).
  split; [exact Hsave|]. split; [exact Hdistinct|].
  destruct (save_keeps_ids_distinct _ _ _ Hsave) as (new & _ & _ & _ & Hkeep).
  exact (Hkeep Hdistinct).
Defined.

(** ** What a bulk upload leaves in the collection *)

Lemma create_cases (data : ProblemData.t) (collection : list IProblemStatement) :
  (∃ e, ProblemStatement_create data collection = (Some e, collection))
  ∨ (ProblemStatement_create data collection
     = (None, collection ++ [pre_save (new_document data) collection])
     ∧ (id (pre_save (new_document data) collection) ∉ (id <$> collection))).
Proof.
  unfold ProblemStatement_create.
  destruct (save_cases (new_document data) collection)
    as [[_ ->]|[(_ & _ & e & ->)|(_ & Hnot & ->)]]; eauto.
Qed.

(** X7.  The documents a bulk upload adds are as many as the rows it reports as
    imported.  Each is owned by the caller, starts with no views, has an
    identifier and a domain among the allowed ones; what was stored before
    is still there, unchanged and in place, and identifiers that were
    pairwise distinct stay so. *)
Theorem upload_appends_imported (user : option string) (problems : list Row)
    (collection : list IProblemStatement) :
  ∃ new,
    (upload_rows ProblemStatement_create user problems collection).2 = collection ++ new
    ∧ length new = imported (upload_rows ProblemStatement_create user problems collection).1
    ∧ Forall (fun doc => createdBy doc = user ∧ viewCount doc = 0
                         ∧ is_Some (id doc) ∧ domain doc ∈ validDomains) new
    ∧ (NoDup (id <$> collection) → NoDup (id <$> (collection ++ new))).
Proof.
  unfold upload_rows. cbn [fst snd imported].
  assert (∀ i st, ∃ new,
            l_db (for_rows ProblemStatement_create user i problems st) = l_db st ++ new
            ∧ l_imported (for_rows ProblemStatement_create user i problems st)
              = l_imported st + length new
            ∧ Forall (fun doc => createdBy doc = user ∧ viewCount doc = 0
                                 ∧ is_Some (id doc) ∧ domain doc ∈ validDomains) new
            ∧ (NoDup (id <$> l_db st) → NoDup (id <$> (l_db st ++ new)))) as Hloop.
  { induction problems as [|r rest IH]; intros i st.
    - exists []. rewrite !app_nil_r. simpl. split_and!; [done|lia|constructor|done].
    - cbn [for_rows].
      destruct (IH (S i) (process_row ProblemStatement_create user i r st))
        as (new2 & -> & -> & Hdocs & Hdistinct).
      destruct (decide (validate r = [])) as [Hv|Hv].
      + destruct (create_cases (problemData user r) (l_db st)) as [[e Hc]|[Hc Hfresh]].
        * rewrite (process_row_threw ProblemStatement_create _ _ _ _ _ _ Hv Hc) in *.
          by exists new2.
        * rewrite (process_row_created ProblemStatement_create _ _ _ _ _ Hv Hc) in *.
          cbn [l_db l_imported] in *.
          exists (pre_save (new_document (problemData user r)) (l_db st) :: new2).
          rewrite <-app_assoc in *. cbn [app length] in *.
          split_and!; [done|lia| |].
          -- constructor; [|done].
             rewrite pre_save_allocates by done. simpl.
             split_and!; [done..|].
             apply (among_trimmed validDomains); by apply validate_nil_checks.
          -- intros Hbefore. apply Hdistinct. rewrite fmap_app. apply NoDup_app.
             split_and!; [done| |apply NoDup_singleton].
             intros v Hv' ->%list_elem_of_singleton. done.
      + rewrite (process_row_rejected ProblemStatement_create _ _ _ _ Hv) in *.
        by exists new2. }
  destruct (Hloop 0 (start collection)) as (new & Hdb & Himp & Hdocs & Hdistinct).
  exists new. by rewrite Hdb, Himp.
Qed.

Lemma upload_appends_imported_witness :
  NoDup (id <$> example_collection)
  ∧ NoDup (id <$> (upload_rows ProblemStatement_create (Some "64f0c2a9e1b2c3d4e5f60718")
                     (CsvParser.csv example_upload) example_collection).2).
Proof.
  assert (NoDup (id <$> example_collection)) as Hdistinct by (apply NoDup_singleton).
  split; [exact Hdistinct|].
  destruct (upload_appends_imported (Some "64f0c2a9e1b2c3d4e5f60718")
              (CsvParser.csv example_upload) example_collection)
    as (new & -> & _ & _ & Hkeep).
  exact (Hkeep Hdistinct).
Defined.

(** ** More on the identifiers *)

Lemma generated_id_units (d : string) (n : nat) :
  String.list_ascii_of_string (generated_id d n)
  = String.list_ascii_of_string (domainPrefix d) ++ String.list_ascii_of_string (pad3 (n + 1)).
Proof. by rewrite generated_id_eq, list_ascii_app. Qed.

(** X8.  For the eight domains of the schema the generated identifier tells
    domain and count apart: two generated identifiers are equal only for
    the same domain and the same count. *)
Theorem generated_id_determines (d1 d2 : string) (n1 n2 : nat) :
  d1 ∈ validDomains → d2 ∈ validDomains →
  generated_id d1 n1 = generated_id d2 n2 → d1 = d2 ∧ n1 = n2.
Proof.
  intros H1 H2 Heq. unfold validDomains in H1, H2.
  repeat (apply elem_of_cons in H1 as [->|H1]; [|]);
    [..|by apply elem_of_nil in H1];
    (repeat (apply elem_of_cons in H2 as [->|H2]; [|]);
     [..|by apply elem_of_nil in H2]);
    first [ split; [reflexivity|by apply (generated_id_inj _) in Heq]
          | exfalso; apply (f_equal String.list_ascii_of_string) in Heq;
            rewrite !generated_id_units in Heq; vm_compute (domainPrefix _) in Heq;
            simpl in Heq; discriminate Heq ].
Qed.

Lemma generated_id_determines_witness :
  "Cloud Computing" ∈ validDomains ∧ "Cybersecurity & Blockchain" ∈ validDomains
  ∧ generated_id "Cloud Computing" 4 = generated_id "Cloud Computing" 4
  ∧ ("Cloud Computing" = "Cloud Computing" ∧ 4 = 4)
  ∧ generated_id "Cloud Computing" 4 ≠ generated_id "Cybersecurity & Blockchain" 4.
Proof.
  assert ("Cloud Computing" ∈ validDomains) as H1
    by (repeat first [apply list_elem_of_here | apply list_elem_of_further]).
  assert ("Cybersecurity & Blockchain" ∈ validDomains) as H2
    by (repeat first [apply list_elem_of_here | apply list_elem_of_further]).
  split; [exact H1|]. split; [exact H2|]. split; [reflexivity|].
  split; [exact (generated_id_determines _ _ 4 4 H1 H1 eq_refl)|].
  intros Heq.
  destruct (generated_id_determines _ _ 4 4 H1 H2 Heq) as [Hd _].
  discriminate Hd.
Defined.

(** X9.  An identifier the hook has generated while at most 998 documents of
    the domain were stored is final: a later run of the hook, against any
    collection, returns the document as it is. *)
Theorem generated_id_is_kept (this : IProblemStatement)
    (collection later : list IProblemStatement) :
  countDocuments (domain this) collection ≤ 998 →
  pre_save (pre_save this collection) later = pre_save this collection.
Proof.
  intros Hcount. apply pre_save_keeps.
  destruct (needs_id this) eqn:Hneeds.
  - rewrite pre_save_allocates by done.
    apply (valid_id_kept _ (generated_id (domain this) (countDocuments (domain this) collection)));
      [done|]. by apply generated_id_format.
  - by rewrite pre_save_keeps.
Qed.

Lemma generated_id_is_kept_witness :
  countDocuments "Cloud Computing" example_collection ≤ 998
  ∧ pre_save (pre_save (example_document "Cloud Computing" None) example_collection)
      example_full_domain
    = example_document "Cloud Computing" (Some "CLD001").
Proof.
  assert (countDocuments "Cloud Computing" example_collection ≤ 998) as Hcount
    by (vm_compute; lia).
  split; [exact Hcount|].
  rewrite (generated_id_is_kept (example_document "Cloud Computing" None)
             example_collection example_full_domain Hcount).
  reflexivity.
Defined.

(** ** Handlers on stored documents *)

Lemma findById_elem (key : nat) (store : Store) (p : IProblemStatement) :
  findById key store = Some p → (key, p) ∈ store.
Proof.
  induction store as [|[k q] rest IH]; [done|]. cbn [findById].
  case_decide as Hk.
  - intros [= ->]. subst k. apply list_elem_of_here.
  - intros H. apply list_elem_of_further. by apply IH.
Qed.

Lemma findById_document (key : nat) (store : Store) (p : IProblemStatement) :
  findById key store = Some p → p ∈ documents store.
Proof.
  intros H%findById_elem. unfold documents.
  apply list_elem_of_fmap. by exists (key, p).
Qed.

Lemma findById_replace_other (k key : nat) (doc : IProblemStatement) (store : Store) :
  k ≠ key → findById k (replace_first key doc store) = findById k store.
Proof.
  intros Hk. induction store as [|[k' q] rest IH]; [done|].
  cbn [replace_first findById]. case_decide as Hkey.
  - subst k'. cbn [findById]. by rewrite !decide_False by done.
  - cbn [findById]. case_decide; [done|apply IH].
Qed.

Lemma findById_replace_same (key : nat) (doc p : IProblemStatement) (store : Store) :
  findById key store = Some p → findById key (replace_first key doc store) = Some doc.
Proof.
  induction store as [|[k q] rest IH]; [done|].
  cbn [replace_first findById]. case_decide as Hkey.
  - intros _. cbn [findById]. by rewrite decide_True.
  - intros H. cbn [findById]. rewrite decide_False by done. by apply IH.
Qed.

Lemma replace_first_same (key : nat) (p : IProblemStatement) (store : Store) :
  findById key store = Some p → replace_first key p store = store.
Proof.
  induction store as [|[k q] rest IH]; [done|].
  cbn [replace_first findById]. case_decide as Hkey.
  - by intros [= ->].
  - intros H. by rewrite IH.
Qed.

Lemma replace_first_twice (key : nat) (a b : IProblemStatement) (store : Store) :
  replace_first key a (replace_first key b store) = replace_first key a store.
Proof.
  induction store as [|[k q] rest IH]; [done|].
  cbn [replace_first]. case_decide as Hkey.
  - cbn [replace_first]. by rewrite decide_True.
  - cbn [replace_first]. rewrite decide_False by done. by rewrite IH.
Qed.

Lemma findById_remove_other (k key : nat) (store : Store) :
  k ≠ key → findById k (remove_first key store) = findById k store.
Proof.
  intros Hk. induction store as [|[k' q] rest IH]; [done|].
  cbn [remove_first findById]. case_decide as Hkey.
  - subst k'. by rewrite decide_False by done.
  - cbn [findById]. case_decide; [done|apply IH].
Qed.

(** Removing the document stored under a key takes one occurrence of it
    out of the collection. *)
Lemma documents_remove_first (key : nat) (store : Store) (p : IProblemStatement) :
  findById key store = Some p →
  documents store ≡ₚ p :: documents (remove_first key store).
Proof.
  unfold documents. induction store as [|[k q] rest IH]; [done|].
  cbn [remove_first findById]. case_decide as Hkey.
  - by intros [= ->].
  - intros H. cbn [fmap list_fmap]. simpl. rewrite (IH H). apply Permutation_swap.
Qed.

Lemma set_status_needs_id (this : IProblemStatement) (v : string) :
  needs_id (set_status this v) = needs_id this.
Proof. done. Qed.

Lemma set_featured_needs_id (this : IProblemStatement) (v : bool) :
  needs_id (set_featured this v) = needs_id this.
Proof. done. Qed.

Lemma save_existing_cases (key : nat) (this : IProblemStatement) (store : Store) :
  (∃ e, save_existing key this store = inl e)
  ∨ save_existing key this store
    = inr (pre_save this (documents store),
           replace_first key (pre_save this (documents store)) store).
Proof.
  unfold save_existing. destruct (negb _); [left; eauto|].
  destruct (_ && _); [left; eauto|by right].
Qed.

Lemma save_existing_valid (key : nat) (this : IProblemStatement) (store : Store) :
  schema_valid this = true → needs_id this = false →
  save_existing key this store = inr (this, replace_first key this store).
Proof.
  intros Hvalid H. unfold save_existing. rewrite Hvalid. cbn [negb].
  rewrite (pre_save_keeps _ _ H).
  by rewrite bool_decide_eq_false_2 by (intros Hne; by apply Hne).
Qed.

Lemma save_existing_refused (key : nat) (this : IProblemStatement) (store : Store) :
  schema_valid this = false → save_existing key this store = inl validation_failed.
Proof. intros Hvalid. unfold save_existing. by rewrite Hvalid. Qed.

Lemma schema_valid_id (this : IProblemStatement) :
  id_validator (id this) = false → schema_valid this = false.
Proof. unfold schema_valid. by intros ->. Qed.

Lemma pre_save_status (this : IProblemStatement) (collection : list IProblemStatement) :
  status (pre_save this collection) = status this.
Proof. unfold pre_save. by destruct (needs_id this). Qed.

(** X11.  [updateProblemStatus] never touches a document other than the
    addressed one, changes nothing unless it answers 200, and answers 200
    only when the status is one of the three values, the document exists
    and the caller is its creator or an administrator; the stored
    document then carries the new status. *)
Theorem status_update_guarded (key : nat) (new_status : option string)
    (user : option AuthUser) (store : Store) :
  (∀ k, k ≠ key →
     findById k (updateProblemStatus key new_status user store).2 = findById k store)
  ∧ (is_ok (updateProblemStatus key new_status user store).1 = false →
     (updateProblemStatus key new_status user store).2 = store)
  ∧ (is_ok (updateProblemStatus key new_status user store).1 = true →
     ∃ v problem owner saved,
       new_status = Some v
       ∧ v ∈ ["Active"; "Draft"; "Archived"]
       ∧ findById key store = Some problem
       ∧ createdBy problem = Some owner
       ∧ (user_id <$> user = Some owner ∨ user_role <$> user = Some "admin")
       ∧ findById key (updateProblemStatus key new_status user store).2 = Some saved
       ∧ status saved = v
       ∧ (updateProblemStatus key new_status user store).1
         = Sent {| reply_status := 200; reply_success := true;
                   reply_message := "Problem status updated to " +:+ v;
                   reply_data := Some saved |}).
Proof.
  unfold updateProblemStatus.
  destruct new_status as [v|]; [|by repeat split].
  destruct (JS.includes _ v) eqn:Hv; cbn [negb]; [|by repeat split].
  destruct (findById key store) as [problem|] eqn:Hfind; [|by repeat split].
  destruct (createdBy problem) as [owner|] eqn:Howner; [|by repeat split].
  destruct (not_owner_nor_admin owner user) eqn:Hauth; [by repeat split|].
  destruct (save_existing_cases key (set_status problem v) store) as [[e He]|Hsave].
  { rewrite He. by repeat split. }
  rewrite Hsave. cbn [fst snd is_ok reply_status].
  split; [|split; [done|intros _]].
  - intros k Hk. by apply findById_replace_other.
  - exists v, problem, owner, (pre_save (set_status problem v) (documents store)).
    repeat split; try done.
    + by apply includes_spec.
    + unfold not_owner_nor_admin in Hauth. apply andb_false_iff in Hauth as [H|H].
      * left. apply bool_decide_eq_false in H. symmetry. by apply dec_stable.
      * right. apply bool_decide_eq_false in H. by apply dec_stable.
    + by apply (findById_replace_same _ _ problem).
    + by rewrite pre_save_status.
Qed.

Lemma status_update_guarded_witness :
  is_ok (updateProblemStatus 12 (Some "Active") (Some example_admin) example_store).1 = true
  ∧ ∃ v problem owner saved,
      Some "Active" = Some v
      ∧ v ∈ ["Active"; "Draft"; "Archived"]
      ∧ findById 12 example_store = Some problem
      ∧ createdBy problem = Some owner
      ∧ (user_id <$> Some example_admin = Some owner
         ∨ user_role <$> Some example_admin = Some "admin")
      ∧ findById 12
          (updateProblemStatus 12 (Some "Active") (Some example_admin) example_store).2
        = Some saved
      ∧ status saved = v
      ∧ (updateProblemStatus 12 (Some "Active") (Some example_admin) example_store).1
        = Sent {| reply_status := 200; reply_success := true;
                  reply_message := "Problem status updated to " +:+ v;
                  reply_data := Some saved |}.
Proof.
  split; [reflexivity|].
  apply (status_update_guarded 12 (Some "Active") (Some example_admin) example_store).
  reflexivity.
Defined.

Lemma set_featured_twice (this : IProblemStatement) :
  set_featured (set_featured this (negb (featured this))) (negb (negb (featured this)))
  = this.
Proof. destruct this. cbn. by rewrite negb_involutive. Qed.

Lemma same_fields_refl (p : IProblemStatement) : same_fields p p.
Proof. by repeat split. Qed.

Lemma toggleFeatured_valid (key : nat) (store : Store) (problem : IProblemStatement) :
  findById key store = Some problem →
  schema_valid problem = true → needs_id problem = false →
  toggleFeatured key store
  = (Sent {| reply_status := 200; reply_success := true;
             reply_message :=
               "Problem " +:+ (if negb (featured problem) then "featured" else "unfeatured")
               +:+ " successfully";
             reply_data := Some (set_featured problem (negb (featured problem))) |},
     replace_first key (set_featured problem (negb (featured problem))) store).
Proof.
  intros Hfind Hvalid Hid. unfold toggleFeatured. rewrite Hfind. cbv zeta.
  by rewrite save_existing_valid by done.
Qed.

(** X12.  For a stored document that passes validation and has a
    well-formed identifier, [toggleFeatured] answers 200 with the flag
    flipped, and a second call answers 200 with a document that has, in
    every field the application sets, the value the original had, and
    stores that document; no other document and no key changes. *)
Theorem toggleFeatured_twice (key : nat) (store : Store) (problem : IProblemStatement) :
  findById key store = Some problem →
  schema_valid problem = true →
  needs_id problem = false →
  ∃ first second once twice,
    (toggleFeatured key store).1 = Sent first
    ∧ reply_status first = 200
    ∧ reply_data first = Some once
    ∧ findById key (toggleFeatured key store).2 = Some once
    ∧ featured once = negb (featured problem)
    ∧ (toggleFeatured key (toggleFeatured key store).2).1 = Sent second
    ∧ reply_status second = 200
    ∧ reply_data second = Some twice
    ∧ findById key (toggleFeatured key (toggleFeatured key store).2).2 = Some twice
    ∧ same_fields twice problem
    ∧ (toggleFeatured key (toggleFeatured key store).2).2.*1 = store.*1
    ∧ ∀ k, k ≠ key →
        findById k (toggleFeatured key (toggleFeatured key store).2).2 = findById k store.
Proof.
  intros Hfind Hvalid Hid.
  rewrite (toggleFeatured_valid key store problem Hfind Hvalid Hid). cbn [fst snd].
  rewrite (toggleFeatured_valid key _ (set_featured problem (negb (featured problem))))
    by (by apply (findById_replace_same _ _ problem) || done).
  cbn [fst snd featured set_featured].
  rewrite replace_first_twice.
  change (set_featured (set_featured problem (negb (featured problem)))
            (negb (negb (featured problem))))
    with (set_featured (set_featured problem (negb (featured problem)))
            (negb (negb (featured problem)))).
  rewrite set_featured_twice, (replace_first_same key problem store Hfind).
  eexists _, _, _, _. split; [reflexivity|]. split; [reflexivity|].
  split; [reflexivity|]. split; [by apply (findById_replace_same _ _ problem)|].
  split; [reflexivity|]. split; [reflexivity|]. split; [reflexivity|].
  split; [reflexivity|]. split; [exact Hfind|]. split; [apply same_fields_refl|].
  split; [reflexivity|]. done.
Qed.

Lemma toggleFeatured_twice_witness :
  findById 12 example_store = Some (example_document "Cloud Computing" (Some "CLD002"))
  ∧ schema_valid (example_document "Cloud Computing" (Some "CLD002")) = true
  ∧ needs_id (example_document "Cloud Computing" (Some "CLD002")) = false
  ∧ ∃ first second once twice,
      (toggleFeatured 12 example_store).1 = Sent first
      ∧ reply_status first = 200
      ∧ reply_data first = Some once
      ∧ findById 12 (toggleFeatured 12 example_store).2 = Some once
      ∧ featured once = negb (featured (example_document "Cloud Computing" (Some "CLD002")))
      ∧ (toggleFeatured 12 (toggleFeatured 12 example_store).2).1 = Sent second
      ∧ reply_status second = 200
      ∧ reply_data second = Some twice
      ∧ findById 12 (toggleFeatured 12 (toggleFeatured 12 example_store).2).2 = Some twice
      ∧ same_fields twice (example_document "Cloud Computing" (Some "CLD002"))
      ∧ (toggleFeatured 12 (toggleFeatured 12 example_store).2).2.*1 = example_store.*1
      ∧ ∀ k, k ≠ 12 →
          findById k (toggleFeatured 12 (toggleFeatured 12 example_store).2).2
          = findById k example_store.
Proof.
  split; [reflexivity|]. split; [reflexivity|]. split; [reflexivity|].
  apply (toggleFeatured_twice 12 example_store); reflexivity.
Defined.

Lemma countDocuments_elem (p : IProblemStatement) (collection : list IProblemStatement) :
  p ∈ collection → 1 ≤ countDocuments (domain p) collection.
Proof.
  intros Hp. unfold countDocuments.
  assert (Hin : p ∈ filter (λ q, domain q = domain p) collection)
    by (by apply list_elem_of_filter).
  destruct (filter _ collection); [by apply elem_of_nil in Hin|simpl; lia].
Qed.

(** X13.  When [toggleFeatured] saves a stored document that passes
    validation and whose identifier is absent or empty, the hook numbers
    the document counting the document itself: the number is the count of
    its domain plus one, so at least 2.  The call is refused with the
    duplicate-key error, and nothing is written, exactly when that
    identifier is already stored; otherwise it answers 200 and the stored
    document has that identifier and the flag flipped. *)
Theorem toggleFeatured_numbers_legacy (key : nat) (store : Store)
    (problem : IProblemStatement) :
  findById key store = Some problem →
  schema_valid problem = true →
  JS.truthy (id problem) = false →
  1 ≤ countDocuments (domain problem) (documents store)
  ∧ ((Some (generated_id (domain problem)
              (countDocuments (domain problem) (documents store)))
      ∈ id <$> documents store)
     ∧ toggleFeatured key store
       = (Passed {| exn_message := Some "E11000 duplicate key error" |}, store)
     ∨ (Some (generated_id (domain problem)
                (countDocuments (domain problem) (documents store)))
        ∉ (id <$> documents store))
       ∧ is_ok (toggleFeatured key store).1 = true
       ∧ ∃ saved,
           findById key (toggleFeatured key store).2 = Some saved
           ∧ id saved
             = Some (generated_id (domain problem)
                       (countDocuments (domain problem) (documents store)))
           ∧ featured saved = negb (featured problem)).
Proof.
  intros Hfind Hvalid Hfalsy. split.
  { apply countDocuments_elem. by apply (findById_document key). }
  assert (Hid : needs_id problem = true).
  { unfold needs_id. by rewrite Hfalsy. }
  assert (Hchanged : Some (generated_id (domain problem)
                             (countDocuments (domain problem) (documents store)))
                     ≠ id problem).
  { intros Heq. rewrite <-Heq, generated_id_truthy in Hfalsy. discriminate Hfalsy. }
  unfold toggleFeatured. rewrite Hfind. cbv zeta. unfold save_existing.
  change (schema_valid (set_featured problem (negb (featured problem))))
    with (schema_valid problem).
  rewrite Hvalid. cbn [negb].
  rewrite (pre_save_allocates (set_featured problem _)) by done.
  change (domain (set_featured problem (negb (featured problem)))) with (domain problem).
  change (id (set_featured problem (negb (featured problem)))) with (id problem).
  revert Hchanged.
  generalize (generated_id (domain problem)
                (countDocuments (domain problem) (documents store))).
  intros g Hchanged. change (id (set_id _ g)) with (Some g).
  rewrite bool_decide_eq_true_2 by done. cbn [andb].
  destruct (id_taken (Some g) (documents store)) eqn:Htaken.
  - left. by apply id_taken_spec in Htaken.
  - right. split.
    + intros Hin%id_taken_spec. by rewrite Hin in Htaken.
    + split; [done|]. cbn [snd]. eexists. split.
      * by apply (findById_replace_same _ _ problem).
      * done.
Qed.

Lemma toggleFeatured_numbers_legacy_witness :
  findById 21 example_legacy_store = Some (example_document "Cloud Computing" None)
  ∧ schema_valid (example_document "Cloud Computing" None) = true
  ∧ JS.truthy (id (example_document "Cloud Computing" None)) = false
  ∧ ∃ saved, findById 21 (toggleFeatured 21 example_legacy_store).2 = Some saved
             ∧ id saved = Some "CLD002".
Proof.
  split; [reflexivity|]. split; [reflexivity|]. split; [reflexivity|].
  destruct (toggleFeatured_numbers_legacy 21 example_legacy_store
              (example_document "Cloud Computing" None) eq_refl eq_refl eq_refl)
    as [_ [[Htaken _]|(_ & _ & saved & Hsaved & Hid & _)]].
  - exfalso. vm_compute in Htaken.
    apply list_elem_of_singleton in Htaken. discriminate Htaken.
  - exists saved. split; [exact Hsaved|exact Hid].
Defined.

Lemma generated_ids_nth (d : string) (n : nat) (ids : list (option string)) :
  ids = (λ k, Some (generated_id d k)) <$> seq 0 n → 1 ≤ n →
  Some (generated_id d (n - 1)) ∈ ids.
Proof.
  intros -> Hn. apply list_elem_of_fmap. exists (n - 1). split; [done|].
  apply elem_of_seq. lia.
Qed.

(** X14.  Numbering by count does not survive a deletion.  When the
    documents of a domain carry the identifiers the hook hands out in
    sequence and [deleteProblem] removes one of them that is not the
    newest, the next document of that domain that passes validation and
    is saved without identifier is refused with the duplicate-key
    error. *)
Theorem delete_then_create_collides (key : nat) (store : Store)
    (victim this : IProblemStatement) (n : nat) :
  findById key store = Some victim →
  id <$> filter (λ p, domain p = domain victim) (documents store)
  = (λ k, Some (generated_id (domain victim) k)) <$> seq 0 n →
  id victim ≠ Some (generated_id (domain victim) (n - 1)) →
  schema_valid this = true →
  JS.truthy (id this) = false →
  domain this = domain victim →
  is_ok (deleteProblem key store).1 = true
  ∧ countDocuments (domain victim) (documents (deleteProblem key store).2) = n - 1
  ∧ save this (documents (deleteProblem key store).2)
    = inl {| exn_message := Some "E11000 duplicate key error" |}.
Proof.
  intros Hfind Hids Hnewest Hvalid Hfalsy Hdomain.
  assert (needs_id this = true) as Hneeds by (unfold needs_id; by rewrite Hfalsy).
  unfold deleteProblem. rewrite Hfind. cbn [fst snd is_ok reply_status].
  split; [done|].
  pose proof (documents_remove_first key store victim Hfind) as Hperm.
  assert (Hfilter : filter (λ p, domain p = domain victim) (documents store)
                    ≡ₚ victim :: filter (λ p, domain p = domain victim)
                                   (documents (remove_first key store))).
  { rewrite Hperm. by rewrite filter_cons_True. }
  assert (Hn : n = S (countDocuments (domain victim) (documents (remove_first key store)))).
  { apply (f_equal length) in Hids. rewrite !length_fmap, length_seq in Hids.
    rewrite <-Hids, Hfilter. done. }
  split; [lia|].
  unfold save. rewrite Hvalid. cbn [negb].
  rewrite (pre_save_allocates this) by done. rewrite Hdomain.
  change (id (set_id this ?v)) with (Some v).
  replace (countDocuments (domain victim) (documents (remove_first key store)))
    with (n - 1) by lia.
  assert (Htaken : id_taken (Some (generated_id (domain victim) (n - 1)))
                     (documents (remove_first key store)) = true).
  { apply id_taken_spec.
    assert (Hin : Some (generated_id (domain victim) (n - 1))
                  ∈ id <$> filter (λ p, domain p = domain victim) (documents store))
      by (apply (generated_ids_nth _ n); [done|lia]).
    apply list_elem_of_fmap in Hin as (p & Hp & Hin).
    rewrite Hfilter in Hin. apply elem_of_cons in Hin as [->|Hin].
    - by rewrite <-Hp in Hnewest.
    - apply list_elem_of_filter in Hin as [_ Hin].
      apply list_elem_of_fmap. by exists p. }
  by rewrite Htaken.
Qed.

Lemma delete_then_create_collides_witness :
  findById 12 example_store = Some (example_document "Cloud Computing" (Some "CLD002"))
  ∧ schema_valid (example_document "Cloud Computing" None) = true
  ∧ is_ok (deleteProblem 12 example_store).1 = true
  ∧ countDocuments "Cloud Computing" (documents (deleteProblem 12 example_store).2) = 2
  ∧ save (example_document "Cloud Computing" None)
      (documents (deleteProblem 12 example_store).2)
    = inl {| exn_message := Some "E11000 duplicate key error" |}.
Proof.
  split; [reflexivity|]. split; [reflexivity|].
  apply (delete_then_create_collides 12 example_store
           (example_document "Cloud Computing" (Some "CLD002"))
           (example_document "Cloud Computing" None) 3).
  - reflexivity.
  - reflexivity.
  - discriminate.
  - reflexivity.
  - reflexivity.
  - reflexivity.
Defined.

(** X10.  From 999 stored documents of a domain on, the identifier the
    hook generates fails the validator of the schema, and the hook's result
    is stored all the same.  Every later [problem.save()] on a document
    with such an identifier is refused by validation: [toggleFeatured]
    hands on the validation error, [updateProblemStatus] never answers 200,
    and neither writes anything. *)
Theorem long_id_blocks_saves (key : nat) (store : Store) (problem : IProblemStatement)
    (d : string) (n : nat) :
  findById key store = Some problem →
  id problem = Some (generated_id d n) →
  999 ≤ n →
  id_validator (id problem) = false
  ∧ toggleFeatured key store = (Passed validation_failed, store)
  ∧ ∀ new_status user,
      is_ok (updateProblemStatus key new_status user store).1 = false
      ∧ (updateProblemStatus key new_status user store).2 = store
      ∧ (∀ owner, new_status ∈ [Some "Active"; Some "Draft"; Some "Archived"] →
           createdBy problem = Some owner →
           not_owner_nor_admin owner user = false →
           updateProblemStatus key new_status user store
           = (Passed validation_failed, store)).
Proof.
  intros Hfind Hid Hn.
  assert (id_validator (id problem) = false) as Hrefused.
  { rewrite Hid. unfold id_validator. rewrite generated_id_truthy. cbn [negb orb].
    change (default EmptyString (Some ?x)) with x.
    apply not_true_is_false. rewrite generated_id_format. lia. }
  split; [exact Hrefused|]. split.
  { unfold toggleFeatured. rewrite Hfind. cbv zeta.
    by rewrite save_existing_refused by (by apply schema_valid_id). }
  intros new_status user.
  assert (∀ v, save_existing key (set_status problem v) store = inl validation_failed)
    as Hsave.
  { intros v. apply save_existing_refused. by apply schema_valid_id. }
  unfold updateProblemStatus. rewrite Hfind.
  destruct new_status as [v|]; [|split; [done|]; split; [done|]].
  - destruct (JS.includes ["Active"; "Draft"; "Archived"] v) eqn:Hv; cbn [negb].
    + destruct (createdBy problem) as [owner|] eqn:Howner.
      * destruct (not_owner_nor_admin owner user) eqn:Hauth.
        -- split; [done|]. split; [done|]. intros owner' _ [= <-]. by rewrite Hauth.
        -- rewrite Hsave. split; [done|]. split; [done|]. done.
      * split; [done|]. split; [done|]. intros owner' _ [=].
    + split; [done|]. split; [done|]. intros owner Hin. exfalso.
      assert (v ∈ ["Active"; "Draft"; "Archived"]) as Hin'.
      { repeat (apply elem_of_cons in Hin as [[= ->]|Hin];
                [repeat first [apply list_elem_of_here | apply list_elem_of_further]|]).
        by apply elem_of_nil in Hin. }
      apply includes_spec in Hin'. by rewrite Hin' in Hv.
  - intros owner Hin. exfalso.
    repeat (apply elem_of_cons in Hin as [[=]|Hin]). by apply elem_of_nil in Hin.
Qed.

Lemma long_id_blocks_saves_witness :
  findById 51 example_crowded_store
  = Some (example_document "Cloud Computing" (Some "CLD1000"))
  ∧ id (example_document "Cloud Computing" (Some "CLD1000"))
    = Some (generated_id "Cloud Computing" 999)
  ∧ 999 ≤ 999
  ∧ toggleFeatured 51 example_crowded_store = (Passed validation_failed, example_crowded_store)
  ∧ updateProblemStatus 51 (Some "Active") (Some example_admin) example_crowded_store
    = (Passed validation_failed, example_crowded_store).
Proof.
  assert (id (example_document "Cloud Computing" (Some "CLD1000"))
          = Some (generated_id "Cloud Computing" 999)) as Hid by (vm_compute; reflexivity).
  destruct (long_id_blocks_saves 51 example_crowded_store
              (example_document "Cloud Computing" (Some "CLD1000"))
              "Cloud Computing" 999 eq_refl Hid (le_n 999)) as (_ & Htoggle & Hstatus).
  split; [reflexivity|]. split; [exact Hid|]. split; [lia|]. split; [exact Htoggle|].
  destruct (Hstatus (Some "Active") (Some example_admin)) as (_ & _ & Hpassed).
  apply (Hpassed "64f0c2a9e1b2c3d4e5f60718").
  - apply list_elem_of_here.
  - reflexivity.
  - reflexivity.
Defined.

Lemma findById_absent (key : nat) (store : Store) :
  key ∉ store.*1 → findById key store = None.
Proof.
  induction store as [|[k q] store IH]; [done|].
  cbn [fmap list_fmap fst findById]. rewrite not_elem_of_cons. intros [Hk Hrest].
  rewrite decide_False by done. by apply IH.
Qed.

Lemma findById_remove_same (key : nat) (store : Store) :
  NoDup store.*1 → findById key (remove_first key store) = None.
Proof.
  induction store as [|[k q] store IH]; [done|].
  cbn [fmap list_fmap fst]. intros [Hfresh Hkeys]%NoDup_cons.
  cbn [remove_first]. case_decide as Hk.
  - subst k. by apply findById_absent.
  - cbn [findById]. rewrite decide_False by done. by apply IH.
Qed.

(** X24.  With distinct keys, [deleteProblem] answers 200 exactly when the
    document exists; afterwards the document cannot be found, every other
    document is found as before, and deleting again answers 404 and
    changes nothing. *)
Theorem deleteProblem_removes (key : nat) (store : Store) :
  NoDup store.*1 →
  (is_ok (deleteProblem key store).1 = true ↔ is_Some (findById key store))
  ∧ findById key (deleteProblem key store).2 = None
  ∧ (∀ k, k ≠ key → findById k (deleteProblem key store).2 = findById k store)
  ∧ deleteProblem key (deleteProblem key store).2
    = (Sent not_found, (deleteProblem key store).2).
Proof.
  intros Hkeys.
  assert (Hgone : findById key (deleteProblem key store).2 = None).
  { unfold deleteProblem. destruct (findById key store) eqn:Hfind; [|done].
    cbn [snd]. by apply findById_remove_same. }
  split; [|split; [exact Hgone|split]].
  - unfold deleteProblem. destruct (findById key store); cbn [fst is_ok reply_status].
    + split; [by eexists|done].
    + split; [done|]. by intros [? ?].
  - intros k Hk. unfold deleteProblem. destruct (findById key store); [|done].
    cbn [snd]. by apply findById_remove_other.
  - unfold deleteProblem at 1. by rewrite Hgone.
Qed.

Lemma deleteProblem_removes_witness :
  NoDup example_store.*1
  ∧ is_Some (findById 12 example_store)
  ∧ is_ok (deleteProblem 12 example_store).1 = true
  ∧ findById 12 (deleteProblem 12 example_store).2 = None
  ∧ deleteProblem 12 (deleteProblem 12 example_store).2
    = (Sent not_found, (deleteProblem 12 example_store).2).
Proof.
  assert (Hkeys : NoDup example_store.*1).
  { cbn. repeat (apply NoDup_cons; split; [intros H; inversion H; subst|]).
    all: try apply NoDup_nil_2.
    all: repeat match goal with
                | H : _ ∈ _ :: _ |- _ => inversion H; subst; clear H
                | H : _ ∈ [] |- _ => inversion H
                end. }
  assert (Hfound : is_Some (findById 12 example_store)) by (by eexists).
  destruct (deleteProblem_removes 12 example_store Hkeys) as (Hok & Hgone & _ & Hagain).
  split; [exact Hkeys|]. split; [exact Hfound|].
  split; [by apply Hok|]. split; [exact Hgone|exact Hagain].
Defined.

(** ** Authentication and roles *)

Lemma split_space_plain (s : string) : no_space s = true → JS.split " "%char s = [s].
Proof.
  induction s as [|c s IH]; [done|]. unfold no_space in *. simpl.
  intros [Hc Hs]%andb_prop. apply negb_true_iff in Hc. by rewrite Hc, (IH Hs).
Qed.

Lemma split_space_app (x s : string) :
  no_space x = true →
  JS.split " "%char (x +:+ String " "%char s) = x :: JS.split " "%char s.
Proof.
  induction x as [|c x IH]; [done|]. unfold no_space in *.
  cbn [String.list_ascii_of_string forallb].
  intros [Hc Hx]%andb_prop. apply negb_true_iff in Hc.
  change (String c x +:+ String " "%char s) with (String c (x +:+ String " "%char s)).
  cbn [JS.split]. by rewrite Hc, (IH Hx).
Qed.

Lemma prefix_app (p s r : string) :
  String.prefix p s = true → String.prefix p (s +:+ r) = true.
Proof.
  revert s. induction p as [|c p IH]; intros s.
  - intros _. by destruct (s +:+ r).
  - destruct s as [|c' s]; [done|].
    change (String c' s +:+ r) with (String c' (s +:+ r)). cbn [String.prefix].
    destruct (ascii_dec c c'); [apply IH|done].
Qed.

Lemma prefix_nonempty (p s : string) :
  p ≠ EmptyString → String.prefix p s = true → JS.truthy (Some s) = true.
Proof. destruct p; [done|]. by destruct s. Qed.

Lemma updateProblemStatus_changes (key : nat) (new_status : option string)
    (user : option AuthUser) (store : Store) :
  (updateProblemStatus key new_status user store).2 ≠ store →
  ∃ problem owner,
    findById key store = Some problem
    ∧ createdBy problem = Some owner
    ∧ not_owner_nor_admin owner user = false.
Proof.
  unfold updateProblemStatus.
  destruct new_status as [v|]; [|done].
  destruct (negb _); [done|].
  destruct (findById key store) as [problem|]; [|done].
  destruct (createdBy problem) as [owner|] eqn:Howner; [|done].
  destruct (not_owner_nor_admin owner user) eqn:Hauth; [done|].
  intros _. by exists problem, owner.
Qed.

Lemma toggleFeatured_changes (key : nat) (store : Store) :
  (toggleFeatured key store).2 ≠ store → is_Some (findById key store).
Proof. unfold toggleFeatured. by destruct (findById key store). Qed.

Lemma deleteProblem_changes (key : nat) (store : Store) :
  (deleteProblem key store).2 ≠ store → is_Some (findById key store).
Proof. unfold deleteProblem. by destruct (findById key store). Qed.

Section MiddlewareFacts.
Context {Error : Type}.
Variable createError : string → nat → Error.
Variable jwt_verify : string → Exception + option string.
Variable User_findById : option string → Exception + option AuthUser.

(** X15.  Whatever goes wrong in [protect] (no header, another scheme, no
    token, a token that does not verify, a user that no longer exists),
    the error handed on is the same 401 [Not authorized to access this
    route]; the text [No user found with this token] never leaves the
    function.  The request goes on exactly when the second
    space-separated piece of a header starting with [Bearer] is a
    non-empty token that verifies and names an existing user, and that
    user is put on the request. *)
Theorem protect_uniform_refusal (authorization : option string) :
  (∀ e, protect createError jwt_verify User_findById authorization = inl e →
        e = createError "Not authorized to access this route" 401)
  ∧ (∀ u, protect createError jwt_verify User_findById authorization = inr u ↔
          ∃ header token decoded_id,
            authorization = Some header
            ∧ String.prefix "Bearer" header = true
            ∧ JS.split " "%char header !! 1 = Some token
            ∧ token ≠ EmptyString
            ∧ jwt_verify token = inr decoded_id
            ∧ User_findById decoded_id = inr (Some u)).
Proof.
  unfold protect, bearer_token, protect_inner. split.
  - intros e.
    destruct (JS.truthy authorization && _); [|by intros [= <-]].
    destruct (JS.split _ _ !! 1) as [[|c token]|]; cbn [JS.truthy negb default];
      try by intros [= <-].
    destruct (jwt_verify _) as [?|?]; [by intros [= <-]|].
    destruct (User_findById _) as [?|[?|]]; by intros [= <-].
  - intros u. split.
    + destruct authorization as [[|c header]|]; try done.
      cbn [JS.truthy default andb].
      destruct (String.prefix _ _) eqn:Hprefix; [|done].
      destruct (JS.split _ _ !! 1) as [[|c' token]|] eqn:Htoken;
        cbn [JS.truthy negb default]; try done.
      destruct (jwt_verify _) as [?|decoded_id] eqn:Hverify; [done|].
      destruct (User_findById _) as [?|[user|]] eqn:Huser; try done.
      intros [= <-]. by exists (String c header), (String c' token), decoded_id.
    + intros (header & token & decoded_id & -> & Hprefix & Htoken & Hne & Hverify & Huser).
      destruct header as [|c header]; [done|].
      cbn [JS.truthy andb]. change (default EmptyString (Some ?x)) with x.
      rewrite Hprefix, Htoken.
      destruct token as [|c' token]; [done|]. cbn [JS.truthy negb].
      change (default EmptyString (Some ?x)) with x.
      by rewrite Hverify, Huser.
Qed.

(** X16.  [protect] checks the scheme only as a prefix of the header and
    reads the token as the text between the first and the second space:
    a header whose first word merely starts with [Bearer], and anything
    that follows a second space, are treated like [Bearer <token>]. *)
Theorem protect_reads_second_piece (scheme token junk : string) :
  String.prefix "Bearer" scheme = true →
  no_space scheme = true →
  no_space token = true →
  protect createError jwt_verify User_findById
    (Some (scheme +:+ " " +:+ token +:+ " " +:+ junk))
  = protect createError jwt_verify User_findById (Some ("Bearer " +:+ token)).
Proof.
  intros Hprefix Hscheme Htoken.
  assert (Hleft : bearer_token (Some (scheme +:+ " " +:+ token +:+ " " +:+ junk))
                  = Some token).
  { unfold bearer_token. change (default EmptyString (Some ?x)) with x.
    rewrite (prefix_nonempty "Bearer") by (done || by apply prefix_app).
    rewrite prefix_app by done. cbn [andb].
    change (" " +:+ token +:+ " " +:+ junk)
      with (String " "%char (token +:+ String " "%char junk)).
    by rewrite !split_space_app by done. }
  assert (Hright : bearer_token (Some ("Bearer " +:+ token)) = Some token).
  { unfold bearer_token. change (default EmptyString (Some ?x)) with x.
    change ("Bearer " +:+ token) with ("Bearer" +:+ String " "%char token).
    rewrite (prefix_nonempty "Bearer") by (done || by apply prefix_app).
    rewrite prefix_app by done. cbn [andb].
    by rewrite split_space_app, split_space_plain by done. }
  unfold protect. by rewrite Hleft, Hright.
Qed.

Lemma guarded_changes (roles : list string)
    (handler : AuthUser → Store → Handled * Store)
    (authorization : option string) (store : Store) :
  (guarded createError jwt_verify User_findById roles handler authorization store).2
  ≠ store →
  ∃ u, protect createError jwt_verify User_findById authorization = inr u
       ∧ user_role u ∈ roles
       ∧ (handler u store).2 ≠ store.
Proof.
  unfold guarded.
  destruct (protect _ _ _ authorization) as [e|u]; [done|].
  unfold authorize. destruct (JS.includes roles (user_role u)) eqn:Hrole; [|done].
  cbn [negb]. destruct (handler u store) as [out store'] eqn:Hhandler.
  cbn [snd]. intros Hne. exists u. split; [done|]. split; [by apply includes_spec|by rewrite Hhandler].
Qed.

(** X17.  Through the routes, a request changes the collection only when
    its token names a user with an allowed role: an administrator for
    [PUT /:id/featured] and [DELETE /:id]; for [PUT /:id/status] an
    administrator, or a faculty member who created the addressed
    document.  A creator with any other role is turned away with 403
    before the handler runs, although the handler alone would let the
    creator through. *)
Theorem routes_need_role (authorization : option string) (key : nat)
    (new_status : option string) (store : Store) :
  ((route_status createError jwt_verify User_findById
      authorization key new_status store).2 ≠ store →
   ∃ u problem,
     protect createError jwt_verify User_findById authorization = inr u
     ∧ findById key store = Some problem
     ∧ (user_role u = "admin"
        ∨ user_role u = "faculty" ∧ createdBy problem = Some (user_id u)))
  ∧ ((route_featured createError jwt_verify User_findById authorization key store).2
     ≠ store
     ∨ (route_delete createError jwt_verify User_findById authorization key store).2
       ≠ store →
     ∃ u, protect createError jwt_verify User_findById authorization = inr u
          ∧ user_role u = "admin"
          ∧ is_Some (findById key store))
  ∧ (∀ u, protect createError jwt_verify User_findById authorization = inr u →
          user_role u ∉ ["admin"; "faculty"] →
          route_status createError jwt_verify User_findById
            authorization key new_status store
          = (Refused
               (createError
                  ("User role " +:+ user_role u
                   +:+ " is not authorized to access this route") 403),
             store)).
Proof.
  split; [|split].
  - intros (u & Hu & Hrole & Hchanged)%guarded_changes.
    apply updateProblemStatus_changes in Hchanged as (problem & owner & Hfind & Howner & Hauth).
    exists u, problem. split; [done|]. split; [done|].
    unfold not_owner_nor_admin in Hauth. cbn [fmap option_fmap option_map] in Hauth.
    apply andb_false_iff in Hauth as [H|H]; apply bool_decide_eq_false in H;
      apply dec_stable in H.
    + injection H as ->.
      apply elem_of_cons in Hrole as [Hrole|Hrole]; [by left|].
      apply list_elem_of_singleton in Hrole. by right.
    + injection H as H. by left.
  - intros [(u & Hu & Hrole & Hchanged)%guarded_changes
           |(u & Hu & Hrole & Hchanged)%guarded_changes];
      exists u; (split; [done|]); apply list_elem_of_singleton in Hrole;
      (split; [done|]).
    + by apply toggleFeatured_changes.
    + by apply deleteProblem_changes.
  - intros u Hu Hrole. unfold route_status, guarded. rewrite Hu. unfold authorize.
    destruct (JS.includes _ (user_role u)) eqn:Hin; [|done].
    by apply includes_spec in Hin.
Qed.
End MiddlewareFacts.

Lemma protect_uniform_refusal_witness :
  ∃ e, protect example_createError example_jwt_verify example_User_findById
         (Some "Bearer token-of-nobody") = inl e
       ∧ e = example_createError "Not authorized to access this route" 401.
Proof.
  eexists. split; [reflexivity|].
  apply (protect_uniform_refusal example_createError example_jwt_verify
           example_User_findById (Some "Bearer token-of-nobody")).
  reflexivity.
Defined.

Lemma protect_reads_second_piece_witness :
  String.prefix "Bearer" "BearerOfNews" = true
  ∧ no_space "BearerOfNews" = true
  ∧ no_space "token-of-admin" = true
  ∧ protect example_createError example_jwt_verify example_User_findById
      (Some ("BearerOfNews" +:+ " " +:+ "token-of-admin" +:+ " " +:+ "and more words"))
    = protect example_createError example_jwt_verify example_User_findById
        (Some ("Bearer " +:+ "token-of-admin")).
Proof.
  split; [reflexivity|]. split; [reflexivity|]. split; [reflexivity|].
  apply (protect_reads_second_piece example_createError example_jwt_verify
           example_User_findById "BearerOfNews" "token-of-admin" "and more words");
    reflexivity.
Defined.

Lemma routes_need_role_witness :
  protect example_createError example_jwt_verify example_User_findById
    (Some "Bearer token-of-student") = inr example_student
  ∧ (user_role example_student ∉ ["admin"; "faculty"])
  ∧ route_status example_createError example_jwt_verify example_User_findById
      (Some "Bearer token-of-student") 31 (Some "Active") example_student_store
    = (Refused
         (example_createError
            ("User role " +:+ user_role example_student
             +:+ " is not authorized to access this route") 403),
       example_student_store)
  ∧ is_ok (updateProblemStatus 31 (Some "Active") (Some example_student)
             example_student_store).1 = true.
Proof.
  split; [reflexivity|].
  assert (Hrole : user_role example_student ∉ ["admin"; "faculty"]).
  { intros H. apply elem_of_cons in H as [H|H]; [discriminate H|].
    apply list_elem_of_singleton in H. discriminate H. }
  split; [exact Hrole|]. split; [|reflexivity].
  apply (routes_need_role example_createError example_jwt_verify example_User_findById
           (Some "Bearer token-of-student") 31 (Some "Active") example_student_store).
  - reflexivity.
  - exact Hrole.
Defined.

(** ** The identifier migration *)

Lemma update_id_fresh (key : nat) (v : string) (done rest : Store)
    (p : IProblemStatement) :
  key ∉ done.*1 →
  update_id key v (done ++ (key, p) :: rest) = done ++ (key, set_id p v) :: rest.
Proof.
  induction done as [|[k q] done IH]; intros Hfresh.
  - cbn [app update_id]. by rewrite decide_True.
  - cbn [app update_id]. rewrite decide_False.
    + rewrite IH; [done|]. intros Hin. apply Hfresh. by apply list_elem_of_further.
    + intros ->. apply Hfresh. apply list_elem_of_here.
Qed.

Lemma count_filter_fmap {A : Type} (f : A → string) (d : string) (l : list A) :
  length (filter (λ x, f x = d) l) = length (filter (λ y, y = d) (f <$> l)).
Proof.
  induction l as [|x l IH]; [done|]. cbn [fmap list_fmap].
  rewrite !filter_cons. repeat case_decide; cbn [length]; rewrite ?IH; done.
Qed.

Lemma count_before_split (d : string) (key : nat) (done rest : Store)
    (before : list IProblemStatement) :
  Forall (λ k, k < key) done.*1 →
  Forall (λ k, key ≤ k) rest.*1 →
  (domain ∘ snd) <$> done = domain <$> before →
  count_before d key (done ++ rest) = countDocuments d before.
Proof.
  intros Hdone Hrest Hdomains. unfold count_before, countDocuments.
  rewrite filter_app, length_app.
  replace (filter (λ entry, domain entry.2 = d ∧ entry.1 < key) rest) with (@nil (nat * IProblemStatement)).
  - rewrite Nat.add_0_r, (count_filter_fmap domain), <-Hdomains.
    rewrite <-(count_filter_fmap (domain ∘ snd)).
    f_equal. clear Hdomains. induction done as [|[k q] done IH]; [done|].
    cbn [fmap list_fmap fst] in Hdone. apply Forall_cons in Hdone as [Hk Hdone].
    rewrite !filter_cons. cbn [fst snd compose]. rewrite (IH Hdone).
    destruct (decide (domain q = d)) as [Hd|Hd].
    + by rewrite decide_True by done.
    + by rewrite decide_False by (by intros [? _]).
  - clear -Hrest. induction rest as [|[k q] rest IH]; [done|].
    cbn [fmap list_fmap fst] in Hrest. apply Forall_cons in Hrest as [Hk Hrest].
    rewrite filter_cons. cbn [fst snd].
    rewrite decide_False by (intros [_ ?]; lia). by apply IH.
Qed.

Lemma migrate_loop_sorted (before : list IProblemStatement) (done rest : Store) :
  StronglySorted lt (done.*1 ++ rest.*1) →
  (domain ∘ snd) <$> done = domain <$> before →
  migrate_loop false rest (done ++ rest) = (done ++ saved_in_turn before rest, None).
Proof.
  revert before done. induction rest as [|[key p] rest IH]; intros before done Hsorted Hdomains.
  - by rewrite !app_nil_r.
  - cbn [migrate_loop saved_in_turn andb].
    apply StronglySorted_app in Hsorted as Hparts.
    destruct Hparts as (Hcross & _ & Htail). cbn [fmap list_fmap fst] in Hcross, Htail.
    assert (Hdone : Forall (λ k, k < key) done.*1).
    { apply Forall_forall. intros k Hk. apply Hcross; [done|apply list_elem_of_here]. }
    assert (Hrest : Forall (λ k, key ≤ k) ((key, p) :: rest).*1).
    { cbn [fmap list_fmap fst].
      apply StronglySorted_inv in Htail as [_ Hall]. constructor; [lia|].
      eapply Forall_impl; [exact Hall|]. cbn. lia. }
    assert (Hfresh : key ∉ done.*1).
    { intros Hin. rewrite Forall_forall in Hdone. specialize (Hdone key Hin). lia. }
    assert (Hnext : StronglySorted lt ((done ++ [(key, set_id p (generated_id (domain p) (countDocuments (domain p) before)))]).*1 ++ rest.*1)
                    ∧ StronglySorted lt ((done ++ [(key, p)]).*1 ++ rest.*1)).
    { rewrite !fmap_app, <-!app_assoc. done. }
    destruct Hnext as [Hnext1 Hnext2].
    unfold pre_save. destruct (needs_id p) eqn:Hneeds.
    + rewrite (count_before_split _ _ done ((key, p) :: rest) before) by done.
      rewrite update_id_fresh by done.
      rewrite (cons_middle _ done rest), app_assoc.
      rewrite (IH (before ++ [p])); [by rewrite <-app_assoc| done |].
      rewrite !fmap_app, Hdomains. done.
    + rewrite (cons_middle _ done rest), app_assoc.
      rewrite (IH (before ++ [p])); [by rewrite <-app_assoc| done |].
      rewrite !fmap_app, Hdomains. done.
Qed.



Lemma pre_save_settled (p : IProblemStatement) (collection : list IProblemStatement) :
  length collection ≤ 998 → needs_id (pre_save p collection) = false.
Proof.
  intros Hlen. unfold pre_save. destruct (needs_id p) eqn:Hneeds; [|done].
  apply (valid_id_kept _ (generated_id (domain p) (countDocuments (domain p) collection)));
    [done|].
  apply generated_id_format. unfold countDocuments.
  pose proof (length_filter (λ q, domain q = domain p) collection). lia.
Qed.

Lemma saved_in_turn_settled (before : list IProblemStatement) (rest : Store) :
  length before + length rest ≤ 999 →
  Forall (λ entry, needs_id entry.2 = false) (saved_in_turn before rest).
Proof.
  revert before. induction rest as [|[key p] rest IH]; intros before Hlen; [constructor|].
  cbn [saved_in_turn]. cbn [length] in Hlen. constructor.
  - cbn [snd]. apply pre_save_settled. lia.
  - apply IH. rewrite length_app. cbn [length]. lia.
Qed.

Lemma saved_in_turn_domains (before : list IProblemStatement) (rest : Store)
    (entry : nat * IProblemStatement) :
  Forall (λ e, domain e.2 ∈ validDomains) rest →
  entry ∈ saved_in_turn before rest → domain entry.2 ∈ validDomains.
Proof.
  revert before. induction rest as [|[key p] rest IH]; intros before Hrest Hentry.
  - by apply elem_of_nil in Hentry.
  - apply Forall_cons in Hrest as [Hp Hrest]. cbn [saved_in_turn] in Hentry.
    apply elem_of_cons in Hentry as [->|Hentry]; [|by apply (IH (before ++ [p]))].
    cbn [snd] in *. by rewrite pre_save_domain.
Qed.

Lemma migrate_loop_settled (unique_index : bool) (problems store : Store) :
  Forall (λ entry, needs_id entry.2 = false) problems →
  migrate_loop unique_index problems store = (store, None).
Proof.
  induction 1 as [|[key p] problems Hp _ IH]; [done|].
  cbn [migrate_loop]. cbn [snd] in Hp. by rewrite Hp.
Qed.

Lemma migrate_loop_completed (unique_index : bool) (problems store : Store) :
  (migrate_loop unique_index problems store).2 = None →
  migrate_loop unique_index problems store = migrate_loop false problems store.
Proof.
  revert store. induction problems as [|[key p] problems IH]; intros store; [done|].
  cbn [migrate_loop andb]. destruct (needs_id p); [|apply IH].
  destruct (unique_index && _); [done|apply IH].
Qed.

Lemma migrateIds_sorted (store : Store) :
  StronglySorted lt store.*1 → migrateIds false store = (saved_in_turn [] store, None).
Proof.
  intros Hsorted. unfold migrateIds.
  exact (migrate_loop_sorted [] [] store Hsorted eq_refl).
Qed.



(** X19.  After a completed run on a collection of at most 999 documents
    whose keys grow along it and whose domains are among the eight of the
    table, every document has a well-formed identifier, and a second run
    changes nothing. *)
Theorem migrateIds_settles (unique_index : bool) (store : Store) :
  StronglySorted lt store.*1 →
  Forall (λ entry, domain entry.2 ∈ validDomains) store →
  length store ≤ 999 →
  (migrateIds unique_index store).2 = None →
  Forall (λ entry, needs_id entry.2 = false ∧ domain entry.2 ∈ validDomains)
    (migrateIds unique_index store).1
  ∧ migrateIds unique_index (migrateIds unique_index store).1
    = ((migrateIds unique_index store).1, None).
Proof.
  intros Hsorted Hdomains Hlen Hdone.
  assert (Hresult : (migrateIds unique_index store).1 = saved_in_turn [] store).
  { unfold migrateIds in *. rewrite (migrate_loop_completed _ _ _ Hdone).
    fold (migrateIds false store). by rewrite migrateIds_sorted. }
  assert (Hvalid : Forall (λ entry, needs_id entry.2 = false)
                     (migrateIds unique_index store).1).
  { rewrite Hresult. by apply saved_in_turn_settled. }
  split.
  - apply Forall_forall. intros entry Hentry. split.
    + rewrite Forall_forall in Hvalid. by apply Hvalid.
    + rewrite Hresult in Hentry. by apply (saved_in_turn_domains [] store).
  - unfold migrateIds at 1. by apply migrate_loop_settled.
Qed.

Lemma migrateIds_settles_witness :
  StronglySorted lt example_old_store.*1
  ∧ Forall (λ entry, domain entry.2 ∈ validDomains) example_old_store
  ∧ length example_old_store ≤ 999
  ∧ (migrateIds true example_old_store).2 = None
  ∧ Forall (λ entry, needs_id entry.2 = false ∧ domain entry.2 ∈ validDomains)
      (migrateIds true example_old_store).1
  ∧ migrateIds true (migrateIds true example_old_store).1
    = ((migrateIds true example_old_store).1, None).
Proof.
  assert (Hsorted : StronglySorted lt example_old_store.*1).
  { cbn. repeat (constructor; [|repeat (constructor; [lia|]); constructor]).
    constructor. }
  assert (Hdomains : Forall (λ entry, domain entry.2 ∈ validDomains) example_old_store).
  { repeat (constructor;
            [cbn; repeat first [apply list_elem_of_here | apply list_elem_of_further]|]).
    constructor. }
  assert (Hlen : length example_old_store ≤ 999) by (cbn; lia).
  split; [exact Hsorted|]. split; [exact Hdomains|]. split; [exact Hlen|].
  split; [reflexivity|].
  apply (migrateIds_settles true example_old_store Hsorted Hdomains Hlen). reflexivity.
Defined.

Lemma update_id_keys (key : nat) (v : string) (store : Store) :
  (update_id key v store).*1 = store.*1.
Proof.
  induction store as [|[k q] store IH]; [done|]. cbn [update_id].
  case_decide; [done|]. cbn [fmap list_fmap fst]. by rewrite <-IH.
Qed.

Lemma findById_update_id_other (k key : nat) (v : string) (store : Store) :
  k ≠ key → findById k (update_id key v store) = findById k store.
Proof.
  intros Hk. induction store as [|[k' q] rest IH]; [done|].
  cbn [update_id findById]. case_decide as Hkey.
  - subst k'. cbn [findById]. by rewrite !decide_False by done.
  - cbn [findById]. case_decide; [done|apply IH].
Qed.

Lemma findById_update_id_same (key : nat) (v : string) (store : Store) :
  findById key (update_id key v store) = (λ q, set_id q v) <$> findById key store.
Proof.
  induction store as [|[k q] rest IH]; [done|].
  cbn [update_id findById]. case_decide as Hkey.
  - cbn [findById]. by rewrite decide_True.
  - cbn [findById]. by rewrite decide_False.
Qed.

Lemma findById_NoDup (key : nat) (p : IProblemStatement) (store : Store) :
  NoDup store.*1 → (key, p) ∈ store → findById key store = Some p.
Proof.
  induction store as [|[k q] store IH]; intros Hkeys Hin; [by apply elem_of_nil in Hin|].
  cbn [fmap list_fmap fst] in Hkeys. apply NoDup_cons in Hkeys as [Hk Hkeys].
  cbn [findById]. apply elem_of_cons in Hin as [[= -> ->]|Hin].
  - by rewrite decide_True.
  - rewrite decide_False; [by apply IH|]. intros ->. apply Hk.
    apply list_elem_of_fmap. by exists (key, p).
Qed.

(** A stored document and what the migration may have made of it: the
    same document, or, when its identifier is not well-formed, the same
    document with another identifier. *)
Lemma migrate_loop_frame (unique_index : bool) (store0 problems store : Store) :
  (∀ key p, (key, p) ∈ problems → findById key store0 = Some p) →
  store.*1 = store0.*1
  ∧ (∀ key p, findById key store0 = Some p →
       ∃ q, findById key store = Some q
            ∧ (q = p ∨ needs_id p = true ∧ ∃ v, q = set_id p v)) →
  (migrate_loop unique_index problems store).1.*1 = store0.*1
  ∧ (∀ key p, findById key store0 = Some p →
       ∃ q, findById key (migrate_loop unique_index problems store).1 = Some q
            ∧ (q = p ∨ needs_id p = true ∧ ∃ v, q = set_id p v)).
Proof.
  revert store. induction problems as [|[key problem] problems IH];
    intros store Hsnapshot Hinv; [done|].
  assert (Hrest : ∀ k p, (k, p) ∈ problems → findById k store0 = Some p).
  { intros k p Hin. apply Hsnapshot. by apply list_elem_of_further. }
  cbn [migrate_loop]. destruct (needs_id problem) eqn:Hneeds; [|by apply IH].
  destruct (unique_index && _); [done|]. apply IH; [done|].
  destruct Hinv as [Hkeys Hdocs]. split; [by rewrite update_id_keys|].
  intros k p Hp. destruct (Hdocs k p Hp) as (q & Hq & Hcases).
  destruct (decide (k = key)) as [->|Hk].
  - rewrite findById_update_id_same, Hq. cbn [fmap option_fmap option_map].
    eexists. split; [done|]. right.
    assert (p = problem) as ->.
    { specialize (Hsnapshot key problem (list_elem_of_here _ _)). congruence. }
    split; [done|]. destruct Hcases as [->|(_ & v & ->)]; eauto.
  - rewrite findById_update_id_other by done. eauto.
Qed.

(** X20.  Whether it completes or stops at a refused update, the
    migration keeps the keys and the order of the collection and leaves a
    document whose identifier is well-formed as it is; in every other
    document the fields from [title] to [viewCount] keep their values. *)
Theorem migrateIds_only_renames (unique_index : bool) (store : Store) :
  NoDup store.*1 →
  (migrateIds unique_index store).1.*1 = store.*1
  ∧ (∀ key p, findById key store = Some p →
       ∃ q, findById key (migrateIds unique_index store).1 = Some q
            ∧ (needs_id p = false → q = p)
            ∧ same_fields_but_id q p).
Proof.
  intros Hkeys. unfold migrateIds.
  destruct (migrate_loop_frame unique_index store store store) as [Hsame Hdocs].
  - intros key p Hin. by apply findById_NoDup.
  - split; [done|]. intros key p Hp. exists p. eauto.
  - split; [exact Hsame|]. intros key p Hp.
    destruct (Hdocs key p Hp) as (q & Hq & [->|(Hneeds & v & ->)]).
    + exists p. split; [done|]. split; [done|]. by repeat split.
    + eexists. split; [exact Hq|]. split; [by rewrite Hneeds|]. by repeat split.
Qed.

Lemma migrateIds_only_renames_witness :
  NoDup example_old_store.*1
  ∧ (migrateIds true example_old_store).1.*1 = example_old_store.*1
  ∧ (∀ key p, findById key example_old_store = Some p →
       ∃ q, findById key (migrateIds true example_old_store).1 = Some q
            ∧ (needs_id p = false → q = p)
            ∧ same_fields_but_id q p).
Proof.
  assert (Hkeys : NoDup example_old_store.*1).
  { cbn. repeat (apply NoDup_cons; split; [intros H; inversion H; subst|]).
    all: try apply NoDup_nil_2.
    all: repeat match goal with
                | H : _ ∈ _ :: _ |- _ => inversion H; subst; clear H
                | H : _ ∈ [] |- _ => inversion H
                end. }
  split; [exact Hkeys|].
  exact (migrateIds_only_renames true example_old_store Hkeys).
Defined.

(** ** Listing with pages *)

Lemma ceil_div_bounds (total limit : nat) :
  1 ≤ limit →
  total ≤ ceil_div total limit * limit
  ∧ (1 ≤ ceil_div total limit → (ceil_div total limit - 1) * limit < total)
  ∧ (total = 0 → ceil_div total limit = 0).
Proof.
  intros Hlimit. unfold ceil_div.
  pose proof (Nat.div_mod_eq total limit) as Hdiv.
  pose proof (Nat.mod_upper_bound total limit ltac:(lia)) as Hmod.
  destruct (Nat.eqb_spec (total mod limit) 0) as [Hzero|Hpos].
  - rewrite Hzero, Nat.add_0_r in *. repeat split; [nia|nia|].
    intros ->. by rewrite Nat.Div0.div_0_l.
  - repeat split; [nia|nia|]. intros ->. by rewrite Nat.Div0.mod_0_l in Hpos.
Qed.

Lemma chunks_concat {A : Type} (limit n : nat) (l : list A) :
  length l ≤ n * limit →
  concat ((λ k, take limit (drop (k * limit) l)) <$> seq 0 n) = l.
Proof.
  revert l. induction n as [|n IH]; intros l Hlen.
  - destruct l; [done|simpl in Hlen; lia].
  - cbn [seq fmap list_fmap concat]. rewrite <-fmap_S_seq, <-list_fmap_compose.
    rewrite Nat.mul_0_l, drop_0.
    etransitivity; [|apply (take_drop limit l)]. f_equal.
    etransitivity; [|apply (IH (drop limit l)); rewrite length_drop; lia].
    f_equal. apply list_fmap_ext. intros _ k _. cbn [compose].
    rewrite drop_drop. do 2 f_equal.
Qed.

(** X21.  For a limit of at least 1, the pages 1 to [pages] that
    [getProblems] reports, read one after the other, are exactly the
    matching documents, newest first, each once; every page holds at most
    [limit] documents and reports its length as [count]; a page holds no
    document exactly when its number is beyond [pages]. *)
Theorem pages_cover_matches (q : Query) (limit : nat)
    (collection : list IProblemStatement) :
  1 ≤ limit →
  concat ((λ page, page_data q page limit collection)
            <$> seq 1 (ceil_div (length (filter (λ p, matches q p = true) collection)) limit))
  = reverse (filter (λ p, matches q p = true) collection)
  ∧ ∀ page, 1 ≤ page →
      ∃ listing,
        getProblems q (Some page) (Some limit) collection = inr listing
        ∧ listing_pages listing
          = Some (ceil_div (length (filter (λ p, matches q p = true) collection)) limit)
        ∧ listing_total listing = length (filter (λ p, matches q p = true) collection)
        ∧ listing_count listing = length (listing_data listing)
        ∧ listing_count listing ≤ limit
        ∧ (listing_data listing = []
           ↔ ceil_div (length (filter (λ p, matches q p = true) collection)) limit < page).
Proof.
  intros Hlimit.
  pose proof (ceil_div_bounds (length (filter (λ p, matches q p = true) collection)) limit
                Hlimit) as (Hupper & Hlower & Hzero).
  assert (Hget : ∀ page, 1 ≤ page →
            getProblems q (Some page) (Some limit) collection
            = inr {| listing_count :=
                       length (take limit (drop ((page - 1) * limit)
                                 (reverse (filter (λ p, matches q p = true) collection))));
                     listing_total :=
                       length (reverse (filter (λ p, matches q p = true) collection));
                     listing_page := page;
                     listing_pages :=
                       Some (ceil_div
                               (length (reverse (filter (λ p, matches q p = true) collection)))
                               limit);
                     listing_data :=
                       take limit (drop ((page - 1) * limit)
                         (reverse (filter (λ p, matches q p = true) collection))) |}).
  { intros page Hpage. unfold getProblems. cbn [default from_option Datatypes.id].
    destruct (Nat.eqb_spec page 0) as [?|_]; [lia|].
    destruct (Nat.eqb_spec limit 0) as [?|_]; [lia|]. done. }
  split.
  - rewrite <-fmap_S_seq, <-list_fmap_compose.
    etransitivity;
      [|apply (chunks_concat limit
                 (ceil_div (length (filter (λ p, matches q p = true) collection)) limit));
        by rewrite length_reverse].
    f_equal. apply list_fmap_ext. intros _ k _. cbn [compose]. unfold page_data.
    rewrite Hget by lia. cbn [listing_data]. do 3 f_equal. lia.
  - intros page Hpage. eexists. split; [by apply Hget|].
    cbn [listing_pages listing_total listing_count listing_data].
    rewrite !length_reverse. split; [done|]. split; [done|]. split; [done|].
    split; [rewrite length_take; lia|].
    rewrite <-length_zero_iff_nil, length_take, length_drop, length_reverse.
    split; intros H; [|nia].
    destruct (decide (page ≤ ceil_div (length (filter (λ p, matches q p = true) collection))
                               limit)) as [Hle|]; [|lia].
    assert ((page - 1) * limit < length (filter (λ p, matches q p = true) collection)) by nia.
    lia.
Qed.

Lemma pages_cover_matches_witness :
  1 ≤ 2
  ∧ concat ((λ page, page_data example_query page 2 (documents example_store))
              <$> seq 1 (ceil_div
                           (length (filter (λ p, matches example_query p = true)
                                      (documents example_store))) 2))
    = reverse (filter (λ p, matches example_query p = true) (documents example_store))
  ∧ ∀ page, 1 ≤ page →
      ∃ listing,
        getProblems example_query (Some page) (Some 2) (documents example_store)
        = inr listing
        ∧ listing_pages listing
          = Some (ceil_div
                    (length (filter (λ p, matches example_query p = true)
                               (documents example_store))) 2)
        ∧ listing_total listing
          = length (filter (λ p, matches example_query p = true) (documents example_store))
        ∧ listing_count listing = length (listing_data listing)
        ∧ listing_count listing ≤ 2
        ∧ (listing_data listing = []
           ↔ ceil_div
               (length (filter (λ p, matches example_query p = true)
                          (documents example_store))) 2 < page).
Proof.
  split; [lia|].
  apply (pages_cover_matches example_query 2 (documents example_store)). lia.
Defined.

(** ** Statistics *)

Lemma tally_bump (k d : string) (groups : list (string * nat)) :
  tally (bump k groups) d = tally groups d + (if decide (k = d) then 1 else 0).
Proof.
  unfold tally. induction groups as [|[k' n] groups IH].
  - cbn. case_decide; lia.
  - cbn [bump]. destruct (decide (k' = k)) as [->|Hk].
    + cbn. case_decide; lia.
    + cbn [sum_list_with fst snd]. rewrite IH. lia.
Qed.

Lemma bump_keys (k d : string) (groups : list (string * nat)) :
  d ∈ (bump k groups).*1 ↔ d = k ∨ d ∈ groups.*1.
Proof.
  induction groups as [|[k' n] groups IH].
  - cbn. rewrite list_elem_of_singleton, elem_of_nil. tauto.
  - cbn [bump]. destruct (decide (k' = k)) as [->|Hk].
    + cbn [fmap list_fmap fst]. rewrite elem_of_cons. tauto.
    + cbn [fmap list_fmap fst]. rewrite !elem_of_cons, IH. tauto.
Qed.

Lemma bump_NoDup (k : string) (groups : list (string * nat)) :
  NoDup groups.*1 → NoDup (bump k groups).*1.
Proof.
  induction groups as [|[k' n] groups IH]; intros Hkeys.
  - cbn. apply NoDup_singleton.
  - cbn [bump]. destruct (decide (k' = k)) as [->|Hk]; [done|].
    cbn [fmap list_fmap fst] in *. apply NoDup_cons in Hkeys as [Hfresh Hkeys].
    apply NoDup_cons. split; [|by apply IH].
    rewrite bump_keys. intros [?|?]; done.
Qed.

Lemma bump_positive (k : string) (groups : list (string * nat)) :
  Forall (λ g, 1 ≤ g.2) groups → Forall (λ g, 1 ≤ g.2) (bump k groups).
Proof.
  induction 1 as [|[k' n] groups Hn Hrest IH].
  - by repeat constructor.
  - cbn [bump]. cbn [snd] in Hn. case_decide.
    + constructor; [cbn [snd]; lia|done].
    + constructor; [done|exact IH].
Qed.

Lemma bump_sum (k : string) (groups : list (string * nat)) :
  sum_list (bump k groups).*2 = S (sum_list groups.*2).
Proof.
  induction groups as [|[k' n] groups IH]; [done|].
  cbn [bump]. case_decide.
  - cbn. lia.
  - cbn [fmap list_fmap snd] in *. change (sum_list (?x :: ?l)) with (x + sum_list l).
    rewrite IH. lia.
Qed.

Lemma group_count_spec (key : IProblemStatement → string)
    (docs : list IProblemStatement) :
  NoDup (group_count key docs).*1
  ∧ Forall (λ g, 1 ≤ g.2) (group_count key docs)
  ∧ sum_list (group_count key docs).*2 = length docs
  ∧ ∀ d, tally (group_count key docs) d = length (filter (λ p, key p = d) docs).
Proof.
  unfold group_count.
  assert (Hgen : ∀ groups,
            NoDup groups.*1 → Forall (λ g, 1 ≤ g.2) groups →
            NoDup (foldl (λ groups p, bump (key p) groups) groups docs).*1
            ∧ Forall (λ g, 1 ≤ g.2) (foldl (λ groups p, bump (key p) groups) groups docs)
            ∧ sum_list (foldl (λ groups p, bump (key p) groups) groups docs).*2
              = sum_list groups.*2 + length docs
            ∧ ∀ d, tally (foldl (λ groups p, bump (key p) groups) groups docs) d
                   = tally groups d + length (filter (λ p, key p = d) docs)).
  { induction docs as [|p docs IH]; intros groups Hkeys Hpos.
    - cbn [foldl length]. split; [done|]. split; [done|].
      split; [lia|]. intros d. rewrite filter_nil. cbn [length]. lia.
    - cbn [foldl].
      destruct (IH (bump (key p) groups) (bump_NoDup _ _ Hkeys) (bump_positive _ _ Hpos))
        as (H1 & H2 & H3 & H4).
      split; [done|]. split; [done|]. split.
      + rewrite H3, bump_sum. cbn [length]. lia.
      + intros d. rewrite H4, tally_bump, filter_cons.
        case_decide; cbn [length]; lia. }
  destruct (Hgen [] (NoDup_nil_2) (Forall_nil_2 _)) as (H1 & H2 & H3 & H4).
  split; [done|]. split; [done|]. split; [exact H3|]. intros d. by rewrite H4.
Qed.

Lemma tally_absent (groups : list (string * nat)) (d : string) :
  d ∉ groups.*1 → tally groups d = 0.
Proof.
  unfold tally. induction groups as [|[k n] groups IH]; [done|].
  cbn [fmap list_fmap fst sum_list_with snd]. rewrite not_elem_of_cons. intros [Hk Hd].
  rewrite decide_False by done. by rewrite IH.
Qed.

Lemma tally_elem (groups : list (string * nat)) (d : string) (n : nat) :
  NoDup groups.*1 → Forall (λ g, 1 ≤ g.2) groups →
  (d, n) ∈ groups ↔ 1 ≤ n ∧ tally groups d = n.
Proof.
  induction groups as [|[k m] groups IH]; intros Hkeys Hpos.
  - cbn. split; [by intros ?%elem_of_nil|lia].
  - cbn [fmap list_fmap fst] in Hkeys. apply NoDup_cons in Hkeys as [Hfresh Hkeys].
    apply Forall_cons in Hpos as [Hm Hpos]. cbn [snd] in Hm.
    unfold tally. cbn [sum_list_with fst snd]. fold (tally groups d).
    rewrite elem_of_cons. destruct (decide (k = d)) as [->|Hk].
    + rewrite (tally_absent groups d Hfresh). split.
      * intros [[= ->]|Hin]; [lia|].
        exfalso. apply Hfresh. apply list_elem_of_fmap. by exists (d, n).
      * intros [_ <-]. left. f_equal. lia.
    + rewrite <-(IH Hkeys Hpos). split; [|by right].
      intros [[= -> ->]|Hin]; done.
Qed.

Lemma count_descending_facts :
  Transitive count_descending ∧ Total count_descending.
Proof.
  split.
  - intros a b c. unfold count_descending. lia.
  - intros a b. unfold count_descending. lia.
Qed.

Lemma filter_filter_and {A : Type} (P Q : A → Prop)
    `{∀ x, Decision (P x)} `{∀ x, Decision (Q x)} (l : list A) :
  filter Q (filter P l) = filter (λ x, P x ∧ Q x) l.
Proof.
  induction l as [|x l IH]; [done|]. rewrite !filter_cons.
  destruct (decide (P x)) as [HP|HP].
  - rewrite filter_cons. destruct (decide (Q x)) as [HQ|HQ].
    + rewrite decide_True by done. by rewrite IH.
    + rewrite decide_False by (by intros [_ ?]). done.
  - rewrite decide_False by (by intros [? _]). done.
Qed.

Lemma distribution_spec (key : IProblemStatement → string)
    (docs : list IProblemStatement) :
  sum_list (distribution key docs).*2 = length (match_active docs)
  ∧ NoDup (distribution key docs).*1
  ∧ StronglySorted count_descending (distribution key docs)
  ∧ ∀ d n, (d, n) ∈ distribution key docs
           ↔ 1 ≤ n ∧ n = length (filter (λ p, status p = "Active" ∧ key p = d) docs).
Proof.
  unfold distribution, sort_by_count.
  pose proof (merge_sort_Permutation count_descending
                (group_count key (match_active docs))) as Hperm.
  destruct (group_count_spec key (match_active docs)) as (Hkeys & Hpos & Hsum & Htally).
  destruct count_descending_facts as [Htrans Htotal].
  split; [by rewrite Hperm|]. split; [by rewrite Hperm|].
  split; [by apply StronglySorted_merge_sort|].
  intros d n. rewrite Hperm, (tally_elem _ d n Hkeys Hpos), Htally.
  unfold match_active. rewrite filter_filter_and. split; intros [? ?]; done.
Qed.

(** X22.  In the statistics, the distribution over domains and the one
    over difficulties each list every value that an active problem has
    exactly once, with the number of active problems that have it, larger
    counts first; the counts of each distribution add up to the number of
    active problems that the overview reports. *)
Theorem distributions_add_up (docs : list IProblemStatement) :
  sum_list (domainDistribution (getProblemStats docs)).*2
  = stat_active (overview (getProblemStats docs))
  ∧ sum_list (difficultyDistribution (getProblemStats docs)).*2
    = stat_active (overview (getProblemStats docs))
  ∧ NoDup (domainDistribution (getProblemStats docs)).*1
  ∧ NoDup (difficultyDistribution (getProblemStats docs)).*1
  ∧ StronglySorted count_descending (domainDistribution (getProblemStats docs))
  ∧ StronglySorted count_descending (difficultyDistribution (getProblemStats docs))
  ∧ (∀ d n, (d, n) ∈ domainDistribution (getProblemStats docs)
            ↔ 1 ≤ n
              ∧ n = length (filter (λ p, status p = "Active" ∧ domain p = d) docs))
  ∧ (∀ d n, (d, n) ∈ difficultyDistribution (getProblemStats docs)
            ↔ 1 ≤ n
              ∧ n = length (filter (λ p, status p = "Active" ∧ difficulty p = d) docs)).
Proof.
  destruct (distribution_spec domain docs) as (Hsum1 & Hkeys1 & Hsorted1 & Hin1).
  destruct (distribution_spec difficulty docs) as (Hsum2 & Hkeys2 & Hsorted2 & Hin2).
  assert (Hactive : stat_active (overview (getProblemStats docs))
                    = length (match_active docs)).
  { unfold getProblemStats, match_active. destruct docs as [|p docs]; [done|].
    cbn [group_all head default from_option Datatypes.id overview stat_active].
    generalize (p :: docs). intros l. unfold sum_cond.
    induction l as [|q l IH]; [done|]. cbn [sum_list_with]. rewrite filter_cons, IH.
    destruct (decide (status q = "Active")) as [Hq|Hq].
    - by rewrite bool_decide_eq_true_2.
    - by rewrite bool_decide_eq_false_2. }
  rewrite Hactive. cbn [getProblemStats domainDistribution difficultyDistribution].
  split; [done|]. split; [done|]. split; [done|]. split; [done|].
  split; [done|]. split; [done|]. split; [exact Hin1|exact Hin2].
Qed.

Lemma distributions_add_up_witness :
  (1 ≤ 2
   ∧ 2 = length (filter (λ p, status p = "Active" ∧ domain p = "Cloud Computing")
                   example_catalogue))
  ∧ ("Cloud Computing", 2) ∈ domainDistribution (getProblemStats example_catalogue).
Proof.
  assert (Hcount : 1 ≤ 2
                   ∧ 2 = length (filter (λ p, status p = "Active"
                                              ∧ domain p = "Cloud Computing")
                                   example_catalogue)).
  { split; [lia|reflexivity]. }
  split; [exact Hcount|].
  apply (distributions_add_up example_catalogue). exact Hcount.
Defined.

Lemma overview_admin (docs : list IProblemStatement) :
  overview (getProblemStats docs)
  = {| stat_total := length docs;
       stat_active := sum_cond (λ p, bool_decide (status p = "Active")) docs;
       stat_draft := sum_cond (λ p, bool_decide (status p = "Draft")) docs;
       stat_archived := sum_cond (λ p, bool_decide (status p = "Archived")) docs;
       stat_featured := sum_cond featured docs;
       stat_totalViews := sum_list_with viewCount docs |}.
Proof. by destruct docs. Qed.

Lemma overview_public (docs : list IProblemStatement) :
  overview (getPublicProblemStats docs)
  = {| pub_total := length (match_active docs);
       pub_featured := sum_cond featured (match_active docs);
       pub_totalViews := sum_list_with viewCount (match_active docs) |}.
Proof. unfold getPublicProblemStats. by destruct (match_active docs). Qed.

Lemma sum_cond_decide (P : IProblemStatement → Prop) `{∀ p, Decision (P p)}
    (docs : list IProblemStatement) :
  sum_cond (λ p, bool_decide (P p)) docs = length (filter P docs).
Proof.
  unfold sum_cond. induction docs as [|q l IH]; [done|].
  cbn [sum_list_with]. rewrite filter_cons, IH.
  destruct (decide (P q)) as [Hq|Hq].
  - by rewrite bool_decide_eq_true_2.
  - by rewrite bool_decide_eq_false_2.
Qed.

Lemma sum_list_with_filter {A : Type} (f : A → nat) (P : A → Prop)
    `{∀ x, Decision (P x)} (l : list A) :
  sum_list_with f (filter P l) ≤ sum_list_with f l.
Proof.
  induction l as [|x l IH]; [done|]. rewrite filter_cons.
  case_decide; cbn [sum_list_with]; lia.
Qed.

Lemma sum_cond_length (c : IProblemStatement → bool) (docs : list IProblemStatement) :
  sum_cond c docs ≤ length docs.
Proof.
  unfold sum_cond. induction docs as [|q l IH]; [done|].
  cbn [sum_list_with length]. destruct (c q); lia.
Qed.

Lemma status_contribution (s : string) :
  (if bool_decide (s = "Active") then 1 else 0)
  + (if bool_decide (s = "Draft") then 1 else 0)
  + (if bool_decide (s = "Archived") then 1 else 0) ≤ 1
  ∧ ((if bool_decide (s = "Active") then 1 else 0)
     + (if bool_decide (s = "Draft") then 1 else 0)
     + (if bool_decide (s = "Archived") then 1 else 0) = 1
     ↔ s ∈ ["Active"; "Draft"; "Archived"]).
Proof.
  rewrite !elem_of_cons, elem_of_nil.
  destruct (decide (s = "Active")) as [->|Ha]; [by split; [|split; [left|]]|].
  destruct (decide (s = "Draft")) as [->|Hd]; [by split; [|split; [right; left|]]|].
  destruct (decide (s = "Archived")) as [->|Hr];
    [by split; [|split; [right; right; left|]]|].
  rewrite !bool_decide_eq_false_2 by done. split; [lia|].
  split; [lia|]. intros [?|[?|[?|[]]]]; done.
Qed.

Lemma status_counts (docs : list IProblemStatement) :
  sum_cond (λ p, bool_decide (status p = "Active")) docs
  + sum_cond (λ p, bool_decide (status p = "Draft")) docs
  + sum_cond (λ p, bool_decide (status p = "Archived")) docs
  ≤ length docs
  ∧ (sum_cond (λ p, bool_decide (status p = "Active")) docs
     + sum_cond (λ p, bool_decide (status p = "Draft")) docs
     + sum_cond (λ p, bool_decide (status p = "Archived")) docs
     = length docs
     ↔ Forall (λ p, status p ∈ ["Active"; "Draft"; "Archived"]) docs).
Proof.
  unfold sum_cond. induction docs as [|q l [IHle IHeq]].
  - split; [done|]. split; [constructor|done].
  - cbn [sum_list_with length]. rewrite Forall_cons, <-IHeq.
    destruct (status_contribution (status q)) as [Hle <-]. lia.
Qed.

(** X23.  In the overview of [getProblemStats], [total] is the number of
    problems, also for an empty collection; the counts by status never add
    up to more than [total] and add up to it exactly when every stored
    status is one of the three values; and the public overview reports as
    [total] the [active] count of the full one, with no more featured
    problems and no more views. *)
Theorem overview_counts (docs : list IProblemStatement) :
  stat_total (overview (getProblemStats docs)) = length docs
  ∧ stat_active (overview (getProblemStats docs))
    + stat_draft (overview (getProblemStats docs))
    + stat_archived (overview (getProblemStats docs))
    ≤ stat_total (overview (getProblemStats docs))
  ∧ (stat_active (overview (getProblemStats docs))
     + stat_draft (overview (getProblemStats docs))
     + stat_archived (overview (getProblemStats docs))
     = stat_total (overview (getProblemStats docs))
     ↔ Forall (λ p, status p ∈ ["Active"; "Draft"; "Archived"]) docs)
  ∧ stat_featured (overview (getProblemStats docs))
    ≤ stat_total (overview (getProblemStats docs))
  ∧ pub_total (overview (getPublicProblemStats docs))
    = stat_active (overview (getProblemStats docs))
  ∧ pub_featured (overview (getPublicProblemStats docs))
    ≤ stat_featured (overview (getProblemStats docs))
  ∧ pub_totalViews (overview (getPublicProblemStats docs))
    ≤ stat_totalViews (overview (getProblemStats docs)).
Proof.
  rewrite overview_admin, overview_public.
  cbn [stat_total stat_active stat_draft stat_archived stat_featured stat_totalViews
       pub_total pub_featured pub_totalViews].
  destruct (status_counts docs) as [Hle Heq].
  split; [done|]. split; [exact Hle|]. split; [exact Heq|].
  split; [apply sum_cond_length|]. split; [by rewrite sum_cond_decide|].
  split; apply sum_list_with_filter.
Qed.

Lemma overview_counts_witness :
  Forall (λ p, status p ∈ ["Active"; "Draft"; "Archived"]) example_catalogue
  ∧ stat_active (overview (getProblemStats example_catalogue))
    + stat_draft (overview (getProblemStats example_catalogue))
    + stat_archived (overview (getProblemStats example_catalogue))
    = stat_total (overview (getProblemStats example_catalogue)).
Proof.
  assert (Hvalid : Forall (λ p, status p ∈ ["Active"; "Draft"; "Archived"])
                     example_catalogue).
  { repeat constructor. }
  split; [exact Hvalid|].
  apply (overview_counts example_catalogue). exact Hvalid.
Defined.
